(** * Legal-Agent: text preparation, response parsing and the chunk-summary cache

    A shallow embedding of the Python sources
      src/src/text_utils.py, src/src/rule_checker.py,
      src/src/section_extractor.py, src/src/summarizer.py,
      src/src/json_exporter.py and src/agent.py,
    followed by the properties the specification states about them.

    Conventions.
    - A Python [str] is a list of Unicode code points ([list N]).
    - Python library calls ([re], [json], [str.strip], [range], slicing) are
      modelled by executable definitions of their documented behaviour.
    - The language model and the PDF reader are external: they are fields of
      an environment record and every call is recorded in a trace. *)

From Stdlib Require Import ZArith NArith List Bool Lia String Ascii DecimalString.
From stdpp Require Import gmap strings list.

Set Default Proof Using "Type".
Set Warnings "-register-all".

(* ===================================================================== *)
(** ** Python strings *)
(* ===================================================================== *)

Module PyStr.

(** A character is a code point, a string a list of them. *)
Definition char := N.
Definition text := list char.

(** The code points of an ASCII literal. *)
Definition codes (s : string) : text :=
  map N_of_ascii (list_ascii_of_string s).

Definition in_range (c : char) (r : N * N) : bool :=
  ((fst r <=? c) && (c <=? snd r))%N.

(** [str.isspace] on one character, which is also what [\s] matches in a
    [str] pattern and what [str.strip()] removes. *)
Definition space_ranges : list (N * N) :=
  [ (9, 13); (28, 32); (133, 133); (160, 160); (5760, 5760);
    (8192, 8202); (8232, 8233); (8239, 8239); (8287, 8287);
    (12288, 12288) ]%N.

Definition isspace (c : char) : bool := existsb (in_range c) space_ranges.

(** The decimal digits ([\d] in a [str] pattern): general category Nd of
    Unicode 14.0, as shipped with CPython 3.11. *)
Definition decimal_ranges : list (N * N) :=
  [ (48, 57); (1632, 1641); (1776, 1785); (1984, 1993); (2406, 2415);
    (2534, 2543); (2662, 2671); (2790, 2799); (2918, 2927); (3046, 3055);
    (3174, 3183); (3302, 3311); (3430, 3439); (3558, 3567); (3664, 3673);
    (3792, 3801); (3872, 3881); (4160, 4169); (4240, 4249); (6112, 6121);
    (6160, 6169); (6470, 6479); (6608, 6617); (6784, 6793); (6800, 6809);
    (6992, 7001); (7088, 7097); (7232, 7241); (7248, 7257); (42528, 42537);
    (43216, 43225); (43264, 43273); (43472, 43481); (43504, 43513);
    (43600, 43609); (44016, 44025); (65296, 65305); (66720, 66729);
    (68912, 68921); (69734, 69743); (69872, 69881); (69942, 69951);
    (70096, 70105); (70384, 70393); (70736, 70745); (70864, 70873);
    (71248, 71257); (71360, 71369); (71472, 71481); (71904, 71913);
    (72016, 72025); (72784, 72793); (73040, 73049); (73120, 73129);
    (92768, 92777); (92864, 92873); (93008, 93017); (120782, 120831);
    (123200, 123209); (123632, 123641); (125264, 125273);
    (130032, 130041) ]%N.

Definition isdecimal (c : char) : bool := existsb (in_range c) decimal_ranges.

Definition is_ascii (c : char) : bool := (c <=? 127)%N.

Definition newline : char := 10%N.
Definition blank : char := 32%N.

Fixpoint lstrip (s : text) : text :=
  match s with
  | c :: s' => if isspace c then lstrip s' else s
  | [] => []
  end.

(** [s.strip()] *)
Definition strip (s : text) : text := rev (lstrip (rev (lstrip s))).

(** [range(start, stop, step)]: [None] is the ValueError for a zero step. *)
Definition py_range (start stop step : Z) : option (list Z) :=
  if (step =? 0)%Z then None
  else
    let n := if (0 <? step)%Z
             then ((stop - start + step - 1) / step)%Z
             else ((start - stop - step - 1) / (- step))%Z in
    Some (map (fun k => (start + Z.of_nat k * step)%Z) (seq 0 (Z.to_nat n))).

(** One bound of a slice: negative counts from the end, then clamp. *)
Definition slice_bound (len i : Z) : Z :=
  let j := if (i <? 0)%Z then (i + len)%Z else i in
  Z.max 0 (Z.min len j).

(** [s[i:j]] *)
Definition py_slice {A} (s : list A) (i j : Z) : list A :=
  let len := Z.of_nat (length s) in
  let lo := slice_bound len i in
  let hi := slice_bound len j in
  firstn (Z.to_nat (hi - lo)) (skipn (Z.to_nat lo) s).

End PyStr.

(* ===================================================================== *)
(** ** The fragment of Python's [re] the sources use *)
(* ===================================================================== *)

Module Re.
Import PyStr.

(** Patterns.  Repetition is only ever applied to a character class in the
    sources ([\s*], [\d+], [\n{2,}], [[^\x00-\x7F]+], [.*?]); [Caret] and
    [Dollar] are [^] and [$] under [re.MULTILINE]; [Group] is the one
    capturing group; [(?:x)?] is [Or x Empty]. *)
Inductive regex :=
| Empty
| Set_ (cls : char -> bool)
| Cat (a b : regex)
| Or (a b : regex)
| Repeat (greedy : bool) (lo : nat) (cls : char -> bool)
| Caret
| Dollar
| Group (a : regex).

(** The matcher's position: the character before it, the text after it,
    and the text captured by the group so far. *)
Record mstate := MState {
  m_prev : option char;
  m_rest : text;
  m_grp : option text }.

Definition cont := mstate -> option mstate.

Definition at_bol (prev : option char) : bool :=
  match prev with None => true | Some c => (c =? newline)%N end.

Definition at_eol (s : text) : bool :=
  match s with [] => true | c :: _ => (c =? newline)%N end.

(** What a match starting at [s] and ending at [rest] consumed. *)
Definition taken (s rest : text) : text :=
  firstn (length s - length rest) s.

Definition stop_here (lo : nat) (k : cont) (st : mstate) : option mstate :=
  match lo with 0 => k st | S _ => None end.

(** Greedy [cls{lo,}]: take as many as possible, give back one at a time. *)
Fixpoint rep_greedy (cls : char -> bool) (k : cont) (lo : nat)
    (g : option text) (prev : option char) (s : text) {struct s}
    : option mstate :=
  match s with
  | c :: s' =>
      if cls c then
        match rep_greedy cls k (pred lo) g (Some c) s' with
        | Some r => Some r
        | None => stop_here lo k (MState prev s g)
        end
      else stop_here lo k (MState prev s g)
  | [] => stop_here lo k (MState prev s g)
  end.

(** Lazy [cls{lo,}?]: take as few as possible, one more on failure. *)
Fixpoint rep_lazy (cls : char -> bool) (k : cont) (lo : nat)
    (g : option text) (prev : option char) (s : text) {struct s}
    : option mstate :=
  match lo with
  | 0 =>
      match k (MState prev s g) with
      | Some r => Some r
      | None =>
          match s with
          | c :: s' => if cls c then rep_lazy cls k 0 g (Some c) s' else None
          | [] => None
          end
      end
  | S lo' =>
      match s with
      | c :: s' => if cls c then rep_lazy cls k lo' g (Some c) s' else None
      | [] => None
      end
  end.

(** Backtracking match of [r] at [st], then the continuation [k]; the first
    success in priority order wins, as in the [sre] engine. *)
Fixpoint rmatch (r : regex) (st : mstate) (k : cont) : option mstate :=
  match r with
  | Empty => k st
  | Set_ cls =>
      match m_rest st with
      | c :: s' => if cls c then k (MState (Some c) s' (m_grp st)) else None
      | [] => None
      end
  | Cat a b => rmatch a st (fun st' => rmatch b st' k)
  | Or a b =>
      match rmatch a st k with
      | Some res => Some res
      | None => rmatch b st k
      end
  | Repeat greedy lo cls =>
      (if greedy then rep_greedy else rep_lazy)
        cls k lo (m_grp st) (m_prev st) (m_rest st)
  | Caret => if at_bol (m_prev st) then k st else None
  | Dollar => if at_eol (m_rest st) then k st else None
  | Group a =>
      rmatch a st (fun st' =>
        k (MState (m_prev st') (m_rest st')
                  (Some (taken (m_rest st) (m_rest st')))))
  end.

(** A match attempt at one position.  [must_advance] is the engine's flag
    that refuses an empty match right after an empty match. *)
Definition match_at (r : regex) (must_advance : bool)
    (prev : option char) (s : text) : option mstate :=
  rmatch r (MState prev s None)
    (fun st' =>
       if must_advance && (length (m_rest st') =? length s)
       then None else Some st').

(** [re.search(r, s)]: the leftmost position with a match. *)
Fixpoint search_from (r : regex) (prev : option char) (s : text)
    : option mstate :=
  match match_at r false prev s with
  | Some m => Some m
  | None =>
      match s with
      | c :: s' => search_from r (Some c) s'
      | [] => None
      end
  end.

Definition re_search (r : regex) (s : text) : option mstate :=
  search_from r None s.

(** [re.sub(r, repl, s)] for a replacement without group references:
    every leftmost non-overlapping match is replaced.  Each round either
    consumes a character or turns [must_advance] on, so [2 * len + 2]
    rounds are enough. *)
Fixpoint sub_loop (fuel : nat) (r : regex) (repl : text)
    (must_advance : bool) (prev : option char) (s : text) : text :=
  match fuel with
  | 0 => s
  | S fuel' =>
      match match_at r must_advance prev s with
      | Some m =>
          repl ++ sub_loop fuel' r repl
                    (length (m_rest m) =? length s) (m_prev m) (m_rest m)
      | None =>
          match s with
          | c :: s' => c :: sub_loop fuel' r repl false (Some c) s'
          | [] => []
          end
      end
  end.

Definition re_sub (r : regex) (repl : text) (s : text) : text :=
  sub_loop (2 * length s + 2) r repl false None s.

(** Pattern building blocks. *)
Definition lit (c : char) : regex := Set_ (N.eqb c).

Definition seq_ (rs : list regex) : regex := fold_right Cat Empty rs.

Definition lits (s : string) : regex := seq_ (map lit (codes s)).

Definition star (cls : char -> bool) : regex := Repeat true 0 cls.
Definition plus (cls : char -> bool) : regex := Repeat true 1 cls.
Definition lazy_star (cls : char -> bool) : regex := Repeat false 0 cls.

(** [.] under [re.DOTALL] *)
Definition any_char (c : char) : bool := true.

End Re.

(* ===================================================================== *)
(** ** src/src/text_utils.py *)
(* ===================================================================== *)

Module text_utils.
Import PyStr Re.

(** [r"Page\s*\d+\s*of\s*\d+"] *)
Definition page_re : regex :=
  seq_ [lits "Page"; star isspace; plus isdecimal; star isspace;
        lits "of"; star isspace; plus isdecimal].

(** [r"\n{2,}"] *)
Definition blank_lines_re : regex := Repeat true 2 (N.eqb newline).

(** [r"^\s*\d+\s*$"] with [re.MULTILINE] *)
Definition isolated_number_re : regex :=
  seq_ [Caret; star isspace; plus isdecimal; star isspace; Dollar].

(** [r"[^\x00-\x7F]+"] *)
Definition non_ascii_re : regex := plus (fun c => negb (is_ascii c)).

(** [r"\s+"] *)
Definition whitespace_re : regex := plus isspace.

Definition clean_text (t : text) : text :=
  let t := re_sub page_re [] t in
  let t := re_sub blank_lines_re [newline] t in
  let t := re_sub isolated_number_re [] t in
  let t := re_sub non_ascii_re [blank] t in
  let t := re_sub whitespace_re [blank] t in
  strip t.

(** [[text[i:i+chunk_size] for i in range(0, len(text), chunk_size)]];
    [None] is the ValueError of [range] for a zero chunk size. *)
Definition chunk_text (t : text) (chunk_size : Z) : option (list text) :=
  match py_range 0 (Z.of_nat (length t)) chunk_size with
  | None => None
  | Some starts => Some (map (fun i => py_slice t i (i + chunk_size)) starts)
  end.

(** The default of the [chunk_size] argument. *)
Definition default_chunk_size : Z := 6000.

End text_utils.

(* ===================================================================== *)
(** ** Python's [json] module *)
(* ===================================================================== *)

Module Json.
Import PyStr.

(** The values [json.loads] builds.  A dict keeps insertion order, so it
    is an association list with distinct keys.  A float is kept as the
    lexeme it was read from (Python would print its shortest repr); no
    property below depends on the text of a float. *)
Inductive json :=
| JNull
| JBool (b : bool)
| JInt (z : Z)
| JFloat (lexeme : text)
| JStr (s : text)
| JList (l : list json)
| JDict (d : list (text * json)).

Definition text_eqb (a b : text) : bool := bool_decide (a = b).

(** [d[k] = v] on an insertion-ordered dict. *)
Fixpoint dict_set (d : list (text * json)) (k : text) (v : json)
    : list (text * json) :=
  match d with
  | [] => [(k, v)]
  | (k', v') :: d' =>
      if text_eqb k' k then (k', v) :: d' else (k', v') :: dict_set d' k v
  end.

Fixpoint dict_get (d : list (text * json)) (k : text) : option json :=
  match d with
  | [] => None
  | (k', v') :: d' => if text_eqb k' k then Some v' else dict_get d' k
  end.

Definition dict_keys (d : list (text * json)) : list text := map fst d.

(** *** Encoding: [json.dumps(v, indent=2)] with the default
    [ensure_ascii=True]. *)

Definition hex_digit (n : N) : char :=
  (if n <? 10 then 48 + n else 87 + n)%N.

(** ['\\u{0:04x}'.format(n)] *)
Definition u_escape (n : N) : text :=
  [92; 117; hex_digit (n / 4096 mod 16); hex_digit (n / 256 mod 16);
   hex_digit (n / 16 mod 16); hex_digit (n mod 16)]%N.

Definition escape_char (c : char) : text :=
  (if c =? 92 then [92; 92]
   else if c =? 34 then [92; 34]
   else if c =? 8 then [92; 98]
   else if c =? 12 then [92; 102]
   else if c =? 10 then [92; 110]
   else if c =? 13 then [92; 114]
   else if c =? 9 then [92; 116]
   else if (32 <=? c) && (c <=? 126) then [c]
   else if c <? 65536 then u_escape c
   else
     let n := c - 65536 in
     u_escape (N.lor 55296 (N.land (N.shiftr n 10) 1023))
       ++ u_escape (N.lor 56320 (N.land n 1023)))%N.

Definition encode_basestring_ascii (s : text) : text :=
  [34%N] ++ flat_map escape_char s ++ [34%N].

Fixpoint join_with (sep : text) (parts : list text) : text :=
  match parts with
  | [] => []
  | [p] => p
  | p :: ps => p ++ sep ++ join_with sep ps
  end.

Definition newline_indent (lvl : nat) : text :=
  newline :: repeat blank (2 * lvl).

Definition int_repr (z : Z) : text :=
  codes (NilZero.string_of_int (Z.to_int z)).

Fixpoint encode (lvl : nat) (v : json) : text :=
  match v with
  | JNull => codes "null"
  | JBool true => codes "true"
  | JBool false => codes "false"
  | JInt z => int_repr z
  | JFloat lexeme => lexeme
  | JStr s => encode_basestring_ascii s
  | JList [] => codes "[]"
  | JList l =>
      [91%N] ++ newline_indent (S lvl)
        ++ join_with (44%N :: newline_indent (S lvl))
             (map (encode (S lvl)) l)
        ++ newline_indent lvl ++ [93%N]
  | JDict [] => codes "{}"
  | JDict d =>
      [123%N] ++ newline_indent (S lvl)
        ++ join_with (44%N :: newline_indent (S lvl))
             (map (fun kv : text * json =>
                     let '(k, x) := kv in
                     encode_basestring_ascii k ++ codes ": "
                       ++ encode (S lvl) x) d)
        ++ newline_indent lvl ++ [125%N]
  end.

Definition dumps (v : json) : text := encode 0 v.

(** *** Decoding: [json.loads(s)] for a [str], as the C scanner does it.
    [None] stands for [json.JSONDecodeError]. *)

Definition is_ws (c : char) : bool :=
  ((c =? 32) || (c =? 9) || (c =? 10) || (c =? 13))%N.

Fixpoint skip_ws (s : text) : text :=
  match s with
  | c :: s' => if is_ws c then skip_ws s' else s
  | [] => []
  end.

Definition is_digit (c : char) : bool := ((48 <=? c) && (c <=? 57))%N.

Definition hex_value (c : char) : option N :=
  (if (48 <=? c) && (c <=? 57) then Some (c - 48)
   else if (97 <=? c) && (c <=? 102) then Some (c - 87)
   else if (65 <=? c) && (c <=? 70) then Some (c - 55)
   else None)%N.

(** Four hexadecimal digits. *)
Definition hex4 (s : text) : option (N * text) :=
  match s with
  | a :: b :: c :: d :: s' =>
      match hex_value a, hex_value b, hex_value c, hex_value d with
      | Some x, Some y, Some z, Some w =>
          Some (((x * 16 + y) * 16 + z) * 16 + w, s')%N
      | _, _, _, _ => None
      end
  | _ => None
  end.

Definition is_high_surrogate (c : N) : bool :=
  ((55296 <=? c) && (c <=? 56319))%N.
Definition is_low_surrogate (c : N) : bool :=
  ((56320 <=? c) && (c <=? 57343))%N.
Definition join_surrogates (hi lo : N) : N :=
  (65536 + (N.shiftl (N.land hi 1023) 10 + N.land lo 1023))%N.

(** The character a one-letter escape stands for. *)
Definition simple_escape (c : char) : option char :=
  (if c =? 34 then Some 34
   else if c =? 92 then Some 92
   else if c =? 47 then Some 47
   else if c =? 98 then Some 8
   else if c =? 102 then Some 12
   else if c =? 110 then Some 10
   else if c =? 114 then Some 13
   else if c =? 116 then Some 9
   else None)%N.

(** After the escape of [u]: a high surrogate followed by the escape of
    a low surrogate is one character; [None] is an invalid second
    escape. *)
Definition surrogate_tail (u : N) (r : text) : option (char * text) :=
  if is_high_surrogate u then
    match r with
    | b1 :: b2 :: r2 =>
        if ((b1 =? 92) && (b2 =? 117))%N then
          match hex4 r2 with
          | None => None
          | Some (u2, r3) =>
              if is_low_surrogate u2
              then Some (join_surrogates u u2, r3)
              else Some (u, r)
          end
        else Some (u, r)
    | _ => Some (u, r)
    end
  else Some (u, r).

(** [scanstring], strict: the text after the opening quote up to the
    closing one.  The fuel is the length of the input. *)
Fixpoint scanstring (fuel : nat) (s : text) : option (text * text) :=
  match fuel with
  | 0 => None
  | S fuel' =>
      match s with
      | [] => None
      | c :: s' =>
          if (c =? 34)%N then Some ([], s')
          else if (c =? 92)%N then
            match s' with
            | [] => None
            | e :: s'' =>
                match
                  (if (e =? 117)%N then
                     match hex4 s'' with
                     | None => None
                     | Some (u, r) => surrogate_tail u r
                     end
                   else
                     match simple_escape e with
                     | None => None
                     | Some x => Some (x, s'')
                     end)
                with
                | None => None
                | Some (x, r) =>
                    match scanstring fuel' r with
                    | Some (str, r') => Some (x :: str, r')
                    | None => None
                    end
                end
            end
          else if (c <=? 31)%N then None
          else
            match scanstring fuel' s' with
            | Some (str, r') => Some (c :: str, r')
            | None => None
            end
      end
  end.

Fixpoint span_digits (s : text) : text * text :=
  match s with
  | c :: s' =>
      if is_digit c then let '(ds, r) := span_digits s' in (c :: ds, r)
      else ([], s)
  | [] => ([], [])
  end.

Definition digits_value (ds : text) : Z :=
  fold_left (fun acc c => (acc * 10 + Z.of_N (c - 48))%Z) ds 0%Z.

(** The integer part, an optional minus sign and then 0 or a nonzero
    digit followed by digits: sign, digits, rest. *)
Definition match_integer (s : text) : option (bool * text * text) :=
  let '(neg, s1) :=
    match s with
    | 45%N :: s' => (true, s')
    | _ => (false, s)
    end in
  match s1 with
  | c :: s2 =>
      if (c =? 48)%N then Some (neg, [c], s2)
      else if is_digit c then
        let '(ds, r) := span_digits s2 in Some (neg, c :: ds, r)
      else None
  | [] => None
  end.

(** The fraction [\.[0-9]+], if there is one. *)
Definition match_frac (s : text) : text * text :=
  match s with
  | 46%N :: c :: s' =>
      if is_digit c then
        let '(ds, r) := span_digits s' in (46%N :: c :: ds, r)
      else ([], s)
  | _ => ([], s)
  end.

(** The exponent [[eE][-+]?[0-9]+], if there is one. *)
Definition match_exp (s : text) : text * text :=
  match s with
  | e :: s1 =>
      if ((e =? 101) || (e =? 69))%N then
        let '(sign, s2) :=
          match s1 with
          | c :: s' =>
              if ((c =? 45) || (c =? 43))%N then ([c], s') else ([], s1)
          | [] => ([], s1)
          end in
        match span_digits s2 with
        | ([], _) => ([], s)
        | (ds, r) => (e :: sign ++ ds, r)
        end
      else ([], s)
  | [] => ([], s)
  end.

Definition match_number (s : text) : option (json * text) :=
  match match_integer s with
  | None => None
  | Some (neg, ds, r) =>
      let '(frac, r1) := match_frac r in
      let '(ex, r2) := match_exp r1 in
      let sign := if neg then [45%N] else [] in
      match frac, ex with
      | [], [] =>
          let v := digits_value ds in
          Some (JInt (if neg then (- v)%Z else v), r2)
      | _, _ => Some (JFloat (sign ++ ds ++ frac ++ ex), r2)
      end
  end.

(** [s] starts with the literal [w]: the rest. *)
Fixpoint strip_prefix (w s : text) : option text :=
  match w, s with
  | [], _ => Some s
  | a :: w', b :: s' => if (a =? b)%N then strip_prefix w' s' else None
  | _ :: _, [] => None
  end.

(** [scan_once] with the array and object loops.  Every call consumes a
    character before it calls again, so the length of the input is fuel
    enough. *)
Fixpoint scan_once (fuel : nat) (s : text) : option (json * text) :=
  match fuel with
  | 0 => None
  | S fuel' =>
      match s with
      | [] => None
      | c :: s' =>
          if (c =? 34)%N then
            match scanstring (length s') s' with
            | Some (str, r) => Some (JStr str, r)
            | None => None
            end
          else if (c =? 123)%N then
            match skip_ws s' with
            | 125%N :: r => Some (JDict [], r)
            | s1 =>
                match parse_members fuel' [] s1 with
                | Some (d, r) => Some (JDict d, r)
                | None => None
                end
            end
          else if (c =? 91)%N then
            match skip_ws s' with
            | 93%N :: r => Some (JList [], r)
            | s1 =>
                match parse_items fuel' s1 with
                | Some (l, r) => Some (JList l, r)
                | None => None
                end
            end
          else
            match strip_prefix (codes "null") s with
            | Some r => Some (JNull, r)
            | None =>
            match strip_prefix (codes "true") s with
            | Some r => Some (JBool true, r)
            | None =>
            match strip_prefix (codes "false") s with
            | Some r => Some (JBool false, r)
            | None =>
            match strip_prefix (codes "-Infinity") s with
            | Some r => Some (JFloat (codes "-Infinity"), r)
            | None =>
            match match_number s with
            | Some res => Some res
            | None =>
            match strip_prefix (codes "NaN") s with
            | Some r => Some (JFloat (codes "NaN"), r)
            | None =>
            match strip_prefix (codes "Infinity") s with
            | Some r => Some (JFloat (codes "Infinity"), r)
            | None => None
            end end end end end end end
      end
  end

(** The items of an array after [[], up to and including []]. *)
with parse_items (fuel : nat) (s : text) : option (list json * text) :=
  match fuel with
  | 0 => None
  | S fuel' =>
      match scan_once fuel' s with
      | None => None
      | Some (v, r) =>
          match skip_ws r with
          | 93%N :: r' => Some ([v], r')
          | 44%N :: r' =>
              match parse_items fuel' (skip_ws r') with
              | Some (l, r'') => Some (v :: l, r'')
              | None => None
              end
          | _ => None
          end
      end
  end

(** The members of an object after [{], added to [acc] in order, a
    repeated key keeping its place and taking the later value. *)
with parse_members (fuel : nat) (acc : list (text * json)) (s : text)
    : option (list (text * json) * text) :=
  match fuel with
  | 0 => None
  | S fuel' =>
      match s with
      | 34%N :: s1 =>
          match scanstring (length s1) s1 with
          | None => None
          | Some (k, r) =>
              match skip_ws r with
              | 58%N :: r1 =>
                  match scan_once fuel' (skip_ws r1) with
                  | None => None
                  | Some (v, r2) =>
                      let acc' := dict_set acc k v in
                      match skip_ws r2 with
                      | 125%N :: r3 => Some (acc', r3)
                      | 44%N :: r3 => parse_members fuel' acc' (skip_ws r3)
                      | _ => None
                      end
                  end
              | _ => None
              end
          end
      | _ => None
      end
  end.

(** [json.loads(s)] in an interpreter whose limits the text does not
    reach: the value, or [None] for [json.JSONDecodeError]. *)
Definition loads (s : text) : option json :=
  match s with
  | 65279%N :: _ => None
  | _ =>
      match scan_once (S (length s)) (skip_ws s) with
      | None => None
      | Some (v, r) =>
          match skip_ws r with
          | [] => Some v
          | _ :: _ => None
          end
      end
  end.

(** *** [json.loads(s)] with the limits of the interpreter.

    A caller that catches [json.JSONDecodeError] alone sees two more
    errors of [json.loads].  The scanner enters a recursive call for
    every array and object it opens ([Py_EnterRecursiveCall] in
    [scan_once_unicode]), and raises [RecursionError] when the
    interpreter has no level left.  An integer literal is converted by
    [PyLong_FromString], which raises [ValueError] when the literal has
    more than 640 digits and more than [sys.get_int_max_str_digits()],
    unless that limit is 0 (no limit, as in an interpreter that has
    none).  The errors come in the order of the text: whichever the
    scanner meets first ends the call. *)

Inductive attempt (A : Type) :=
| Done (a : A)
| JSONDecodeError
| LimitError.
Arguments Done {A} a.
Arguments JSONDecodeError {A}.
Arguments LimitError {A}.

(** [recursion_left]: the arrays and objects the scanner may have open at
    once where [json.loads] is called.  [int_max_str_digits]:
    [sys.get_int_max_str_digits()]. *)
Record limits := Limits {
  recursion_left : nat;
  int_max_str_digits : nat }.

(** The number of digits of the integer literal at the head of [s]. *)
Definition integer_digits (s : text) : nat :=
  match match_integer s with
  | Some (_, ds, _) => length ds
  | None => 0
  end.

Definition exceeds_digit_limit (lim : limits) (digits : nat) : bool :=
  (640 <? digits) && (0 <? int_max_str_digits lim)
  && (int_max_str_digits lim <? digits).

(** [scan_once] with [room] levels of recursion left.  An array or
    object takes two calls for its opening character, so twice the
    length of the input is fuel enough. *)
Fixpoint scan_once_in (lim : limits) (fuel room : nat) (s : text)
    : attempt (json * text) :=
  match fuel with
  | 0 => JSONDecodeError
  | S fuel' =>
      match s with
      | [] => JSONDecodeError
      | c :: s' =>
          if (c =? 34)%N then
            match scanstring (length s') s' with
            | Some (str, r) => Done (JStr str, r)
            | None => JSONDecodeError
            end
          else if (c =? 123)%N then
            match room with
            | 0 => LimitError
            | S room' =>
                match skip_ws s' with
                | b :: r =>
                    if (b =? 125)%N then Done (JDict [], r)
                    else
                      match parse_members_in lim fuel' room' [] (b :: r) with
                      | Done (d, r') => Done (JDict d, r')
                      | JSONDecodeError => JSONDecodeError
                      | LimitError => LimitError
                      end
                | [] => JSONDecodeError
                end
            end
          else if (c =? 91)%N then
            match room with
            | 0 => LimitError
            | S room' =>
                match skip_ws s' with
                | b :: r =>
                    if (b =? 93)%N then Done (JList [], r)
                    else
                      match parse_items_in lim fuel' room' (b :: r) with
                      | Done (l, r') => Done (JList l, r')
                      | JSONDecodeError => JSONDecodeError
                      | LimitError => LimitError
                      end
                | [] => JSONDecodeError
                end
            end
          else
            match strip_prefix (codes "null") s with
            | Some r => Done (JNull, r)
            | None =>
            match strip_prefix (codes "true") s with
            | Some r => Done (JBool true, r)
            | None =>
            match strip_prefix (codes "false") s with
            | Some r => Done (JBool false, r)
            | None =>
            match strip_prefix (codes "-Infinity") s with
            | Some r => Done (JFloat (codes "-Infinity"), r)
            | None =>
            match match_number s with
            | Some (JInt z, r) =>
                if exceeds_digit_limit lim (integer_digits s)
                then LimitError
                else Done (JInt z, r)
            | Some res => Done res
            | None =>
            match strip_prefix (codes "NaN") s with
            | Some r => Done (JFloat (codes "NaN"), r)
            | None =>
            match strip_prefix (codes "Infinity") s with
            | Some r => Done (JFloat (codes "Infinity"), r)
            | None => JSONDecodeError
            end end end end end end end
      end
  end

with parse_items_in (lim : limits) (fuel room : nat) (s : text)
    : attempt (list json * text) :=
  match fuel with
  | 0 => JSONDecodeError
  | S fuel' =>
      match scan_once_in lim fuel' room s with
      | JSONDecodeError => JSONDecodeError
      | LimitError => LimitError
      | Done (v, r) =>
          match skip_ws r with
          | b :: r' =>
              if (b =? 93)%N then Done ([v], r')
              else if (b =? 44)%N then
                match parse_items_in lim fuel' room (skip_ws r') with
                | Done (l, r'') => Done (v :: l, r'')
                | JSONDecodeError => JSONDecodeError
                | LimitError => LimitError
                end
              else JSONDecodeError
          | [] => JSONDecodeError
          end
      end
  end

with parse_members_in (lim : limits) (fuel room : nat)
    (acc : list (text * json)) (s : text)
    : attempt (list (text * json) * text) :=
  match fuel with
  | 0 => JSONDecodeError
  | S fuel' =>
      match s with
      | c :: s1 =>
          if (c =? 34)%N then
            match scanstring (length s1) s1 with
            | None => JSONDecodeError
            | Some (k, r) =>
                match skip_ws r with
                | b :: r1 =>
                    if (b =? 58)%N then
                      match scan_once_in lim fuel' room (skip_ws r1) with
                      | JSONDecodeError => JSONDecodeError
                      | LimitError => LimitError
                      | Done (v, r2) =>
                          let acc' := dict_set acc k v in
                          match skip_ws r2 with
                          | b' :: r3 =>
                              if (b' =? 125)%N then Done (acc', r3)
                              else if (b' =? 44)%N then
                                parse_members_in lim fuel' room acc'
                                  (skip_ws r3)
                              else JSONDecodeError
                          | [] => JSONDecodeError
                          end
                      end
                    else JSONDecodeError
                | [] => JSONDecodeError
                end
            end
          else JSONDecodeError
      | [] => JSONDecodeError
      end
  end.

Definition json_loads (lim : limits) (s : text) : attempt json :=
  match s with
  | c :: _ =>
      if (c =? 65279)%N then JSONDecodeError
      else
        match
          scan_once_in lim (S (2 * length s)) (recursion_left lim)
            (skip_ws s)
        with
        | Done (v, r) =>
            match skip_ws r with
            | [] => Done v
            | _ :: _ => JSONDecodeError
            end
        | JSONDecodeError => JSONDecodeError
        | LimitError => LimitError
        end
  | [] => JSONDecodeError
  end.

(** *** The operations the sources apply to a decoded value.
    [None] stands for a raised [TypeError] or [KeyError]. *)

(** [isinstance(v, list)] *)
Definition is_list (v : json) : bool :=
  match v with JList _ => true | _ => false end.

(** [s in t] for two strings: [s] occurs in [t]. *)
Fixpoint is_substring (s t : text) : bool :=
  match strip_prefix s t with
  | Some _ => true
  | None => match t with [] => false | _ :: t' => is_substring s t' end
  end.

Definition json_eqb_str (k : text) (v : json) : bool :=
  match v with JStr s => text_eqb s k | _ => false end.

(** [k in v] for a string [k] *)
Definition py_contains (k : text) (v : json) : option bool :=
  match v with
  | JDict d => Some (bool_decide (k ∈ dict_keys d))
  | JList l => Some (existsb (json_eqb_str k) l)
  | JStr s => Some (is_substring k s)
  | _ => None
  end.

(** [v[k]] for a string [k] *)
Definition py_getitem (v : json) (k : text) : option json :=
  match v with
  | JDict d => dict_get d k
  | _ => None
  end.

(** [len(v)] *)
Definition py_len (v : json) : option nat :=
  match v with
  | JStr s => Some (length s)
  | JList l => Some (length l)
  | JDict d => Some (length d)
  | _ => None
  end.

End Json.

(* ===================================================================== *)
(** ** The outside world: files, the language model, the PDF reader *)
(* ===================================================================== *)

Module World.
Import PyStr.

(** A path holds a text file, or something [open]/[read] fails on (a
    directory, undecodable bytes, no permission). *)
Inductive fnode :=
| File (content : text)
| Unreadable.

(** What a run does to the outside, in order. *)
Inductive event :=
| EvPdf (path : string)
| EvLLM (prompt : text) (response : option text)
| EvWrite (path : string) (content : text).

(** The external collaborators.  [pdf_text] is [extract_text_from_pdf];
    [generate_content] is [model.generate_content(prompt)] followed by
    [.text], which may depend on everything that happened before.
    [None] is a raised exception.  [interpreter] holds the limits of the
    interpreter the program runs in. *)
Record env := Env {
  pdf_text : string -> option text;
  generate_content : list event -> text -> option text;
  interpreter : Json.limits }.

Record world := World {
  fs : gmap string fnode;
  trace : list event }.

(** A computation returns a value or raises; the world changes either
    way. *)
Inductive outcome (A : Type) :=
| Ok (a : A)
| Raised.
Arguments Ok {A} a.
Arguments Raised {A}.

Definition M (A : Type) : Type := world -> outcome A * world.

Definition ret {A} (a : A) : M A := fun w => (Ok a, w).

Definition raise {A} : M A := fun w => (Raised, w).

(** A step that touches nothing: it returns or raises. *)
Definition of_outcome {A} (o : outcome A) : M A := fun w => (o, w).

Definition bind {A B} (m : M A) (f : A -> M B) : M B :=
  fun w =>
    match m w with
    | (Ok a, w') => f a w'
    | (Raised, w') => (Raised, w')
    end.

Global Instance M_ret : MRet M := @ret.
Global Instance M_bind : MBind M := fun A B f m => bind m f.

Definition log (ev : event) : M unit :=
  fun w => (Ok tt, World (fs w) (trace w ++ [ev])).

Definition get_fs : M (gmap string fnode) := fun w => (Ok (fs w), w).

(** One call of the model. *)
Definition call_model (e : env) (prompt : text) : M text :=
  fun w =>
    let r := generate_content e (trace w) prompt in
    let w' := World (fs w) (trace w ++ [EvLLM prompt r]) in
    match r with
    | Some response => (Ok response, w')
    | None => (Raised, w')
    end.

(** [with open(path, 'w') as f: f.write(content)] *)
Definition write_file (path : string) (content : text) : M unit :=
  fun w =>
    match fs w !! path with
    | Some Unreadable => (Raised, w)
    | _ =>
        (Ok tt, World (<[path := File content]> (fs w))
                      (trace w ++ [EvWrite path content]))
    end.

End World.

(** A quoted word of a prompt. *)
Definition q (s : string) : PyStr.text :=
  [34%N] ++ PyStr.codes s ++ [34%N].

(** The lines of a prompt, joined by newlines. *)
Definition unlines (ls : list PyStr.text) : PyStr.text :=
  Json.join_with [PyStr.newline] ls.

(* ===================================================================== *)
(** ** src/src/summarizer.py *)
(* ===================================================================== *)

Module summarizer.
Import PyStr Json World.

Definition summarize_prompt (chunk : text) : text :=
  unlines [
    codes "";
    codes "        Summarize the following text in 3" ++ [8211%N]
      ++ codes "4 bullet points:";
    codes "        ";
    codes "        " ++ chunk;
    codes "        " ].

(** [response.text if response.text else ""] is [response.text]. *)
Definition summarize_chunk (e : env) (chunk : text) : M text :=
  call_model e (summarize_prompt chunk).

Fixpoint summarize_chunks (e : env) (chunks : list text) : M (list text) :=
  match chunks with
  | [] => ret []
  | chunk :: rest =>
      summary ← summarize_chunk e chunk;
      summaries ← summarize_chunks e rest;
      ret (summary :: summaries)
  end.

(** ["\n\n".join(v)]: the items of a list, the characters of a string or
    the keys of a dict; [None] is the TypeError for anything else. *)
Fixpoint all_strings (l : list json) : option (list text) :=
  match l with
  | [] => Some []
  | JStr s :: l' =>
      match all_strings l' with
      | Some ss => Some (s :: ss)
      | None => None
      end
  | _ :: _ => None
  end.

Definition py_join (sep : text) (v : json) : option text :=
  match v with
  | JList l =>
      match all_strings l with
      | Some ss => Some (join_with sep ss)
      | None => None
      end
  | JStr s => Some (join_with sep (map (fun c => [c]) s))
  | JDict d => Some (join_with sep (dict_keys d))
  | _ => None
  end.

Definition combine_prompt (combined_text : text) : text :=
  unlines [
    codes "";
    codes "        Using these sub-summaries, create one final summary (5"
      ++ [8211%N] ++ codes "10 bullet points) covering:";
    codes "        - Purpose";
    codes "        - Definitions";
    codes "        - Eligibility";
    codes "        - Obligations";
    codes "        - Enforcement";
    codes "        ";
    codes "        Sub-summaries:";
    codes "        " ++ combined_text;
    codes "        " ].

Definition combine_summaries (e : env) (chunk_summaries : json) : M text :=
  match py_join [newline; newline] chunk_summaries with
  | None => raise
  | Some combined_text => call_model e (combine_prompt combined_text)
  end.

End summarizer.

(* ===================================================================== *)
(** ** src/src/section_extractor.py *)
(* ===================================================================== *)

Module section_extractor.
Import PyStr Re Json World.

(** The format the prompt asks for. *)
Definition requested_format : list text := [
    codes "        {";
    codes "          " ++ q "definitions" ++ codes ": " ++ q "..." ++ codes ",";
    codes "          " ++ q "obligations" ++ codes ": " ++ q "..." ++ codes ",";
    codes "          " ++ q "responsibilities" ++ codes ": " ++ q "..."
      ++ codes ",";
    codes "          " ++ q "eligibility" ++ codes ": " ++ q "..." ++ codes ",";
    codes "          " ++ q "payments" ++ codes ": " ++ q "..." ++ codes ",";
    codes "          " ++ q "penalties" ++ codes ": " ++ q "..." ++ codes ",";
    codes "          " ++ q "record_keepin" ++ codes ": " ++ q "...";
    codes "        }" ].

Definition sections_prompt (t : text) : text :=
  unlines ([
    codes "";
    codes "        Extract the following from the Act text:";
    codes "        ";
    codes "        - Definitions";
    codes "        - Obligations";
    codes "        - Responsibilities";
    codes "        - Eligibility";
    codes "        - Payments";
    codes "        - Penalties";
    codes "        - Record-keeping";
    codes "        ";
    codes "        Return JSON exactly in this format:" ]
    ++ requested_format ++ [
    codes "        ";
    codes "        Act text:";
    codes "        " ++ t;
    codes "        " ]).

(** [r'```(?:json)?\s*({.*?})\s*```'] with [re.DOTALL] *)
Definition fence_re : regex :=
  seq_ [lits "```"; Or (lits "json") Empty; star isspace;
        Group (seq_ [lit 123%N; lazy_star any_char; lit 125%N]);
        star isspace; lits "```"].

(** The text handed to [json.loads]: the body of the first fenced block
    when there is one, the whole response otherwise.  (The group takes
    part in every match of these patterns.) *)
Definition unwrap_fence (fence : regex) (response_text : text) : text :=
  match re_search fence response_text with
  | Some (MState _ _ (Some body)) => body
  | _ => response_text
  end.

Definition empty_sections : json :=
  JDict [
    (codes "definitions", JStr []);
    (codes "obligations", JStr []);
    (codes "responsibilities", JStr []);
    (codes "eligibility", JStr []);
    (codes "payments", JStr []);
    (codes "penalties", JStr []);
    (codes "record_keeping", JStr []) ].

(** From [response.text] to the returned value or the raised error:
    [except json.JSONDecodeError] catches no other error of
    [json.loads]. *)
Definition sections_of_response (lim : limits) (response_text : text)
    : outcome json :=
  match json_loads lim (unwrap_fence fence_re response_text) with
  | Done result => Ok result
  | JSONDecodeError => Ok empty_sections
  | LimitError => Raised
  end.

Definition extract_sections (e : env) (t : text) : M json :=
  response_text ← call_model e (sections_prompt t);
  of_outcome (sections_of_response (interpreter e) response_text).

End section_extractor.

(* ===================================================================== *)
(** ** src/src/rule_checker.py *)
(* ===================================================================== *)

Module rule_checker.
Import PyStr Re Json World.

Definition LEGAL_DOCUMENT_RULES : list text := [
  codes "Act must define key terms";
  codes "Act must specify eligibility criteria";
  codes "Act must specify what the authority (government) must do";
  codes "Act must list penalties or enforcement methods";
  codes "Act must explain how to calculate payments";
  codes "Act must require records or reporting" ].

Definition rules_prompt (t : text) : text :=
  unlines [
    codes "";
    codes "        Analyze the following legal document/Act text and check if it follows these 6 specific rules:";
    codes "        ";
    codes "        1. Act must define key terms";
    codes "        2. Act must specify eligibility criteria";
    codes "        3. Act must specify what the authority (government) must do";
    codes "        4. Act must list penalties or enforcement methods";
    codes "        5. Act must explain how to calculate payments";
    codes "        6. Act must require records or reporting";
    codes "        ";
    codes "        For each rule, determine if it 'passes' or 'fails', extract the specific text snippet (evidence) that proves it, and give a confidence score (0-100).";
    codes "        ";
    codes "        Return the results as a JSON array exactly in this format:";
    codes "        [";
    codes "          {";
    codes "            " ++ q "rule" ++ codes ": "
      ++ q "Act must define key terms" ++ codes ",";
    codes "            " ++ q "status" ++ codes ": " ++ q "pass" ++ codes ",";
    codes "            " ++ q "evidence" ++ codes ": "
      ++ q "Section 2 - Definitions: 'In this Act, unless the context otherwise requires...'"
      ++ codes ",";
    codes "            " ++ q "confidence" ++ codes ": 95";
    codes "          },";
    codes "          {";
    codes "            " ++ q "rule" ++ codes ": "
      ++ q "Act must specify eligibility criteria" ++ codes ",";
    codes "            " ++ q "status" ++ codes ": " ++ q "pass" ++ codes ", ";
    codes "            " ++ q "evidence" ++ codes ": "
      ++ q "Section 4 - Eligibility: 'A person is eligible if they are over 18...'"
      ++ codes ",";
    codes "            " ++ q "confidence" ++ codes ": 90";
    codes "          }";
    codes "          // ... repeat for all 6 rules";
    codes "        ]";
    codes "        ";
    codes "        Legal document/Act text:";
    codes "        " ++ t;
    codes "        " ].

(** [r'```(?:json)?\s*({.*?}|\[.*?\])\s*```'] with [re.DOTALL] *)
Definition fence_re : regex :=
  seq_ [lits "```"; Or (lits "json") Empty; star isspace;
        Group (Or (seq_ [lit 123%N; lazy_star any_char; lit 125%N])
                  (seq_ [lit 91%N; lazy_star any_char; lit 93%N]));
        star isspace; lits "```"].

Definition default_rule_check (rule : text) : json :=
  JDict [
    (codes "rule", JStr rule);
    (codes "status", JStr (codes "fail"));
    (codes "evidence", JStr (codes "Could not process"));
    (codes "confidence", JInt 0) ].

Definition _create_default_rule_checks : json :=
  JList (map default_rule_check LEGAL_DOCUMENT_RULES).

(** From [response.text] to the returned value or the raised error:
    [except json.JSONDecodeError] catches no other error of
    [json.loads]. *)
Definition rule_checks_of_response (lim : limits) (response_text : text)
    : outcome json :=
  match
    json_loads lim (section_extractor.unwrap_fence fence_re response_text)
  with
  | Done result =>
      Ok (if is_list result then result else _create_default_rule_checks)
  | JSONDecodeError => Ok _create_default_rule_checks
  | LimitError => Raised
  end.

Definition apply_rule_checks (e : env) (t : text) : M json :=
  response_text ← call_model e (rules_prompt t);
  of_outcome (rule_checks_of_response (interpreter e) response_text).

End rule_checker.

(* ===================================================================== *)
(** ** src/src/json_exporter.py *)
(* ===================================================================== *)

Module json_exporter.
Import PyStr Json World.

Definition export_json (summary : text) (sections rule_checks : json)
    (path : string) : M unit :=
  write_file path
    (dumps (JDict [
       (codes "summary", JStr summary);
       (codes "sections", sections);
       (codes "rule_checks", rule_checks) ])).

Definition export_chunk_summaries (summaries : json) (path : string)
    : M unit :=
  write_file path (dumps (JDict [(codes "chunk_summaries", summaries)])).

End json_exporter.

(* ===================================================================== *)
(** ** src/agent.py *)
(* ===================================================================== *)

Module agent.
Import PyStr Json World.

Definition cache_path : string := "chunk_summaries.json".

(** The read of [load_existing_chunk_summaries]; every exception inside
    the [try] is caught and ends in [return None]. *)
Definition load_from (files : gmap string fnode) (path : string)
    : option json :=
  match files !! path with
  | None => None
  | Some Unreadable => None
  | Some (File content) =>
      match loads content with
      | None => None
      | Some data =>
          match py_contains (codes "chunk_summaries") data with
          | Some true =>
              match py_getitem data (codes "chunk_summaries") with
              | Some v =>
                  match py_len v with
                  | Some _ => Some v
                  | None => None
                  end
              | None => None
              end
          | _ => None
          end
      end
  end.

Definition load_existing_chunk_summaries (path : string) : M (option json) :=
  files ← get_fs; ret (load_from files path).

Definition extract_text (e : env) (pdf_path : string) : M text :=
  log (EvPdf pdf_path);;
  match pdf_text e pdf_path with
  | Some t => ret t
  | None => raise
  end.

Record results := Results {
  r_summary : text;
  r_sections : json;
  r_rule_checks : json;
  r_chunk_summaries : json }.

Definition process_legislation (e : env) (pdf_path output_path : string)
    : M results :=
  raw_text ← extract_text e pdf_path;
  let cleaned_text := text_utils.clean_text raw_text in
  match text_utils.chunk_text cleaned_text text_utils.default_chunk_size with
  | None => raise
  | Some chunks =>
      cached ← load_existing_chunk_summaries cache_path;
      chunk_summaries ←
        (match cached with
        | None =>
            summaries ← summarizer.summarize_chunks e chunks;
            let v := JList (map JStr summaries) in
            json_exporter.export_chunk_summaries v cache_path;;
            ret v
        | Some v => ret v
        end);
      final_summary ← summarizer.combine_summaries e chunk_summaries;
      sections ← section_extractor.extract_sections e cleaned_text;
      rule_checks ← rule_checker.apply_rule_checks e cleaned_text;
      json_exporter.export_json final_summary sections rule_checks
        output_path;;
      ret (Results final_summary sections rule_checks chunk_summaries)
  end.

End agent.


Import PyStr Re text_utils Json World.


(* ===================================================================== *)
(** ** Chunking *)
(* ===================================================================== *)

Section chunking.
Local Open Scope Z_scope.

Lemma firstn_app_skipn {A} (a b : nat) (s : list A) :
  firstn a s ++ firstn b (skipn a s) = firstn (a + b) s.
Proof.
  revert s; induction a as [|a IH]; intros s; [reflexivity|].
  destruct s as [|x s]; simpl; [by rewrite firstn_nil|].
  by rewrite IH.
Qed.

(** The number of starts [range(0, len, size)] yields. *)
Definition n_chunks (len size : Z) : nat := Z.to_nat ((len + size - 1) / size).

Lemma py_range_chunks len size :
  0 < size ->
  py_range 0 len size
  = Some (map (fun k => Z.of_nat k * size) (seq 0 (n_chunks len size))).
Proof.
  intros Hs. unfold py_range, n_chunks.
  destruct (Z.eqb_spec size 0) as [->|_]; [lia|].
  destruct (Z.ltb_spec 0 size); [|lia].
  f_equal. rewrite Z.sub_0_r. apply map_ext. intros k. lia.
Qed.

(** A start below the count lies inside the text. *)
Lemma start_in_text len size (k : nat) :
  0 < size -> 0 <= len -> (k < n_chunks len size)%nat ->
  Z.of_nat k * size < len.
Proof.
  intros Hs Hl Hk. unfold n_chunks in Hk.
  assert (Hq : Z.of_nat k < (len + size - 1) / size) by lia.
  assert (Hd : size * ((len + size - 1) / size) <= len + size - 1)
    by (apply Z.mul_div_le; lia).
  nia.
Qed.

(** The count covers the text. *)
Lemma chunks_cover len size :
  0 < size -> 0 <= len -> len <= Z.of_nat (n_chunks len size) * size.
Proof.
  intros Hs Hl. unfold n_chunks.
  assert (0 <= (len + size - 1) / size) by (apply Z.div_pos; lia).
  rewrite Z2Nat.id by lia.
  pose proof (Z.mod_pos_bound (len + size - 1) size Hs).
  pose proof (Z.div_mod (len + size - 1) size). nia.
Qed.

(** A slice that starts inside the text at a multiple of the size. *)
Lemma chunk_slice (t : text) size (k : nat) :
  0 < size -> Z.of_nat k * size < Z.of_nat (length t) ->
  py_slice t (Z.of_nat k * size) (Z.of_nat k * size + size)
  = firstn (Z.to_nat (Z.min (Z.of_nat (length t)) (Z.of_nat k * size + size)
                      - Z.of_nat k * size))
      (skipn (Z.to_nat (Z.of_nat k * size)) t).
Proof.
  intros Hs Hk. unfold py_slice, slice_bound.
  destruct (Z.ltb_spec (Z.of_nat k * size) 0); [lia|].
  destruct (Z.ltb_spec (Z.of_nat k * size + size) 0); [lia|].
  repeat f_equal; lia.
Qed.

Lemma concat_chunks (t : text) size (c : nat) :
  0 < size -> (c <= n_chunks (Z.of_nat (length t)) size)%nat ->
  concat (map (fun i => py_slice t i (i + size))
            (map (fun k => Z.of_nat k * size) (seq 0 c)))
  = firstn (Z.to_nat (Z.min (Z.of_nat (length t)) (Z.of_nat c * size))) t.
Proof.
  intros Hs. induction c as [|c IH]; intros Hc.
  - simpl. by rewrite Z.min_r by lia.
  - rewrite seq_S, !map_app, concat_app, IH by lia. simpl.
    rewrite app_nil_r.
    assert (Hin : Z.of_nat c * size < Z.of_nat (length t))
      by (apply start_in_text; lia).
    rewrite chunk_slice by lia.
    rewrite (Z.min_r _ (Z.of_nat c * size)) by lia.
    rewrite firstn_app_skipn. f_equal. lia.
Qed.

Lemma chunk_length (t : text) size (k : nat) :
  0 < size -> (k < n_chunks (Z.of_nat (length t)) size)%nat ->
  Z.of_nat (length (py_slice t (Z.of_nat k * size) (Z.of_nat k * size + size)))
  = Z.min size (Z.of_nat (length t) - Z.of_nat k * size).
Proof.
  intros Hs Hk.
  assert (Hin : Z.of_nat k * size < Z.of_nat (length t))
    by (apply start_in_text; lia).
  rewrite chunk_slice by lia.
  rewrite length_firstn, length_skipn. lia.
Qed.

(** C1.  For every text and every chunk size greater than 0, [chunk_text]
    returns consecutive non-overlapping slices in order: their
    concatenation is the text, every chunk is at most [size] long, every
    chunk but the last is exactly [size] long, no chunk is empty, the empty
    text gives no chunk, and a text of 15000 characters cut at 6000 gives
    chunks of 6000, 6000 and 3000 characters. *)
Theorem chunk_text_partition (t : text) (size : Z) :
  0 < size ->
  exists chunks,
    chunk_text t size = Some chunks
    /\ concat chunks = t
    /\ Forall (fun c => Z.of_nat (length c) <= size) chunks
    /\ (forall i c, chunks !! i = Some c -> (S i < length chunks)%nat ->
          Z.of_nat (length c) = size)
    /\ Forall (fun c => c <> []) chunks
    /\ (t = [] -> chunks = [])
    /\ (Z.of_nat (length t) = 15000 -> size = 6000 ->
          map (fun c => Z.of_nat (length c)) chunks = [6000; 6000; 3000]).
Proof.
  intros Hs. set (len := Z.of_nat (length t)).
  assert (Hlen : 0 <= len) by (unfold len; lia).
  unfold chunk_text. fold len. rewrite py_range_chunks by done.
  eexists. split; [reflexivity|].
  set (n := n_chunks len size).
  assert (Hnth : forall i c,
    map (fun i => py_slice t i (i + size))
      (map (fun k => Z.of_nat k * size) (seq 0 n)) !! i = Some c ->
    (i < n)%nat
    /\ Z.of_nat (length c) = Z.min size (len - Z.of_nat i * size)).
  { intros i c Hi. rewrite !list_lookup_fmap in Hi.
    destruct (seq 0 n !! i) as [k|] eqn:Hk; [|done].
    apply lookup_seq in Hk as [-> Hlt]. simpl in Hi.
    injection Hi as <-. split; [done|]. by apply chunk_length. }
  repeat split.
  - rewrite concat_chunks by (fold len; done).
    fold len. rewrite Z.min_l by (apply chunks_cover; done).
    unfold len. rewrite Nat2Z.id. apply firstn_all.
  - apply Forall_lookup_2. intros i c Hi.
    destruct (Hnth i c Hi) as [_ ->]. lia.
  - intros i c Hi Hlast. destruct (Hnth i c Hi) as [_ ->].
    rewrite !length_map, length_seq in Hlast.
    pose proof (start_in_text len size (S i) Hs Hlen Hlast). lia.
  - apply Forall_lookup_2. intros i c Hi ->.
    destruct (Hnth i [] Hi) as [Hlt Hz]. simpl in Hz.
    pose proof (start_in_text len size i Hs Hlen Hlt). lia.
  - intros ->. subst n len. unfold n_chunks. simpl length.
    rewrite Z.div_small by lia. reflexivity.
  - intros H15 ->. subst n. rewrite H15.
    change (n_chunks 15000 6000) with 3%nat. simpl.
    assert (Hk : forall k : nat, (k < 3)%nat ->
      Z.of_nat (length (py_slice t (Z.of_nat k * 6000)
                          (Z.of_nat k * 6000 + 6000)))
      = Z.min 6000 (15000 - Z.of_nat k * 6000)).
    { intros k Hk. rewrite chunk_length; fold len; rewrite ?H15; done. }
    rewrite (Hk 0%nat), (Hk 1%nat), (Hk 2%nat) by lia. reflexivity.
Qed.

(** The theorem at the text "abcdefgh" and size 3. *)
Lemma chunk_text_partition_witness :
  exists chunks,
    chunk_text (codes "abcdefgh") 3 = Some chunks
    /\ concat chunks = codes "abcdefgh"
    /\ map (fun c => Z.of_nat (length c)) chunks = [3; 3; 2].
Proof.
  destruct (chunk_text_partition (codes "abcdefgh") 3 ltac:(lia))
    as (chunks & Hc & Hcat & _).
  exists chunks. split; [done|]. split; [done|].
  vm_compute in Hc. injection Hc as <-. reflexivity.
Defined.

End chunking.


(* ===================================================================== *)
(** ** Running a computation *)
(* ===================================================================== *)

(** The value or exception of a run, and the world it leaves. *)
Definition result_of {A} (m : M A) (w : world) : outcome A := fst (m w).
Definition world_after {A} (m : M A) (w : world) : world := snd (m w).

Lemma run_bind {A B} (m : M A) (f : A -> M B) w :
  (m ≫= f) w
  = match m w with
    | (Ok a, w') => f a w'
    | (Raised, w') => (Raised, w')
    end.
Proof. reflexivity. Qed.

Lemma run_call_model e prompt w :
  call_model e prompt w
  = (match generate_content e (trace w) prompt with
     | Some r => Ok r
     | None => Raised
     end,
     World (fs w)
       (trace w ++ [EvLLM prompt (generate_content e (trace w) prompt)])).
Proof. unfold call_model. by destruct generate_content. Qed.

(* ===================================================================== *)
(** ** Fallbacks of the response parsers *)
(* ===================================================================== *)

Section fallbacks.
Import rule_checker.

(** An interpreter with the default settings: a recursion limit of 1000
    (so at most 1000 levels are left) and integers of 4300 digits. *)
Definition default_limits : limits := Limits 1000 4300.

Lemma run_of_outcome {A} (o : outcome A) w : of_outcome o w = (o, w).
Proof. reflexivity. Qed.

(** The text [apply_rule_checks] hands to [json.loads]. *)
Definition rule_response_text (response : text) : text :=
  section_extractor.unwrap_fence rule_checker.fence_re response.





(** The text [extract_sections] hands to [json.loads]. *)
Definition sections_response_text (response : text) : text :=
  section_extractor.unwrap_fence section_extractor.fence_re response.

(** The seven section names. *)
Definition section_keys : list text :=
  [codes "definitions"; codes "obligations"; codes "responsibilities";
   codes "eligibility"; codes "payments"; codes "penalties";
   codes "record_keeping"].

(** A run of [extract_sections] whose model call returns. *)
Lemma extract_sections_run e t w response :
  generate_content e (trace w) (section_extractor.sections_prompt t)
  = Some response ->
  result_of (section_extractor.extract_sections e t) w
  = section_extractor.sections_of_response (interpreter e) response.
Proof.
  intros Hresp. unfold result_of, section_extractor.extract_sections.
  by rewrite run_bind, run_call_model, Hresp.
Qed.




(** A response that is exactly the format block of the prompt. *)
Definition format_response : text := unlines section_extractor.requested_format.

(** C10.  When the response text parses as JSON ([json.loads] returns a
    value), [extract_sections] returns the parsed value as it is; for the
    response that is exactly the format the prompt asks for, in an
    interpreter that has a level of recursion left for the object, the
    returned mapping has the key "record_keepin" and not the key
    "record_keeping". *)
Theorem extract_sections_unvalidated (e : env) (t : text) (w : world)
    (response : text) :
  generate_content e (trace w) (section_extractor.sections_prompt t)
  = Some response ->
  (forall v,
     json_loads (interpreter e) (sections_response_text response) = Done v ->
     result_of (section_extractor.extract_sections e t) w = Ok v)
  /\ (response = format_response ->
      recursion_left (interpreter e) <> 0 ->
      exists d,
        result_of (section_extractor.extract_sections e t) w = Ok (JDict d)
        /\ (codes "record_keepin" ∈ dict_keys d)
        /\ (codes "record_keeping" ∉ dict_keys d)
        /\ dict_keys d <> section_keys).
Proof.
  intros Hresp. rewrite (extract_sections_run _ _ _ _ Hresp).
  split.
  - intros v Hv. unfold section_extractor.sections_of_response.
    fold (sections_response_text response). by rewrite Hv.
  - intros -> Hroom.
    assert (Hval : forall room digits, exists d,
      section_extractor.sections_of_response (Limits (S room) digits)
        format_response = Ok (JDict d)
      /\ dict_keys d
         = [codes "definitions"; codes "obligations";
            codes "responsibilities"; codes "eligibility"; codes "payments";
            codes "penalties"; codes "record_keepin"]).
    { intros room digits. eexists. split; vm_compute; reflexivity. }
    destruct (interpreter e) as [[|room] digits]; [done|].
    destruct (Hval room digits) as (d & -> & Hkeys). exists d.
    split; [reflexivity|]. rewrite Hkeys.
    split; [|split].
    + apply (bool_decide_unpack _). vm_compute. reflexivity.
    + apply (bool_decide_unpack _). vm_compute. reflexivity.
    + discriminate.
Qed.

(** The theorem at a model that answers with the requested format. *)
Lemma extract_sections_unvalidated_witness :
  exists d,
    result_of
      (section_extractor.extract_sections
         (Env (fun _ => None) (fun _ _ => Some format_response)
            default_limits)
         (codes "An Act"))
      (World ∅ []) = Ok (JDict d)
    /\ (codes "record_keepin" ∈ dict_keys d)
    /\ (codes "record_keeping" ∉ dict_keys d).
Proof.
  destruct (extract_sections_unvalidated
              (Env (fun _ => None) (fun _ _ => Some format_response)
                 default_limits)
              (codes "An Act") (World ∅ []) format_response eq_refl)
    as [_ Hfmt].
  destruct (Hfmt eq_refl) as (d & Hr & Hin & Hout & _).
  - discriminate.
  - exists d. repeat split; assumption.
Defined.

End fallbacks.


(* ===================================================================== *)
(** ** The chunk-summary cache: loading *)
(* ===================================================================== *)

Section cache_load.
Import agent.

Definition cache_key : text := codes "chunk_summaries".

Lemma text_eqb_eq (a b : text) : text_eqb a b = true <-> a = b.
Proof. unfold text_eqb. apply bool_decide_eq_true. Qed.

Lemma text_eqb_refl (a : text) : text_eqb a a = true.
Proof. by apply text_eqb_eq. Qed.

Lemma text_eqb_neq (a b : text) : text_eqb a b = false <-> a <> b.
Proof. unfold text_eqb. apply bool_decide_eq_false. Qed.

Lemma dict_get_Some_key d k v : dict_get d k = Some v -> k ∈ dict_keys d.
Proof.
  induction d as [|[k' v'] d IH]; simpl; [done|].
  destruct (text_eqb k' k) eqn:E.
  - apply text_eqb_eq in E as ->. intros _. apply list_elem_of_here.
  - intros H. apply list_elem_of_further. by apply IH.
Qed.

Lemma dict_get_None_key d k : dict_get d k = None <-> k ∉ dict_keys d.
Proof.
  induction d as [|[k' v'] d IH]; simpl.
  - split; [intros _; apply not_elem_of_nil | done].
  - destruct (text_eqb k' k) eqn:E.
    + apply text_eqb_eq in E as ->. split; [done|].
      intros H. exfalso. apply H, list_elem_of_here.
    + apply text_eqb_neq in E. rewrite IH, not_elem_of_cons.
      split; [intros H; split; [congruence | done] | by intros [_ H]].
Qed.

(** What [load_from] returns for a file that parses to a dict holding the
    key. *)
Lemma load_from_dict files path content d v :
  files !! path = Some (File content) ->
  loads content = Some (JDict d) ->
  dict_get d cache_key = Some v ->
  load_from files path = match py_len v with Some _ => Some v | None => None end.
Proof.
  intros Hf Hl Hg. unfold load_from. rewrite Hf, Hl. simpl.
  rewrite bool_decide_eq_true_2 by (by eapply dict_get_Some_key).
  fold cache_key. by rewrite Hg.
Qed.

(** A successful load comes from a readable file that parses to a dict
    holding the key. *)
Lemma load_from_Some files path v :
  load_from files path = Some v ->
  exists content d,
    files !! path = Some (File content)
    /\ loads content = Some (JDict d)
    /\ dict_get d cache_key = Some v.
Proof.
  unfold load_from. fold cache_key.
  destruct (files !! path) as [[content|]|] eqn:Hf; [|done..].
  destruct (loads content) as [data|] eqn:Hl; [|done].
  destruct (py_contains cache_key data) as [[|]|] eqn:Hc; [|done..].
  destruct (py_getitem data cache_key) as [v'|] eqn:Hg; [|done].
  destruct (py_len v'); [|done]. intros [= ->].
  destruct data; try done. simpl in Hg. eauto.
Qed.

(** C6.  Loading the cache returns the stored list exactly when the file
    exists and parses as an object whose field chunk_summaries holds that
    list.  It returns absent when the path does not exist, when the file
    cannot be read, when its content is not valid JSON (plain text, for
    one) and when the parsed JSON lacks the field.  It never raises and
    leaves the world as it is. *)
Theorem load_existing_chunk_summaries_spec (w : world) (path : string) :
  (forall l,
     load_from (fs w) path = Some (JList l)
     <-> exists content d,
           fs w !! path = Some (File content)
           /\ loads content = Some (JDict d)
           /\ dict_get d cache_key = Some (JList l))
  /\ (fs w !! path = None -> load_from (fs w) path = None)
  /\ (fs w !! path = Some Unreadable -> load_from (fs w) path = None)
  /\ (forall content,
        fs w !! path = Some (File content) -> loads content = None ->
        load_from (fs w) path = None)
  /\ (forall content v,
        fs w !! path = Some (File content) -> loads content = Some v ->
        (forall d, v = JDict d -> cache_key ∉ dict_keys d) ->
        load_from (fs w) path = None)
  /\ loads (codes "plain text") = None
  /\ load_existing_chunk_summaries path w = (Ok (load_from (fs w) path), w).
Proof.
  repeat split.
  - apply load_from_Some.
  - intros (content & d & Hf & Hl & Hg).
    by rewrite (load_from_dict _ _ _ _ _ Hf Hl Hg).
  - intros Hf. unfold load_from. by rewrite Hf.
  - intros Hf. unfold load_from. by rewrite Hf.
  - intros content Hf Hl. unfold load_from. by rewrite Hf, Hl.
  - intros content v Hf Hl Hlack.
    destruct (load_from (fs w) path) as [x|] eqn:Hload; [|done].
    apply load_from_Some in Hload as (content' & d & Hf' & Hl' & Hg).
    rewrite Hf in Hf'. injection Hf' as <-. rewrite Hl in Hl'.
    injection Hl' as ->. apply dict_get_Some_key in Hg.
    by destruct (Hlack d eq_refl).
Qed.

End cache_load.


(* ===================================================================== *)
(** ** The pipeline *)
(* ===================================================================== *)

Section pipeline.
Import agent summarizer.

(** The events of a run that call the model on one chunk. *)
Definition is_summarize_call (ev : event) : Prop :=
  exists chunk r, ev = EvLLM (summarize_prompt chunk) r.

(** The document [export_json] writes. *)
Definition result_document (summary : text) (sections rule_checks : json)
    : text :=
  dumps (JDict [(codes "summary", JStr summary);
                (codes "sections", sections);
                (codes "rule_checks", rule_checks)]).

(** The events of a run that write the final result to [path]. *)
Definition is_result_export (path : string) (ev : event) : Prop :=
  exists summary sections rule_checks,
    ev = EvWrite path (result_document summary sections rule_checks).

(** What the steps after chunk summarisation do, given the summaries. *)
Definition after_summaries (e : env) (cleaned_text : text)
    (output_path : string) (chunk_summaries : json) : M results :=
  final_summary ← combine_summaries e chunk_summaries;
  sections ← section_extractor.extract_sections e cleaned_text;
  rule_checks ← rule_checker.apply_rule_checks e cleaned_text;
  json_exporter.export_json final_summary sections rule_checks output_path;;
  ret (Results final_summary sections rule_checks chunk_summaries).

Lemma prompt_head_combine x :
  firstn 10 (combine_prompt x) = codes (String "010" "        U").
Proof. reflexivity. Qed.

Lemma prompt_head_summarize x :
  firstn 10 (summarize_prompt x) = codes (String "010" "        S").
Proof. reflexivity. Qed.

Lemma prompt_head_sections x :
  firstn 10 (section_extractor.sections_prompt x)
  = codes (String "010" "        E").
Proof. reflexivity. Qed.

Lemma prompt_head_rules x :
  firstn 10 (rule_checker.rules_prompt x) = codes (String "010" "        A").
Proof. reflexivity. Qed.

Lemma not_summarize_combine x r : ~ is_summarize_call (EvLLM (combine_prompt x) r).
Proof.
  intros (c & r' & H). assert (Hp := f_equal (fun ev =>
    match ev with EvLLM p _ => firstn 10 p | _ => [] end) H).
  cbv beta iota in Hp.
  by rewrite prompt_head_combine, prompt_head_summarize in Hp.
Qed.

Lemma not_summarize_sections x r :
  ~ is_summarize_call (EvLLM (section_extractor.sections_prompt x) r).
Proof.
  intros (c & r' & H). assert (Hp := f_equal (fun ev =>
    match ev with EvLLM p _ => firstn 10 p | _ => [] end) H).
  cbv beta iota in Hp.
  by rewrite prompt_head_sections, prompt_head_summarize in Hp.
Qed.

Lemma not_summarize_rules x r :
  ~ is_summarize_call (EvLLM (rule_checker.rules_prompt x) r).
Proof.
  intros (c & r' & H). assert (Hp := f_equal (fun ev =>
    match ev with EvLLM p _ => firstn 10 p | _ => [] end) H).
  cbv beta iota in Hp.
  by rewrite prompt_head_rules, prompt_head_summarize in Hp.
Qed.

Lemma not_summarize_write p c : ~ is_summarize_call (EvWrite p c).
Proof. by intros (? & ? & ?). Qed.

Lemma run_write_file path content w :
  write_file path content w
  = match fs w !! path with
    | Some Unreadable => (Raised, w)
    | _ => (Ok tt, World (<[path := File content]> (fs w))
                     (trace w ++ [EvWrite path content]))
    end.
Proof. reflexivity. Qed.

(** The default chunk size never makes [chunk_text] raise. *)
Lemma chunk_text_default t : is_Some (chunk_text t default_chunk_size).
Proof.
  destruct (chunk_text_partition t default_chunk_size) as (c & -> & _);
    [done | by eexists].
Qed.

(** The run up to the cache check. *)
Lemma process_legislation_run e pdf_path output_path w raw chunks :
  pdf_text e pdf_path = Some raw ->
  chunk_text (clean_text raw) default_chunk_size = Some chunks ->
  process_legislation e pdf_path output_path w
  = let w1 := World (fs w) (trace w ++ [EvPdf pdf_path]) in
    match load_from (fs w) cache_path with
    | Some v => after_summaries e (clean_text raw) output_path v w1
    | None =>
        (summaries ← summarize_chunks e chunks;
         json_exporter.export_chunk_summaries
           (JList (map JStr summaries)) cache_path;;
         after_summaries e (clean_text raw) output_path
           (JList (map JStr summaries))) w1
    end.
Proof.
  intros Hpdf Hchunks. unfold process_legislation.
  rewrite run_bind. unfold extract_text at 1. rewrite run_bind.
  unfold log at 1. rewrite Hpdf. unfold ret at 1.
  generalize dependent (clean_text raw). intros cleaned Hchunks.
  rewrite Hchunks. rewrite run_bind.
  unfold load_existing_chunk_summaries at 1. rewrite run_bind.
  unfold get_fs at 1, ret at 1. cbn [fs trace].
  destruct (load_from (fs w) cache_path) as [v|].
  - rewrite run_bind. reflexivity.
  - rewrite !run_bind.
    destruct (summarize_chunks e chunks _) as [[summaries|] w2];
      [|reflexivity].
    rewrite !run_bind.
    by destruct (json_exporter.export_chunk_summaries _ _ w2) as [[[]|] w3].
Qed.

#[local] Opaque combine_prompt summarize_prompt
  section_extractor.sections_prompt rule_checker.rules_prompt
  section_extractor.sections_of_response
  rule_checker.rule_checks_of_response dumps clean_text codes.

(** Closes a goal saying that no listed event is a write. *)
Ltac no_write :=
  repeat (apply Forall_cons; split; [by intros ?? ?|]); constructor.

(** One call of each response parser: one model call in the trace, no
    file touched. *)
Lemma run_extract_sections e t w :
  section_extractor.extract_sections e t w
  = (match generate_content e (trace w) (section_extractor.sections_prompt t)
     with
     | Some r => section_extractor.sections_of_response (interpreter e) r
     | None => Raised
     end,
     World (fs w)
       (trace w ++ [EvLLM (section_extractor.sections_prompt t)
                      (generate_content e (trace w)
                         (section_extractor.sections_prompt t))])).
Proof.
  unfold section_extractor.extract_sections.
  rewrite run_bind, run_call_model. by destruct generate_content.
Qed.

Lemma run_apply_rule_checks e t w :
  rule_checker.apply_rule_checks e t w
  = (match generate_content e (trace w) (rule_checker.rules_prompt t) with
     | Some r => rule_checker.rule_checks_of_response (interpreter e) r
     | None => Raised
     end,
     World (fs w)
       (trace w ++ [EvLLM (rule_checker.rules_prompt t)
                      (generate_content e (trace w)
                         (rule_checker.rules_prompt t))])).
Proof.
  unfold rule_checker.apply_rule_checks.
  rewrite run_bind, run_call_model. by destruct generate_content.
Qed.

(** What the steps after summarisation do with the summaries [v] they are
    given: the first event is the model call on the combination prompt
    built from [v], its answer is the summary of the result, no later
    event is a call on a chunk, and the only write is the final export. *)
Lemma after_summaries_events e cleaned output_path v joined w :
  py_join [newline; newline] v = Some joined ->
  exists r evs,
    trace (world_after (after_summaries e cleaned output_path v) w)
    = trace w ++ EvLLM (combine_prompt joined) r :: evs
    /\ Forall (fun ev => ~ is_summarize_call ev) evs
    /\ Forall (fun ev => forall p c, ev = EvWrite p c ->
                 is_result_export output_path ev) evs
    /\ (forall p, p <> output_path ->
          fs (world_after (after_summaries e cleaned output_path v) w) !! p
          = fs w !! p)
    /\ (forall res,
          result_of (after_summaries e cleaned output_path v) w = Ok res ->
          r_chunk_summaries res = v /\ r = Some (r_summary res)).
Proof.
  intros Hjoin.
  unfold world_after, result_of, after_summaries.
  rewrite run_bind. unfold combine_summaries. rewrite Hjoin.
  rewrite run_call_model.
  set (p1 := combine_prompt _).
  exists (generate_content e (trace w) p1).
  destruct (generate_content e (trace w) p1) as [r1|].
  2:{ exists []. cbn.
      split; [done|]. split; [constructor|]. split; [constructor|].
      split; done. }
  rewrite run_bind, run_extract_sections. cbn [fs trace].
  set (p2 := section_extractor.sections_prompt _).
  set (ev2 := EvLLM p2 _).
  assert (Hn2 : ~ is_summarize_call ev2) by apply not_summarize_sections.
  assert (Hw2 : forall p c, ev2 = EvWrite p c ->
                  is_result_export output_path ev2) by done.
  destruct (match generate_content e _ p2 with
            | Some r => _ | None => _ end) as [x|].
  2:{ exists [ev2]. cbn. rewrite <- app_assoc. split; [done|].
      split; [by repeat constructor|]. split; [by repeat constructor|].
      split; done. }
  rewrite run_bind, run_apply_rule_checks. cbn [fs trace].
  set (p3 := rule_checker.rules_prompt _).
  set (ev3 := EvLLM p3 _).
  assert (Hn3 : ~ is_summarize_call ev3) by apply not_summarize_rules.
  assert (Hw3 : forall p c, ev3 = EvWrite p c ->
                  is_result_export output_path ev3) by done.
  destruct (match generate_content e _ p3 with
            | Some r => _ | None => _ end) as [y|].
  2:{ exists [ev2; ev3]. cbn. rewrite <- !app_assoc. split; [done|].
      split; [by repeat constructor|]. split; [by repeat constructor|].
      split; done. }
  rewrite run_bind.
  unfold json_exporter.export_json. rewrite run_write_file. cbn [fs trace].
  fold (result_document r1 x y).
  set (doc := result_document _ _ _).
  destruct (fs w !! output_path) as [[c|]|] eqn:Hout.
  2:{ exists [ev2; ev3]. cbn. rewrite <- !app_assoc. split; [done|].
      split; [by repeat constructor|]. split; [by repeat constructor|].
      split; done. }
  all: exists [ev2; ev3; EvWrite output_path doc];
       cbn; rewrite <- !app_assoc; (split; [done|]);
       (split; [|split; [|split]]).
  all: try (by repeat (constructor; [done || apply not_summarize_write|])).
  all: try (apply Forall_cons; split; [done|];
            apply Forall_cons; split; [done|];
            apply Forall_cons; split; [|constructor];
            intros ?? _; subst doc; do 3 eexists; reflexivity).
  all: try (intros p Hp; by rewrite lookup_insert_ne).
  all: by intros res [= <-].
Qed.

Lemma py_join_strings sep l :
  py_join sep (JList (map JStr l)) = Some (join_with sep l).
Proof.
  unfold py_join. replace (all_strings (map JStr l)) with (Some l); [done|].
  induction l as [|x l IH]; simpl; [done|]. by rewrite <- IH.
Qed.

(** The same for a list of summaries. *)
Lemma after_summaries_trace e cleaned output_path l w :
  exists r evs,
    trace (world_after (after_summaries e cleaned output_path
                          (JList (map JStr l))) w)
    = trace w
        ++ EvLLM (combine_prompt (join_with [newline; newline] l)) r :: evs
    /\ Forall (fun ev => ~ is_summarize_call ev) evs
    /\ Forall (fun ev => forall p c, ev = EvWrite p c ->
                 is_result_export output_path ev) evs
    /\ (forall p, p <> output_path ->
          fs (world_after (after_summaries e cleaned output_path
                             (JList (map JStr l))) w) !! p = fs w !! p)
    /\ (forall res,
          result_of (after_summaries e cleaned output_path
                       (JList (map JStr l))) w = Ok res ->
          r_chunk_summaries res = JList (map JStr l)).
Proof.
  destruct (after_summaries_events e cleaned output_path _ _ w
              (py_join_strings [newline; newline] l))
    as (r & evs & Htr & Hns & Hwr & Hfs & Hres).
  exists r, evs. repeat split; try done. intros res Hr. by apply Hres.
Qed.

(** C5.  When the cache file exists at the start and holds an object
    whose field chunk_summaries is ["a","b"], the events of the run are:
    the PDF read, then the model call that combines exactly "a" and "b",
    then the rest.  No event is a model call on a chunk, and the only
    write is the export of the final result to [output_path]: the cache
    export does not take place, and the cache file keeps its content
    (unless the caller names it as the output path).  The result carries
    ["a","b"] as its chunk summaries. *)
Theorem process_legislation_cache_hit (e : env) (pdf_path output_path : string)
    (w : world) (content : text) (d : list (text * json)) (raw : text) :
  fs w !! cache_path = Some (File content) ->
  loads content = Some (JDict d) ->
  dict_get d cache_key = Some (JList [JStr (codes "a"); JStr (codes "b")]) ->
  pdf_text e pdf_path = Some raw ->
  exists r evs,
    trace (world_after (process_legislation e pdf_path output_path) w)
    = trace w
        ++ EvPdf pdf_path
        :: EvLLM (combine_prompt (codes "a" ++ [newline; newline] ++ codes "b"))
             r
        :: evs
    /\ Forall (fun ev => ~ is_summarize_call ev) evs
    /\ Forall (fun ev => forall p c, ev = EvWrite p c ->
                 is_result_export output_path ev) evs
    /\ (output_path <> cache_path ->
          fs (world_after (process_legislation e pdf_path output_path) w)
            !! cache_path = Some (File content))
    /\ (forall res,
          result_of (process_legislation e pdf_path output_path) w = Ok res ->
          r_chunk_summaries res
          = JList [JStr (codes "a"); JStr (codes "b")]).
Proof.
  intros Hfile Hloads Hget Hpdf.
  destruct (chunk_text_default (clean_text raw)) as [chunks Hchunks].
  assert (Hload : load_from (fs w) cache_path
                  = Some (JList [JStr (codes "a"); JStr (codes "b")])).
  { by rewrite (load_from_dict _ _ _ _ _ Hfile Hloads Hget). }
  unfold world_after, result_of.
  rewrite (process_legislation_run _ _ _ _ _ _ Hpdf Hchunks).
  cbv zeta. rewrite Hload.
  set (w1 := World (fs w) (trace w ++ [EvPdf pdf_path])).
  destruct (after_summaries_trace e (clean_text raw) output_path
              [codes "a"; codes "b"] w1)
    as (r & evs & Htr & Hns & Hwr & Hfs & Hres).
  exists r, evs. unfold world_after, result_of in *.
  change (map JStr [codes "a"; codes "b"])
    with [JStr (codes "a"); JStr (codes "b")] in *.
  split; [|split; [done|split; [done|split]]].
  - rewrite Htr. subst w1. cbn [trace]. by rewrite <- app_assoc.
  - intros Hne. rewrite Hfs by done. done.
  - done.
Qed.

(** A document of one chunk, a model that always answers "ok", and a cache
    left by an earlier run with the summaries "a" and "b". *)
Definition short_act_env : env :=
  Env (fun _ => Some (codes "Short Act")) (fun _ _ => Some (codes "ok"))
    default_limits.

Definition cached_ab : text :=
  dumps (JDict [(cache_key, JList [JStr (codes "a"); JStr (codes "b")])]).

Definition cached_ab_world : world :=
  World {[ cache_path := File cached_ab ]} [].

(** The theorem at that run. *)
Lemma process_legislation_cache_hit_witness :
  exists r evs,
    trace (world_after
             (process_legislation short_act_env "act.pdf" "out.json")
             cached_ab_world)
    = EvPdf "act.pdf"
      :: EvLLM (combine_prompt (codes "a" ++ [newline; newline] ++ codes "b")) r
      :: evs
    /\ Forall (fun ev => ~ is_summarize_call ev) evs.
Proof.
  destruct (process_legislation_cache_hit short_act_env "act.pdf" "out.json"
              cached_ab_world cached_ab
              [(cache_key, JList [JStr (codes "a"); JStr (codes "b")])]
              (codes "Short Act"))
    as (r & evs & Htr & Hns & _).
  - reflexivity.
  - vm_compute. reflexivity.
  - reflexivity.
  - reflexivity.
  - exists r, evs. split; assumption.
Defined.

(** The model calls of [summarize_chunks]: one per chunk, in order. *)
Definition summarize_events (chunks summaries : list text) : list event :=
  zip_with (fun c s => EvLLM (summarize_prompt c) (Some s)) chunks summaries.

Lemma summarize_chunks_run e chunks w summaries w' :
  summarize_chunks e chunks w = (Ok summaries, w') ->
  length summaries = length chunks
  /\ fs w' = fs w
  /\ trace w' = trace w ++ summarize_events chunks summaries.
Proof.
  revert w summaries w'. induction chunks as [|c chunks IH];
    intros w summaries w'.
  - intros [= <- <-]. by rewrite app_nil_r.
  - cbn [summarize_chunks]. rewrite run_bind.
    unfold summarize_chunk. rewrite run_call_model.
    destruct (generate_content e (trace w) (summarize_prompt c)) as [s|];
      [|done].
    rewrite run_bind.
    destruct (summarize_chunks e chunks _) as [[ss|] w2] eqn:Hrest; [|done].
    intros [= <- <-].
    destruct (IH _ _ _ Hrest) as (Hlen & Hfs & Htr).
    cbn [length]. split; [by rewrite Hlen|]. split; [done|].
    rewrite Htr. cbn [trace summarize_events zip_with].
    by rewrite <- app_assoc.
Qed.

(** C9 as stated fails: with a cache left by an earlier run, a document
    of one chunk is given the two cached summaries. *)
Lemma stale_cache_counterexample :
  exists res chunks,
    result_of (process_legislation short_act_env "act.pdf" "out.json")
      cached_ab_world = Ok res
    /\ chunk_text (clean_text (codes "Short Act")) default_chunk_size
       = Some chunks
    /\ length chunks = 1
    /\ r_chunk_summaries res = JList [JStr (codes "a"); JStr (codes "b")].
Proof.
  eexists _, _. split; [vm_compute; reflexivity|].
  split; [vm_compute; reflexivity|]. split; reflexivity.
Qed.

(** C9, amended.  In a run that finds no usable cache and returns, the
    chunk summaries fed to the combination and returned in the result are
    one per chunk of the current document, in order: the summary at
    position [i] is the model's answer to the prompt built from the chunk
    at position [i].  In a run that finds a cache, the cached value is
    used and returned as it is, whatever its length: no chunk is sent to
    the model, the combination prompt is built from the cached value,
    the answer to it is the summary of the result, and the result
    carries the cached value as its chunk summaries. *)
Theorem process_legislation_chunk_summaries (e : env)
    (pdf_path output_path : string) (w : world) (raw : text) (res : results) :
  pdf_text e pdf_path = Some raw ->
  result_of (process_legislation e pdf_path output_path) w = Ok res ->
  match load_from (fs w) cache_path with
  | Some cached =>
      r_chunk_summaries res = cached
      /\ exists joined evs,
           py_join [newline; newline] cached = Some joined
           /\ trace (world_after (process_legislation e pdf_path output_path)
                       w)
              = trace w
                  ++ EvPdf pdf_path
                  :: EvLLM (combine_prompt joined) (Some (r_summary res))
                  :: evs
           /\ Forall (fun ev => ~ is_summarize_call ev) evs
  | None =>
      exists chunks summaries r evs,
        chunk_text (clean_text raw) default_chunk_size = Some chunks
        /\ r_chunk_summaries res = JList (map JStr summaries)
        /\ length summaries = length chunks
        /\ trace (world_after (process_legislation e pdf_path output_path) w)
           = trace w
               ++ EvPdf pdf_path
               :: summarize_events chunks summaries
               ++ EvWrite cache_path
                    (dumps (JDict [(cache_key, JList (map JStr summaries))]))
               :: EvLLM (combine_prompt
                           (join_with [newline; newline] summaries)) r
               :: evs
  end.
Proof.
  intros Hpdf Hres.
  destruct (chunk_text_default (clean_text raw)) as [chunks Hchunks].
  unfold result_of, world_after in *.
  rewrite (process_legislation_run _ _ _ _ _ _ Hpdf Hchunks) in *.
  cbv zeta in *.
  set (w1 := World (fs w) (trace w ++ [EvPdf pdf_path])) in *.
  destruct (load_from (fs w) cache_path) as [cached|].
  - destruct (py_join [newline; newline] cached) as [joined|] eqn:Hjoin.
    2:{ unfold after_summaries, combine_summaries in Hres.
        rewrite run_bind, Hjoin in Hres. done. }
    destruct (after_summaries_events e (clean_text raw) output_path cached
                joined w1 Hjoin)
      as (r & evs & Htr & Hns & _ & _ & Hcs).
    unfold world_after, result_of in *.
    destruct (Hcs res Hres) as [Hc ->]. split; [done|].
    exists joined, evs. split; [done|]. split; [|done].
    rewrite Htr. subst w1. cbn [trace]. by rewrite <- app_assoc.
  - rewrite run_bind in Hres |- *.
    destruct (summarize_chunks e chunks w1) as [[summaries|] w2] eqn:Hsum;
      [|done].
    destruct (summarize_chunks_run _ _ _ _ _ Hsum) as (Hlen & Hfs & Htr).
    rewrite run_bind in Hres |- *.
    unfold json_exporter.export_chunk_summaries in *.
    rewrite run_write_file in Hres |- *.
    destruct (fs w2 !! cache_path) as [[c|]|]; [|done|].
    all: match type of Hres with
         | fst (after_summaries _ _ _ _ ?w3) = _ => set (w3' := w3) in *
         end;
      destruct (after_summaries_trace e (clean_text raw) output_path
                  summaries w3')
        as (r & evs & Htr' & _ & _ & _ & Hcs);
      unfold world_after, result_of in *;
      exists chunks, summaries, r, evs;
      (split; [done|]); (split; [by apply Hcs|]); (split; [done|]);
      rewrite Htr'; subst w3'; cbn [trace]; rewrite Htr; subst w1;
      cbn [trace]; fold cache_key; by rewrite <- !app_assoc.
Qed.

(** The amended theorem at a run with no cache. *)
Lemma process_legislation_chunk_summaries_witness :
  exists chunks summaries,
    chunk_text (clean_text (codes "Short Act")) default_chunk_size
    = Some chunks
    /\ length summaries = length chunks
    /\ summaries = [codes "ok"].
Proof.
  pose proof (process_legislation_chunk_summaries short_act_env
                "act.pdf" "out.json" (World ∅ []) (codes "Short Act")
                (Results (codes "ok") (section_extractor.empty_sections)
                   (rule_checker._create_default_rule_checks)
                   (JList [JStr (codes "ok")]))
                eq_refl) as H.
  change (load_from (fs (World ∅ [])) cache_path) with (@None json) in H.
  destruct H as (chunks & summaries & r & evs & Hc & Hs & Hlen & _).
  - vm_compute. reflexivity.
  - exists chunks, summaries. split; [done|]. split; [done|].
    cbn [r_chunk_summaries] in Hs. injection Hs as Hs.
    symmetry. revert Hs. clear. revert summaries.
    intros [|s [|??]] [=]. by subst.
Defined.

End pipeline.


(* ===================================================================== *)
(** ** The chunk-summary cache: saving and loading again *)
(* ===================================================================== *)

Section round_trip.
Local Open Scope N_scope.

(** A string the cache gives back as it was: code points up to U+10FFFF,
    and no high surrogate immediately followed by a low surrogate (the
    decoder reads such a pair of escapes as one character). *)
Fixpoint no_surrogate_pair (s : text) : bool :=
  match s with
  | a :: s' =>
      match s' with
      | b :: _ => negb (is_high_surrogate a && is_low_surrogate b)
      | [] => true
      end && no_surrogate_pair s'
  | [] => true
  end.

Definition well_formed (s : text) : bool :=
  forallb (fun c => c <=? 1114111) s && no_surrogate_pair s.

(** Linear arithmetic with division and remainder by constants. *)
Ltac div_lia := zify; Z.to_euclidean_division_equations; lia.

(** A property checked on every number below a bound holds below it. *)
Lemma forall_below (P : N -> bool) (b : nat) :
  forallb P (map N.of_nat (seq 0 b)) = true ->
  forall n, n < N.of_nat b -> P n = true.
Proof.
  intros H n Hn. rewrite forallb_forall in H. apply H.
  apply in_map_iff. exists (N.to_nat n). split; [lia|].
  apply in_seq. lia.
Qed.

Lemma hex_value_digit x : x < 16 -> hex_value (hex_digit x) = Some x.
Proof.
  intros Hx.
  pose (P := fun x => match hex_value (hex_digit x) with
                      | Some y => y =? x
                      | None => false
                      end).
  assert (H : P x = true).
  { apply (forall_below P 16); [by vm_compute | done]. }
  unfold P in H. destruct (hex_value (hex_digit x)); [|done].
  by apply N.eqb_eq in H as ->.
Qed.

(** Reading back the four digits of an escape. *)
Lemma hex4_u_escape n rest :
  n < 65536 ->
  exists a b c d,
    u_escape n = [92; 117; a; b; c; d]
    /\ hex4 (a :: b :: c :: d :: rest) = Some (n, rest).
Proof.
  intros Hn. unfold u_escape. eexists _, _, _, _. split; [reflexivity|].
  unfold hex4.
  rewrite !hex_value_digit by (apply N.mod_upper_bound; lia).
  do 2 f_equal. div_lia.
Qed.

Lemma lor_surrogate_base x :
  x < 1024 -> N.lor 55296 x = 55296 + x /\ N.lor 56320 x = 56320 + x.
Proof.
  intros Hx.
  assert (H : (fun x => (N.lor 55296 x =? 55296 + x)
                        && (N.lor 56320 x =? 56320 + x)) x = true).
  { apply (forall_below
             (fun x => (N.lor 55296 x =? 55296 + x)
                       && (N.lor 56320 x =? 56320 + x)) 1024);
      [by vm_compute | done]. }
  apply andb_true_iff in H as [H1 H2].
  by apply N.eqb_eq in H1, H2.
Qed.

(** The two halves of the escape of a character beyond U+FFFF. *)
Lemma surrogates_of c :
  65536 <= c -> c <= 1114111 ->
  let n := c - 65536 in
  let hi := N.lor 55296 (N.land (N.shiftr n 10) 1023) in
  let lo := N.lor 56320 (N.land n 1023) in
  hi < 65536 /\ lo < 65536
  /\ is_high_surrogate hi = true /\ is_low_surrogate lo = true
  /\ is_low_surrogate hi = false
  /\ join_surrogates hi lo = c.
Proof.
  intros Hlo Hhi n hi lo. subst hi lo.
  change 1023 with (N.ones 10). rewrite !N.land_ones.
  rewrite N.shiftr_div_pow2. change (2 ^ 10) with 1024.
  assert (Hn : n < 1048576) by (subst n; lia).
  assert (H1 : (n / 1024) mod 1024 < 1024) by (apply N.mod_upper_bound; lia).
  assert (H2 : n mod 1024 < 1024) by (apply N.mod_upper_bound; lia).
  destruct (lor_surrogate_base _ H1) as [-> _].
  destruct (lor_surrogate_base _ H2) as [_ ->].
  unfold is_high_surrogate, is_low_surrogate, join_surrogates.
  change 1023 with (N.ones 10). rewrite !N.land_ones.
  rewrite N.shiftl_mul_pow2. change (2 ^ 10) with 1024.
  assert (Hc : c = 65536 + n) by (subst n; lia).
  clearbody n. subst c.
  rewrite !andb_true_iff, !andb_false_iff, !N.leb_le, !N.leb_gt.
  repeat split; div_lia.
Qed.

(** The four shapes of an escaped character. *)
Lemma escape_char_cases c :
  (exists e, escape_char c = [92; e] /\ e <> 117
             /\ simple_escape e = Some c)
  \/ (escape_char c = [c] /\ c <> 34 /\ c <> 92 /\ 31 < c)
  \/ (c < 65536 /\ escape_char c = u_escape c)
  \/ (65536 <= c
      /\ escape_char c
         = u_escape (N.lor 55296 (N.land (N.shiftr (c - 65536) 10) 1023))
           ++ u_escape (N.lor 56320 (N.land (c - 65536) 1023))).
Proof.
  unfold escape_char.
  repeat match goal with
  | |- context [N.eqb c ?k] =>
      destruct (N.eqb_spec c k) as [->|?];
        [left; eexists; repeat split; done|]
  end.
  destruct ((32 <=? c) && (c <=? 126)) eqn:Hp.
  { right; left. apply andb_true_iff in Hp as [H1 H2].
    apply N.leb_le in H1, H2. repeat split; [done..|lia]. }
  destruct (N.ltb_spec c 65536); [right; right; left | right; right; right];
    by split.
Qed.

(** The escape of a character that is not a low surrogate does not read
    as the second half of a pair. *)
Lemma surrogate_tail_lone u c rest :
  c <= 1114111 -> is_low_surrogate c = false ->
  surrogate_tail u (escape_char c ++ rest)
  = Some (u, escape_char c ++ rest).
Proof.
  intros Hmax Hlow. unfold surrogate_tail.
  destruct (is_high_surrogate u); [|done].
  destruct (escape_char_cases c)
    as [(e & -> & He & _) | [(-> & _ & Hc & _) | [(Hc & ->) | (Hc & ->)]]].
  - cbn [app N.eqb Pos.eqb andb]. by rewrite (proj2 (N.eqb_neq e 117)).
  - cbn [app]. destruct rest as [|b rest]; [done|].
    by rewrite (proj2 (N.eqb_neq c 92)).
  - destruct (hex4_u_escape c rest Hc) as (a & b & x & d & -> & Hh).
    cbn [app N.eqb Pos.eqb andb]. unfold text, char in *.
    by rewrite Hh, Hlow.
  - destruct (surrogates_of c Hc Hmax) as (Hhi & _ & _ & _ & Hnl & _).
    cbv zeta in Hhi, Hnl.
    set (hi := N.lor 55296 _) in *. set (lo := N.lor 56320 _) in *.
    destruct (hex4_u_escape hi (u_escape lo ++ rest) Hhi)
      as (a & b & x & d & -> & Hh).
    rewrite <- app_assoc.
    cbn [app N.eqb Pos.eqb andb]. unfold text, char in *.
    by rewrite Hh, Hnl.
Qed.

Lemma surrogate_tail_quote u rest :
  surrogate_tail u (34 :: rest) = Some (u, 34 :: rest).
Proof.
  unfold surrogate_tail. destruct (is_high_surrogate u); [|done].
  by destruct rest.
Qed.

(** Reading an escaped string back. *)
Lemma scanstring_escaped (s rest : text) (fuel : nat) :
  well_formed s = true ->
  (length (flat_map escape_char s) < fuel)%nat ->
  scanstring fuel (flat_map escape_char s ++ 34 :: rest) = Some (s, rest).
Proof.
  revert fuel. induction s as [|c s IH]; intros fuel Hwf Hfuel.
  - destruct fuel; [simpl in Hfuel; lia | reflexivity].
  - unfold well_formed in Hwf. cbn [forallb no_surrogate_pair] in Hwf.
    apply andb_true_iff in Hwf as [Hmax Hpair].
    apply andb_true_iff in Hmax as [Hc Hmax].
    apply andb_true_iff in Hpair as [Hpair Hrest].
    apply N.leb_le in Hc.
    assert (Hwf' : well_formed s = true)
      by (unfold well_formed; by rewrite Hmax, Hrest).
    (* What follows the escape of [c] does not pair with it. *)
    assert (Htail : forall u, (u = c \/ is_high_surrogate u = false) ->
      surrogate_tail u (flat_map escape_char s ++ 34 :: rest)
      = Some (u, flat_map escape_char s ++ 34 :: rest)).
    { intros u Hu. destruct s as [|c2 s'].
      - apply surrogate_tail_quote.
      - cbn [flat_map]. rewrite <- app_assoc.
        destruct Hu as [-> | Hu].
        + destruct (is_high_surrogate c) eqn:Hh.
          * apply surrogate_tail_lone.
            -- cbn [forallb] in Hmax.
               apply andb_true_iff in Hmax as [Hm _]. by apply N.leb_le.
            -- cbn in Hpair. by destruct (is_low_surrogate c2).
          * unfold surrogate_tail. by rewrite Hh.
        + unfold surrogate_tail. by rewrite Hu. }
    cbn [flat_map] in *. rewrite length_app in Hfuel.
    rewrite <- app_assoc.
    destruct fuel as [|fuel]; [lia|].
    destruct (escape_char_cases c)
      as [(e & He & Hne & Hs) | [(He & H34 & H92 & H31)
          | [(Hlt & He) | (Hge & He)]]]; rewrite He in *.
    + cbn [app scanstring]. cbn [N.eqb Pos.eqb].
      rewrite (proj2 (N.eqb_neq e 117)) by done. rewrite Hs.
      rewrite IH; [done | done | cbn [length] in Hfuel; lia].
    + cbn [app scanstring].
      rewrite (proj2 (N.eqb_neq c 34)), (proj2 (N.eqb_neq c 92)) by done.
      rewrite (proj2 (N.leb_gt c 31)) by done.
      rewrite IH; [done | done | cbn [length] in Hfuel; lia].
    + destruct (hex4_u_escape c (flat_map escape_char s ++ 34 :: rest) Hlt)
        as (a & b & x & d & Hu & Hh).
      rewrite Hu in *. cbn [app scanstring]. cbn [N.eqb Pos.eqb].
      unfold text, char in *. rewrite Hh, Htail by (by left).
      rewrite IH; [done | done | cbn [length] in Hfuel; lia].
    + destruct (surrogates_of c Hge Hc) as (Hhi & Hlo & Hih & Hil & _ & Hj).
      cbv zeta in Hhi, Hlo, Hih, Hil, Hj.
      set (hi := N.lor 55296 _) in *. set (lo := N.lor 56320 _) in *.
      destruct (hex4_u_escape lo (flat_map escape_char s ++ 34 :: rest) Hlo)
        as (a' & b' & x' & d' & Hu' & Hh').
      destruct (hex4_u_escape hi
                  (u_escape lo ++ flat_map escape_char s ++ 34 :: rest) Hhi)
        as (a & b & x & d & Hu & Hh).
      rewrite Hu in *. rewrite <- !app_assoc.
      cbn [app scanstring]. cbn [N.eqb Pos.eqb].
      unfold text, char in *.
      rewrite Hh. unfold surrogate_tail at 1. rewrite Hih, Hu'.
      cbn [app N.eqb Pos.eqb andb]. rewrite Hh', Hil, Hj.
      rewrite IH; [done | done |].
      rewrite Hu' in Hfuel. cbn [length app] in Hfuel. lia.
Qed.

Lemma scan_once_string (fuel : nat) (s rest : text) :
  well_formed s = true ->
  scan_once (S fuel) (encode_basestring_ascii s ++ rest) = Some (JStr s, rest).
Proof.
  intros Hwf. unfold encode_basestring_ascii.
  rewrite <- !app_assoc. cbn [app scan_once N.eqb Pos.eqb].
  rewrite scanstring_escaped; [done | done |].
  rewrite length_app. cbn [length]. lia.
Qed.

Lemma skip_ws_blanks (k : nat) (x : char) (rest : text) :
  is_ws x = false -> skip_ws (repeat blank k ++ x :: rest) = x :: rest.
Proof.
  intros Hx. induction k as [|k IH]; cbn [repeat app skip_ws].
  - by rewrite Hx.
  - done.
Qed.

Lemma skip_ws_indent (lvl : nat) (x : char) (rest : text) :
  is_ws x = false -> skip_ws (newline_indent lvl ++ x :: rest) = x :: rest.
Proof.
  intros Hx. unfold newline_indent. cbn [app skip_ws].
  change (is_ws newline) with true. cbv iota. by apply skip_ws_blanks.
Qed.

(** The separator between two items of an indented array at depth 2. *)
Definition item_sep : text := 44 :: newline_indent 2.

Lemma parse_items_step (fuel : nat) (s : text) :
  parse_items (S fuel) s
  = match scan_once fuel s with
    | None => None
    | Some (v, r) =>
        match skip_ws r with
        | b :: r' =>
            if b =? 93 then Some ([v], r')
            else if b =? 44 then
              match parse_items fuel (skip_ws r') with
              | Some (l, r'') => Some (v :: l, r'')
              | None => None
              end
            else None
        | [] => None
        end
    end.
Proof.
  cbn [parse_items]. destruct (scan_once fuel s) as [[v r]|]; [|done].
  destruct (skip_ws r) as [|b r']; [done|].
  destruct (N.eqb_spec b 93) as [->|H93]; [done|].
  destruct (N.eqb_spec b 44) as [->|H44]; [done|].
  destruct b as [|p]; [done|].
  do 7 (destruct p as [p|p|]; try done).
Qed.

(** Reading back the items of an indented array of strings. *)
Lemma parse_items_strings (seq : list text) (s0 : text) (fuel : nat)
    (rest : text) :
  Forall (fun s => well_formed s = true) (s0 :: seq) ->
  (S (length seq) < fuel)%nat ->
  parse_items fuel
    (join_with item_sep (map encode_basestring_ascii (s0 :: seq))
       ++ newline_indent 1 ++ 93 :: rest)
  = Some (map JStr (s0 :: seq), rest).
Proof.
  revert s0 fuel. induction seq as [|s1 seq IH]; intros s0 fuel Hwf Hfuel.
  - destruct fuel as [|[|fuel]]; [simpl in Hfuel; lia..|].
    rewrite parse_items_step. cbn [map join_with].
    rewrite scan_once_string by (by inversion Hwf).
    by rewrite skip_ws_indent.
  - destruct fuel as [|[|fuel]]; [simpl in Hfuel; lia..|].
    rewrite parse_items_step.
    change (map encode_basestring_ascii (s0 :: s1 :: seq))
      with (encode_basestring_ascii s0
            :: map encode_basestring_ascii (s1 :: seq)).
    change (join_with item_sep (encode_basestring_ascii s0
              :: map encode_basestring_ascii (s1 :: seq)))
      with (encode_basestring_ascii s0 ++ item_sep
            ++ join_with item_sep (map encode_basestring_ascii (s1 :: seq))).
    rewrite <- !app_assoc.
    rewrite scan_once_string by (by inversion Hwf).
    unfold item_sep at 1. cbn [app skip_ws].
    change (is_ws 44) with false. cbv iota.
    change (44 =? 93) with false. change (44 =? 44) with true. cbv iota.
    assert (Hhead : exists t,
      join_with item_sep (map encode_basestring_ascii (s1 :: seq)) = 34 :: t).
    { cbn [map join_with]. destruct (map _ seq); by eexists. }
    destruct Hhead as [t Ht].
    pose proof (IH s1 (S fuel) ltac:(by inversion Hwf)
                  ltac:(simpl in *; lia)) as IH'.
    rewrite Ht in IH' |- *. cbn [app] in IH' |- *.
    rewrite skip_ws_indent by done. by rewrite IH'.
Qed.

(** Closes a goal that compares a match on a character literal with the
    test by [N.eqb], once the equal cases are done. *)
Ltac by_bits b :=
  destruct b as [|?p]; [done|];
  do 7 (destruct p as [p|p|]; try done).

Lemma scan_once_brace (fuel : nat) (s : text) :
  scan_once (S fuel) (123 :: s)
  = match skip_ws s with
    | b :: r =>
        if b =? 125 then Some (JDict [], r)
        else
          match parse_members fuel [] (b :: r) with
          | Some (d, r') => Some (JDict d, r')
          | None => None
          end
    | [] =>
        match parse_members fuel [] [] with
        | Some (d, r') => Some (JDict d, r')
        | None => None
        end
    end.
Proof.
  cbn [scan_once N.eqb Pos.eqb]. destruct (skip_ws s) as [|b r]; [done|].
  destruct (N.eqb_spec b 125) as [->|H]; [done|]. by_bits b.
Qed.

Lemma scan_once_bracket (fuel : nat) (s : text) :
  scan_once (S fuel) (91 :: s)
  = match skip_ws s with
    | b :: r =>
        if b =? 93 then Some (JList [], r)
        else
          match parse_items fuel (b :: r) with
          | Some (l, r') => Some (JList l, r')
          | None => None
          end
    | [] =>
        match parse_items fuel [] with
        | Some (l, r') => Some (JList l, r')
        | None => None
        end
    end.
Proof.
  cbn [scan_once N.eqb Pos.eqb]. destruct (skip_ws s) as [|b r]; [done|].
  destruct (N.eqb_spec b 93) as [->|H]; [done|]. by_bits b.
Qed.

Lemma parse_members_step (fuel : nat) (acc : list (text * json)) (s : text) :
  parse_members (S fuel) acc (34 :: s)
  = match scanstring (length s) s with
    | None => None
    | Some (k, r) =>
        match skip_ws r with
        | b :: r1 =>
            if b =? 58 then
              match scan_once fuel (skip_ws r1) with
              | None => None
              | Some (v, r2) =>
                  match skip_ws r2 with
                  | c :: r3 =>
                      if c =? 125 then Some (dict_set acc k v, r3)
                      else if c =? 44
                      then parse_members fuel (dict_set acc k v) (skip_ws r3)
                      else None
                  | [] => None
                  end
              end
            else None
        | [] => None
        end
    end.
Proof.
  cbn [parse_members]. destruct (scanstring (length s) s) as [[k r]|]; [|done].
  destruct (skip_ws r) as [|b r1]; [done|].
  destruct (N.eqb_spec b 58) as [->|H]; [|by_bits b].
  destruct (scan_once fuel (skip_ws r1)) as [[v r2]|]; [|done].
  destruct (skip_ws r2) as [|c r3]; [done|].
  destruct (N.eqb_spec c 125) as [->|H125]; [done|].
  destruct (N.eqb_spec c 44) as [->|H44]; [done|]. by_bits c.
Qed.

(** The text [json.dump] writes for the cache. *)
Lemma dumps_single (k : text) (v : json) :
  dumps (JDict [(k, v)])
  = 123 :: newline_indent 1 ++ encode_basestring_ascii k ++ [58; 32]
      ++ encode 1 v ++ newline_indent 0 ++ [125].
Proof.
  unfold dumps. cbn [encode map join_with]. by rewrite <- !app_assoc.
Qed.

Lemma encode_strings (s0 : text) (seq : list text) :
  encode 1 (JList (map JStr (s0 :: seq)))
  = 91 :: newline_indent 2
      ++ join_with item_sep (map encode_basestring_ascii (s0 :: seq))
      ++ newline_indent 1 ++ [93].
Proof.
  cbn [encode map]. rewrite map_map. reflexivity.
Qed.

Lemma skip_ws_ws (c : char) (s : text) :
  is_ws c = true -> skip_ws (c :: s) = skip_ws s.
Proof. intros H. cbn [skip_ws]. by rewrite H. Qed.

Lemma skip_ws_stop (c : char) (s : text) :
  is_ws c = false -> skip_ws (c :: s) = c :: s.
Proof. intros H. cbn [skip_ws]. by rewrite H. Qed.

(** Brings a concatenation into the form [x :: ... ++ ...]. *)
Ltac flatten_app :=
  repeat first [rewrite <- app_assoc | progress (cbn [app])].

(** Reading an indented array of strings back. *)
Lemma scan_once_strings (seq : list text) (fuel : nat) (rest : text) :
  Forall (fun s => well_formed s = true) seq ->
  (length seq + 2 < fuel)%nat ->
  scan_once fuel (encode 1 (JList (map JStr seq)) ++ rest)
  = Some (JList (map JStr seq), rest).
Proof.
  intros Hseq Hfuel. destruct fuel as [|fuel]; [lia|].
  destruct seq as [|s0 seq].
  - cbn [map encode]. change (codes "[]") with [91; 93]. flatten_app.
    rewrite scan_once_bracket. by rewrite skip_ws_stop.
  - rewrite encode_strings. flatten_app. rewrite scan_once_bracket.
    assert (Hhead : exists u,
      join_with item_sep (map encode_basestring_ascii (s0 :: seq))
      = 34 :: u).
    { cbn [map join_with]. destruct (map _ seq); by eexists. }
    destruct Hhead as [u Hu].
    pose proof (parse_items_strings seq s0 fuel rest Hseq
                  ltac:(simpl in *; lia)) as Hitems.
    rewrite Hu in Hitems |- *. flatten_app. cbn [app] in Hitems.
    rewrite skip_ws_indent by done.
    change (34 =? 93) with false. cbv iota.
    unfold text, char in *. by rewrite Hitems.
Qed.

(** Reading the cache text back, with any text after it. *)
Lemma scan_once_cache (k : text) (seq : list text) (fuel : nat) (rest : text) :
  well_formed k = true ->
  Forall (fun s => well_formed s = true) seq ->
  (length seq + 4 < fuel)%nat ->
  scan_once fuel (dumps (JDict [(k, JList (map JStr seq))]) ++ rest)
  = Some (JDict [(k, JList (map JStr seq))], rest).
Proof.
  intros Hk Hseq Hfuel.
  destruct fuel as [|[|fuel]]; [lia..|].
  rewrite dumps_single. flatten_app. rewrite scan_once_brace.
  unfold encode_basestring_ascii. flatten_app.
  rewrite skip_ws_indent by done.
  change (34 =? 125) with false. cbv iota.
  rewrite parse_members_step.
  rewrite scanstring_escaped;
    [| done | rewrite length_app; cbn [length]; lia].
  rewrite skip_ws_stop by done. change (58 =? 58) with true. cbv iota.
  rewrite skip_ws_ws by done.
  assert (H91 : exists t, encode 1 (JList (map JStr seq)) = 91 :: t).
  { destruct seq; [by eexists | rewrite encode_strings; by eexists]. }
  destruct H91 as [t Ht].
  pose proof (scan_once_strings seq fuel
                (newline_indent 0 ++ 125 :: rest) Hseq ltac:(lia)) as Hval.
  rewrite Ht in Hval |- *. flatten_app. cbn [app] in Hval.
  rewrite skip_ws_stop by done.
  unfold text, char in *. rewrite Hval.
  rewrite skip_ws_indent by done.
  change (125 =? 125) with true. cbv iota. reflexivity.
Qed.

(** The text of the cache is at least as long as the number of items. *)
Lemma dumps_cache_length (k : text) (seq : list text) :
  (length seq + 4
   < S (length (dumps (JDict [(k, JList (map JStr seq))]))))%nat.
Proof.
  rewrite dumps_single. cbn [length]. rewrite !length_app.
  assert (length seq + 2 <= length (encode 1 (JList (map JStr seq))))%nat.
  { destruct seq as [|s0 seq]; [cbn; lia|].
    rewrite encode_strings. cbn [length]. rewrite !length_app.
    assert (S (length seq)
            <= length (join_with item_sep
                         (map encode_basestring_ascii (s0 :: seq))))%nat.
    { clear. revert s0. induction seq as [|s1 seq IH]; intros s0.
      - cbn. lia.
      - change (map encode_basestring_ascii (s0 :: s1 :: seq))
          with (encode_basestring_ascii s0
                :: map encode_basestring_ascii (s1 :: seq)).
        change (join_with item_sep (encode_basestring_ascii s0
                  :: map encode_basestring_ascii (s1 :: seq)))
          with (encode_basestring_ascii s0 ++ item_sep
                ++ join_with item_sep
                     (map encode_basestring_ascii (s1 :: seq))).
        rewrite !length_app. specialize (IH s1).
        assert (1 <= length item_sep)%nat by (cbn; lia).
        cbn [length] in *. lia. }
    cbn [length] in *. lia. }
  cbn [length]. lia.
Qed.

(** [json.loads] after [json.dumps] on the cache document. *)
Lemma loads_dumps_cache (k : text) (seq : list text) :
  well_formed k = true ->
  Forall (fun s => well_formed s = true) seq ->
  loads (dumps (JDict [(k, JList (map JStr seq))]))
  = Some (JDict [(k, JList (map JStr seq))]).
Proof.
  intros Hk Hseq. unfold loads.
  pose proof (scan_once_cache k seq
                (S (length (dumps (JDict [(k, JList (map JStr seq))]))))
                [] Hk Hseq (dumps_cache_length k seq)) as Hscan.
  rewrite app_nil_r in Hscan.
  destruct (dumps (JDict [(k, JList (map JStr seq))])) as [|c s] eqn:Hd.
  { by rewrite dumps_single in Hd. }
  assert (c = 123) as -> by (rewrite dumps_single in Hd; by injection Hd).
  rewrite skip_ws_stop by done. by rewrite Hscan.
Qed.

(** C7 as stated fails: a string made of a lone high surrogate followed
    by a lone low surrogate (U+D83D, U+DE00) is written as two escapes and
    read back as the single character U+1F600. *)
Lemma cache_round_trip_counterexample :
  let seq := [[55357; 56832]] in
  let save :=
    json_exporter.export_chunk_summaries (JList (map JStr seq))
      "chunk_summaries.json" in
  result_of (agent.load_existing_chunk_summaries "chunk_summaries.json")
    (world_after save (World ∅ []))
  = Ok (Some (JList [JStr [128512]]))
  /\ JList [JStr [128512]] <> JList (map JStr seq).
Proof.
  split; [vm_compute; reflexivity | discriminate].
Qed.

(** C7, amended.  For every sequence of strings in which no high
    surrogate is immediately followed by a low surrogate (every sequence
    of well-formed Unicode strings, the empty sequence included), saving
    the sequence to a path and loading that path straight after returns
    the sequence. *)
Theorem cache_round_trip (w : world) (path : string) (seq : list text) :
  fs w !! path <> Some Unreadable ->
  Forall (fun s => well_formed s = true) seq ->
  let save :=
    json_exporter.export_chunk_summaries (JList (map JStr seq)) path in
  result_of save w = Ok tt
  /\ result_of (agent.load_existing_chunk_summaries path) (world_after save w)
     = Ok (Some (JList (map JStr seq))).
Proof.
  intros Hpath Hseq save.
  assert (Hrun : save w
    = (Ok tt,
       World (<[path := File (dumps (JDict [(cache_key,
                                             JList (map JStr seq))]))]> (fs w))
         (trace w ++ [EvWrite path
                        (dumps (JDict [(cache_key,
                                        JList (map JStr seq))]))]))).
  { unfold save, json_exporter.export_chunk_summaries.
    rewrite run_write_file. by destruct (fs w !! path) as [[c|]|]. }
  unfold result_of, world_after. rewrite Hrun. split; [done|].
  cbn [fst snd]. unfold agent.load_existing_chunk_summaries.
  rewrite run_bind. cbn [get_fs fs ret mret M_ret fst].
  f_equal.
  rewrite (load_from_dict _ _
             (dumps (JDict [(cache_key, JList (map JStr seq))]))
             [(cache_key, JList (map JStr seq))] (JList (map JStr seq))).
  - done.
  - apply lookup_insert_eq.
  - by apply loads_dumps_cache.
  - reflexivity.
Qed.

(** The amended theorem at the summaries "a" and "é" and an empty file
    system. *)
Lemma cache_round_trip_witness :
  result_of (agent.load_existing_chunk_summaries "chunk_summaries.json")
    (world_after
       (json_exporter.export_chunk_summaries
          (JList (map JStr [codes "a"; [233]])) "chunk_summaries.json")
       (World ∅ []))
  = Ok (Some (JList (map JStr [codes "a"; [233]]))).
Proof.
  destruct (cache_round_trip (World ∅ []) "chunk_summaries.json"
              [codes "a"; [233]]) as [_ H].
  - cbn [fs]. rewrite lookup_empty. discriminate.
  - repeat constructor.
  - exact H.
Defined.

End round_trip.


(* ===================================================================== *)
(** ** The limits of the interpreter take results away, they change none *)
(* ===================================================================== *)

Section limits.

(** What the scanner with limits and the scanner without have to do with
    each other: the same value, the same decoding error, or a limit was
    hit. *)
Definition agrees {A} (a : attempt A) (o : option A) : Prop :=
  match a with
  | Done x => o = Some x
  | JSONDecodeError => o = None
  | LimitError => True
  end.

Lemma parse_members_other fuel acc c s :
  c <> 34%N -> parse_members fuel acc (c :: s) = None.
Proof.
  intros H. destruct fuel as [|fuel]; [done|]. cbn [parse_members].
  destruct c as [|p]; [done|]. repeat (destruct p as [p|p|]; try done).
Qed.

Lemma parse_members_nil fuel acc : parse_members fuel acc [] = None.
Proof. by destruct fuel. Qed.

Lemma parse_items_nil fuel : parse_items fuel [] = None.
Proof. destruct fuel as [|[|fuel]]; done. Qed.

Lemma scan_once_quote fuel s :
  scan_once (S fuel) (34%N :: s)
  = match scanstring (length s) s with
    | Some (str, r) => Some (JStr str, r)
    | None => None
    end.
Proof. reflexivity. Qed.

Lemma scan_once_other fuel c s :
  c <> 34%N -> c <> 123%N -> c <> 91%N ->
  scan_once (S fuel) (c :: s)
  = match strip_prefix (codes "null") (c :: s) with
    | Some r => Some (JNull, r)
    | None =>
    match strip_prefix (codes "true") (c :: s) with
    | Some r => Some (JBool true, r)
    | None =>
    match strip_prefix (codes "false") (c :: s) with
    | Some r => Some (JBool false, r)
    | None =>
    match strip_prefix (codes "-Infinity") (c :: s) with
    | Some r => Some (JFloat (codes "-Infinity"), r)
    | None =>
    match match_number (c :: s) with
    | Some res => Some res
    | None =>
    match strip_prefix (codes "NaN") (c :: s) with
    | Some r => Some (JFloat (codes "NaN"), r)
    | None =>
    match strip_prefix (codes "Infinity") (c :: s) with
    | Some r => Some (JFloat (codes "Infinity"), r)
    | None => None
    end end end end end end end.
Proof.
  intros H1 H2 H3. cbn [scan_once].
  by rewrite (proj2 (N.eqb_neq c 34)), (proj2 (N.eqb_neq c 123)),
    (proj2 (N.eqb_neq c 91)).
Qed.

Lemma scan_once_in_other lim fuel room c s :
  c <> 34%N -> c <> 123%N -> c <> 91%N ->
  scan_once_in lim (S fuel) room (c :: s)
  = match strip_prefix (codes "null") (c :: s) with
    | Some r => Done (JNull, r)
    | None =>
    match strip_prefix (codes "true") (c :: s) with
    | Some r => Done (JBool true, r)
    | None =>
    match strip_prefix (codes "false") (c :: s) with
    | Some r => Done (JBool false, r)
    | None =>
    match strip_prefix (codes "-Infinity") (c :: s) with
    | Some r => Done (JFloat (codes "-Infinity"), r)
    | None =>
    match match_number (c :: s) with
    | Some (JInt z, r) =>
        if exceeds_digit_limit lim (integer_digits (c :: s))
        then LimitError
        else Done (JInt z, r)
    | Some res => Done res
    | None =>
    match strip_prefix (codes "NaN") (c :: s) with
    | Some r => Done (JFloat (codes "NaN"), r)
    | None =>
    match strip_prefix (codes "Infinity") (c :: s) with
    | Some r => Done (JFloat (codes "Infinity"), r)
    | None => JSONDecodeError
    end end end end end end end.
Proof.
  intros H1 H2 H3. cbn [scan_once_in].
  by rewrite (proj2 (N.eqb_neq c 34)), (proj2 (N.eqb_neq c 123)),
    (proj2 (N.eqb_neq c 91)).
Qed.

Lemma scan_once_in_brace lim fuel room s :
  scan_once_in lim (S fuel) room (123%N :: s)
  = match room with
    | 0 => LimitError
    | S room' =>
        match skip_ws s with
        | b :: r =>
            if (b =? 125)%N then Done (JDict [], r)
            else
              match parse_members_in lim fuel room' [] (b :: r) with
              | Done (d, r') => Done (JDict d, r')
              | JSONDecodeError => JSONDecodeError
              | LimitError => LimitError
              end
        | [] => JSONDecodeError
        end
    end.
Proof. reflexivity. Qed.

Lemma scan_once_in_bracket lim fuel room s :
  scan_once_in lim (S fuel) room (91%N :: s)
  = match room with
    | 0 => LimitError
    | S room' =>
        match skip_ws s with
        | b :: r =>
            if (b =? 93)%N then Done (JList [], r)
            else
              match parse_items_in lim fuel room' (b :: r) with
              | Done (l, r') => Done (JList l, r')
              | JSONDecodeError => JSONDecodeError
              | LimitError => LimitError
              end
        | [] => JSONDecodeError
        end
    end.
Proof. reflexivity. Qed.

Lemma scan_once_in_agrees lim : forall fuel,
  (forall room s, agrees (scan_once_in lim fuel room s) (scan_once fuel s))
  /\ (forall room s,
        agrees (parse_items_in lim fuel room s) (parse_items fuel s))
  /\ (forall room acc s,
        agrees (parse_members_in lim fuel room acc s)
          (parse_members fuel acc s)).
Proof.
  induction fuel as [|fuel (IHs & IHi & IHm)]; [by repeat split|].
  split; [|split].
  - intros room [|c s]; [by cbn [agrees]|].
    destruct (N.eq_dec c 34%N) as [->|H34].
    { rewrite scan_once_quote. cbn [scan_once_in N.eqb Pos.eqb].
      unfold text, char in *.
      destruct (scanstring (length s) s) as [[str r]|]; by cbn [agrees]. }
    destruct (N.eq_dec c 123%N) as [->|H123].
    { rewrite scan_once_in_brace, scan_once_brace.
      destruct room as [|room]; [by cbn [agrees]|].
      destruct (skip_ws s) as [|b r].
      { by rewrite parse_members_nil. }
      destruct (b =? 125)%N; [by cbn [agrees]|].
      pose proof (IHm room [] (b :: r)) as H.
      destruct (parse_members_in lim fuel room [] (b :: r)) as [[d r']| |];
        cbn [agrees] in H |- *; [by rewrite H..|done]. }
    destruct (N.eq_dec c 91%N) as [->|H91].
    { rewrite scan_once_in_bracket, scan_once_bracket.
      destruct room as [|room]; [by cbn [agrees]|].
      destruct (skip_ws s) as [|b r].
      { by rewrite parse_items_nil. }
      destruct (b =? 93)%N; [by cbn [agrees]|].
      pose proof (IHi room (b :: r)) as H.
      destruct (parse_items_in lim fuel room (b :: r)) as [[l r']| |];
        cbn [agrees] in H |- *; [by rewrite H..|done]. }
    rewrite scan_once_in_other, scan_once_other by done.
    unfold text, char in *.
    destruct (strip_prefix (codes "null") (c :: s)); [by cbn [agrees]|].
    destruct (strip_prefix (codes "true") (c :: s)); [by cbn [agrees]|].
    destruct (strip_prefix (codes "false") (c :: s)); [by cbn [agrees]|].
    destruct (strip_prefix (codes "-Infinity") (c :: s)); [by cbn [agrees]|].
    destruct (match_number (c :: s)) as [[[] r]|]; try (by cbn [agrees]).
    { destruct (exceeds_digit_limit lim _); by cbn [agrees]. }
    destruct (strip_prefix (codes "NaN") (c :: s)); [by cbn [agrees]|].
    destruct (strip_prefix (codes "Infinity") (c :: s)); by cbn [agrees].
  - intros room s. rewrite parse_items_step. cbn [parse_items_in].
    pose proof (IHs room s) as H.
    destruct (scan_once_in lim fuel room s) as [[v r]| |];
      cbn [agrees] in H |- *; [|by rewrite H|done].
    rewrite H. destruct (skip_ws r) as [|b r']; [by cbn [agrees]|].
    destruct (b =? 93)%N; [by cbn [agrees]|]. destruct (b =? 44)%N; [|by cbn [agrees]].
    pose proof (IHi room (skip_ws r')) as Hi.
    destruct (parse_items_in lim fuel room (skip_ws r')) as [[l r'']| |];
      cbn [agrees] in Hi |- *; [by rewrite Hi..|done].
  - intros room acc [|c s]; [by cbn [agrees]|]. cbn [parse_members_in].
    destruct (N.eqb_spec c 34%N) as [->|H34];
      [|by rewrite parse_members_other].
    rewrite parse_members_step.
    destruct (scanstring (length s) s) as [[k r]|]; [|by cbn [agrees]].
    destruct (skip_ws r) as [|b r1]; [by cbn [agrees]|].
    destruct (b =? 58)%N; [|by cbn [agrees]].
    pose proof (IHs room (skip_ws r1)) as H.
    destruct (scan_once_in lim fuel room (skip_ws r1)) as [[v r2]| |];
      cbn [agrees] in H |- *; [|by rewrite H|done].
    rewrite H. cbv zeta. destruct (skip_ws r2) as [|b' r3]; [by cbn [agrees]|].
    destruct (b' =? 125)%N; [by cbn [agrees]|]. destruct (b' =? 44)%N; [|by cbn [agrees]].
    apply IHm.
Qed.

(** A value the scanner with limits returns is the value the scanner
    without returns. *)
Lemma scan_once_in_done lim fuel room s v r :
  scan_once_in lim fuel room s = Done (v, r) ->
  scan_once fuel s = Some (v, r).
Proof.
  intros H. pose proof (proj1 (scan_once_in_agrees lim fuel) room s) as Ha.
  by rewrite H in Ha.
Qed.

Lemma json_loads_done lim s v :
  json_loads lim s = Done v ->
  exists fuel r, scan_once fuel (skip_ws s) = Some (v, r).
Proof.
  unfold json_loads. destruct s as [|c s]; [done|].
  destruct (c =? 65279)%N; [done|].
  destruct (scan_once_in _ _ _ _) as [[v' r]| |] eqn:E; try done.
  destruct (skip_ws r); [|done]. intros [= <-].
  eexists _, _. by apply scan_once_in_done in E.
Qed.

End limits.


(* ===================================================================== *)
(** ** Text cleaning: the substitutions of [clean_text] as plain scans *)
(* ===================================================================== *)

Section cleaning.

(** *** The scans

    Each pattern of [clean_text] is matched by a scanner that reads the
    text once from left to right and never gives a character back. *)

(** [cls{n,}] at the start of [s]: the text after the longest run of
    [cls] characters, when the run has at least [n] of them. *)
Fixpoint at_least (n : nat) (cls : char -> bool) (s : text) : option text :=
  match s with
  | c :: s' =>
      if cls c then at_least (pred n) cls s'
      else match n with 0 => Some s | S _ => None end
  | [] => match n with 0 => Some [] | S _ => None end
  end.

(** "Page", digits, "of", digits, with optional white space between. *)
Definition page_marker (s : text) : option text :=
  r ← strip_prefix (codes "Page") s;
  r ← at_least 0 isspace r;
  r ← at_least 1 isdecimal r;
  r ← at_least 0 isspace r;
  r ← strip_prefix (codes "of") r;
  r ← at_least 0 isspace r;
  at_least 1 isdecimal r.

(** The white space that closes a line: white space up to the end of the
    text, or up to the last line break of the white space. *)
Fixpoint line_end (s : text) : option text :=
  match s with
  | [] => Some []
  | c :: s' =>
      if isspace c then
        match line_end s' with
        | Some r => Some r
        | None => if (c =? newline)%N then Some s else None
        end
      else None
  end.

(** From the start of a line: white space, digits, and the white space
    that closes a line. *)
Definition isolated_number (prev : option char) (s : text) : option text :=
  if at_bol prev then
    r ← at_least 0 isspace s;
    r ← at_least 1 isdecimal r;
    line_end r
  else None.

Definition not_ascii (c : char) : bool := negb (is_ascii c).

(** The character before the position reached by reading [seg]. *)
Definition last_prev (prev : option char) (seg : text) : option char :=
  match last seg with
  | Some c => Some c
  | None => prev
  end.

(** Replace every occurrence found by [find], leftmost first, the search
    going on after each occurrence. *)
Fixpoint replace_all (fuel : nat)
    (find : option char -> text -> option text) (repl : text)
    (prev : option char) (s : text) : text :=
  match fuel with
  | 0 => s
  | S fuel' =>
      match find prev s with
      | Some rest =>
          repl ++ replace_all fuel' find repl
                    (last_prev prev (taken s rest)) rest
      | None =>
          match s with
          | c :: s' => c :: replace_all fuel' find repl (Some c) s'
          | [] => []
          end
      end
  end.

Definition replace_each (find : option char -> text -> option text)
    (repl : text) (s : text) : text :=
  replace_all (length s) find repl None s.

(** Every maximal run of [cls] characters becomes the one character [b]. *)
Fixpoint squeeze (cls : char -> bool) (b : char) (in_run : bool) (s : text)
    : text :=
  match s with
  | [] => []
  | c :: s' =>
      if cls c then
        if in_run then squeeze cls b true s'
        else b :: squeeze cls b true s'
      else c :: squeeze cls b false s'
  end.

(** The form of a cleaned text: ASCII only, no white space but single
    blanks, none of them first and, when [closed], none of them last. *)
Fixpoint spaced (closed after_blank : bool) (s : text) : bool :=
  match s with
  | [] => negb (closed && after_blank)
  | c :: s' =>
      is_ascii c &&
      (if isspace c
       then (c =? blank)%N && negb after_blank && spaced closed true s'
       else spaced closed false s')
  end.

Definition tidy (s : text) : bool :=
  match s with
  | [] => true
  | _ :: _ => spaced true true s
  end.

(** [s.rstrip()], from the left. *)
Fixpoint rstrip (s : text) : text :=
  match s with
  | [] => []
  | c :: s' =>
      match rstrip s' with
      | [] => if isspace c then [] else [c]
      | r => c :: r
      end
  end.

(** *** The matcher only moves forward *)

Definition extends (st st' : mstate) : Prop :=
  exists seg,
    m_rest st = seg ++ m_rest st' /\ m_prev st' = last_prev (m_prev st) seg.

Lemma last_prev_app prev a b :
  last_prev (last_prev prev a) b = last_prev prev (a ++ b).
Proof.
  unfold last_prev. rewrite last_app. by destruct (last b).
Qed.

Lemma extends_refl st : extends st st.
Proof. by exists []. Qed.

Lemma extends_trans a b c : extends a b -> extends b c -> extends a c.
Proof.
  intros (s1 & E1 & P1) (s2 & E2 & P2). exists (s1 ++ s2). split.
  - by rewrite E1, E2, app_assoc.
  - by rewrite P2, P1, last_prev_app.
Qed.

Lemma extends_step prev c s g st :
  extends (MState (Some c) s g) st -> extends (MState prev (c :: s) g) st.
Proof.
  intros H. eapply extends_trans; [|exact H]. by exists [c].
Qed.

Lemma stop_here_Some lo k st res :
  stop_here lo k st = Some res -> k st = Some res.
Proof. by destruct lo. Qed.

Lemma rep_greedy_extends cls k g s : forall lo prev res,
  rep_greedy cls k lo g prev s = Some res ->
  exists st', extends (MState prev s g) st' /\ k st' = Some res.
Proof.
  induction s as [|c s IH]; intros lo prev res; simpl.
  - intros H%stop_here_Some. eauto using extends_refl.
  - destruct (cls c).
    + destruct (rep_greedy cls k (pred lo) g (Some c) s) eqn:E.
      * intros [= <-]. apply IH in E as (st' & Hx & Hk).
        eauto using extends_step.
      * intros H%stop_here_Some. eauto using extends_refl.
    + intros H%stop_here_Some. eauto using extends_refl.
Qed.

Lemma rep_lazy_extends cls k g s : forall lo prev res,
  rep_lazy cls k lo g prev s = Some res ->
  exists st', extends (MState prev s g) st' /\ k st' = Some res.
Proof.
  induction s as [|c s IH]; intros lo prev res; destruct lo; simpl.
  - destruct (k _) eqn:E; [|done]. intros [= <-]. eauto using extends_refl.
  - done.
  - destruct (k (MState prev (c :: s) g)) eqn:E.
    + intros [= <-]. eauto using extends_refl.
    + destruct (cls c); [|done]. intros (st' & Hx & Hk)%IH.
      eauto using extends_step.
  - destruct (cls c); [|done]. intros (st' & Hx & Hk)%IH.
    eauto using extends_step.
Qed.

Lemma rmatch_extends r : forall st k res,
  rmatch r st k = Some res ->
  exists st', extends st st' /\ k st' = Some res.
Proof.
  induction r as [|cls|a IHa b IHb|a IHa b IHb|greedy lo cls| | |a IHa];
    intros st k res; simpl.
  - eauto using extends_refl.
  - destruct st as [prev [|c s] g]; simpl; [done|].
    destruct (cls c); [|done]. intros H. eexists. split; [|exact H].
    by exists [c].
  - intros (st1 & H1 & (st2 & H2 & Hk)%IHb)%IHa.
    eauto using extends_trans.
  - destruct (rmatch a st k) eqn:E.
    + intros [= <-]. eauto.
    + eauto.
  - destruct st as [prev s g]; simpl. destruct greedy.
    + apply rep_greedy_extends.
    + apply rep_lazy_extends.
  - destruct (at_bol _); [|done]. eauto using extends_refl.
  - destruct (at_eol _); [|done]. eauto using extends_refl.
  - intros (st1 & H1 & Hk)%IHa. eexists. split; [|exact Hk].
    destruct H1 as (seg & E & P). by exists seg.
Qed.

Lemma taken_app (seg rest : text) : taken (seg ++ rest) rest = seg.
Proof.
  unfold taken. rewrite length_app.
  replace (length seg + length rest - length rest) with (length seg) by lia.
  by rewrite take_app_length.
Qed.

(** A match is a prefix of the text it was tried on, and ends after the
    last character of that prefix. *)
Lemma match_at_extends r ma prev s m :
  match_at r ma prev s = Some m ->
  length (m_rest m) <= length s /\
  m_prev m = last_prev prev (taken s (m_rest m)).
Proof.
  unfold match_at. intros (st' & (seg & E & P) & Hk)%rmatch_extends.
  simpl in *. destruct (ma && _); [done|]. injection Hk as <-.
  rewrite E, taken_app, length_app. split; [lia|done].
Qed.

(** *** Repetition without giving back *)

(** The character before the end of the longest run. *)
Fixpoint run_prev (cls : char -> bool) (prev : option char) (s : text)
    : option char :=
  match s with
  | c :: s' => if cls c then run_prev cls (Some c) s' else prev
  | [] => prev
  end.

(** When whatever follows cannot start with a character of the class,
    the repetition takes the whole run or fails. *)
Lemma rep_greedy_run cls k g :
  (forall p c s', cls c = true -> k (MState p (c :: s') g) = None) ->
  forall s lo prev,
    rep_greedy cls k lo g prev s =
    match at_least lo cls s with
    | Some r => k (MState (run_prev cls prev s) r g)
    | None => None
    end.
Proof.
  intros Hk. induction s as [|c s IH]; intros lo prev; simpl.
  - by destruct lo.
  - destruct (cls c) eqn:Ec; [|by destruct lo].
    rewrite IH. destruct (at_least (pred lo) cls s) as [r|].
    + destruct (k (MState (run_prev cls (Some c) s) r g)); [done|].
      destruct lo; simpl; [by apply Hk|done].
    + destruct lo; simpl; [by apply Hk|done].
Qed.

Lemma at_least_0 cls s : is_Some (at_least 0 cls s).
Proof.
  induction s as [|c s IH]; simpl; [done|]. by destruct (cls c).
Qed.

(** At the end of a pattern the repetition takes the whole run. *)
Lemma rep_greedy_last cls k g :
  (forall st, k st = Some st) ->
  forall s lo prev,
    rep_greedy cls k lo g prev s =
    match at_least lo cls s with
    | Some r => Some (MState (run_prev cls prev s) r g)
    | None => None
    end.
Proof.
  intros Hk. induction s as [|c s IH]; intros lo prev; simpl.
  - destruct lo; simpl; [apply Hk|done].
  - destruct (cls c) eqn:Ec.
    + rewrite IH. destruct (at_least (pred lo) cls s) as [r|] eqn:E; [done|].
      destruct lo as [|lo]; simpl; [|done].
      destruct (at_least_0 cls s) as [r Hr]. simpl in E. congruence.
    + destruct lo; simpl; [apply Hk|done].
Qed.

(** *** The character classes do not overlap *)

Lemma isdecimal_bounds c :
  isdecimal c = true ->
  (48 <= c <= 57 \/ 1632 <= c <= 4249 \/ 6112 <= c <= 7257 \/ 42528 <= c)%N.
Proof.
  unfold isdecimal. intros ([a b] & Hin & Hr)%existsb_exists.
  unfold in_range in Hr. simpl in Hr.
  apply andb_true_iff in Hr as [Ha%N.leb_le Hb%N.leb_le].
  unfold decimal_ranges in Hin.
  repeat (destruct Hin as [[= <- <-]|Hin]; [lia|]). destruct Hin.
Qed.

Lemma isspace_bounds c :
  isspace c = true ->
  (9 <= c <= 32 \/ 133 <= c <= 160 \/ c = 5760 \/ 8192 <= c <= 12288)%N.
Proof.
  unfold isspace. intros ([a b] & Hin & Hr)%existsb_exists.
  unfold in_range in Hr. simpl in Hr.
  apply andb_true_iff in Hr as [Ha%N.leb_le Hb%N.leb_le].
  unfold space_ranges in Hin.
  repeat (destruct Hin as [[= <- <-]|Hin]; [lia|]). destruct Hin.
Qed.

Lemma space_not_decimal c : isspace c = true -> isdecimal c = false.
Proof.
  intros Hs%isspace_bounds. destruct (isdecimal c) eqn:Hd; [|done].
  apply isdecimal_bounds in Hd. lia.
Qed.

Lemma decimal_not_space c : isdecimal c = true -> isspace c = false.
Proof.
  intros Hd. destruct (isspace c) eqn:Hs; [|done].
  apply space_not_decimal in Hs. congruence.
Qed.

Lemma space_not_letter c : isspace c = true -> (111 =? c)%N = false.
Proof. intros Hs%isspace_bounds. apply N.eqb_neq. lia. Qed.

Lemma decimal_not_letter c : isdecimal c = true -> (111 =? c)%N = false.
Proof. intros Hd%isdecimal_bounds. apply N.eqb_neq. lia. Qed.

Lemma not_space_not_newline c :
  isspace c = false -> (c =? newline)%N = false.
Proof.
  intros Hs. apply N.eqb_neq. intros ->. vm_compute in Hs. discriminate.
Qed.

#[local] Hint Resolve space_not_decimal decimal_not_space space_not_letter
  decimal_not_letter : core.

(** *** From the pattern to the scan, piece by piece *)

Lemma rmatch_lits (w : text) : forall prev s g k,
  rmatch (seq_ (map lit w)) (MState prev s g) k =
  match strip_prefix w s with
  | Some r => k (MState (last_prev prev w) r g)
  | None => None
  end.
Proof.
  unfold seq_. induction w as [|a w IH]; intros prev s g k; [done|].
  destruct s as [|c s]; [done|]. cbn [map fold_right rmatch lit m_rest m_grp].
  simpl strip_prefix. destruct (N.eqb_spec a c) as [->|]; [|done].
  rewrite IH. destruct (strip_prefix w s); [|done]. f_equal. f_equal.
  unfold last_prev. rewrite last_cons. by destruct (last w).
Qed.

Lemma strip_prefix_stop a w c s :
  (a =? c)%N = false -> strip_prefix (a :: w) (c :: s) = None.
Proof. intros H. cbn [strip_prefix]. by rewrite H. Qed.

Lemma at_least_stop n cls c s :
  cls c = false ->
  at_least n cls (c :: s) = match n with 0 => Some (c :: s) | S _ => None end.
Proof. intros H. cbn [at_least]. by rewrite H. Qed.

Section pieces.
Variable k0 : cont.
Hypothesis k0_total : forall st, k0 st = Some st.

Definition scans (T : regex) (scan : text -> option text) : Prop :=
  forall p s g, option_map m_rest (rmatch T (MState p s g) k0) = scan s.

Lemma scans_lits w T scan :
  scans T scan ->
  scans (Cat (seq_ (map lit w)) T) (fun s => r ← strip_prefix w s; scan r).
Proof.
  intros HT p s g. cbn [rmatch]. rewrite rmatch_lits.
  destruct (strip_prefix w s); [apply HT|done].
Qed.

Lemma scans_rep cls lo T scan :
  scans T scan ->
  (forall c s', cls c = true -> scan (c :: s') = None) ->
  scans (Cat (Repeat true lo cls) T) (fun s => r ← at_least lo cls s; scan r).
Proof.
  intros HT Hc p s g. cbn [rmatch m_rest m_prev m_grp].
  rewrite rep_greedy_run.
  - destruct (at_least lo cls s); [apply HT|done].
  - intros p' c s' Hcls. specialize (HT p' (c :: s') g).
    rewrite (Hc c s' Hcls) in HT. by destruct (rmatch T _ k0).
Qed.

Lemma scans_rep_end cls lo :
  scans (Cat (Repeat true lo cls) Empty) (at_least lo cls).
Proof using k0_total.
  intros p s g. cbn [rmatch m_rest m_prev m_grp].
  rewrite rep_greedy_last by (intros st; apply k0_total).
  by destruct (at_least lo cls s).
Qed.

Lemma scans_line_end :
  scans (Cat (Repeat true 0 isspace) (Cat Dollar Empty)) line_end.
Proof using k0_total.
  intros p s g. cbn [rmatch m_rest m_prev m_grp]. revert p.
  induction s as [|c s IH]; intros p; simpl.
  - by rewrite k0_total.
  - destruct (isspace c) eqn:Hs.
    + specialize (IH (Some c)).
      destruct (rep_greedy isspace _ 0 g (Some c) s) as [m|]; simpl in IH.
      * by rewrite <- IH.
      * rewrite <- IH. destruct (c =? newline)%N; [|done].
        by rewrite k0_total.
    + by rewrite (not_space_not_newline c Hs).
Qed.

Lemma page_re_scans : scans page_re page_marker.
Proof using k0_total.
  unfold page_re, page_marker, lits, star, plus, seq_ at 1.
  cbn [fold_right].
  apply (scans_lits (codes "Page")).
  apply scans_rep; [|by intros c s' Hc; rewrite at_least_stop by auto].
  apply scans_rep.
  2:{ intros c s' Hc. rewrite at_least_stop by auto.
      cbn [mbind option_bind]. change (codes "of") with [111; 102]%N.
      by rewrite strip_prefix_stop by auto. }
  apply scans_rep.
  2:{ intros c s' Hc. change (codes "of") with [111; 102]%N.
      by rewrite strip_prefix_stop by auto. }
  apply (scans_lits (codes "of")).
  apply scans_rep; [|by intros c s' Hc; rewrite at_least_stop by auto].
  apply scans_rep_end.
Qed.

Lemma isolated_number_re_scans p s g :
  option_map m_rest (rmatch isolated_number_re (MState p s g) k0) =
  isolated_number p s.
Proof using k0_total.
  unfold isolated_number_re, isolated_number, star, plus, seq_.
  cbn [fold_right rmatch m_prev]. destruct (at_bol p); [|done].
  revert p s g. change (scans
    (Cat (Repeat true 0 isspace)
       (Cat (Repeat true 1 isdecimal)
          (Cat (Repeat true 0 isspace) (Cat Dollar Empty))))
    (fun s => r ← at_least 0 isspace s; r ← at_least 1 isdecimal r;
              line_end r)).
  apply scans_rep; [|by intros c s' Hc; rewrite at_least_stop by auto].
  apply scans_rep;
    [|by intros c s' Hc; cbn [line_end]; rewrite decimal_not_space].
  apply scans_line_end.
Qed.

End pieces.

(** *** One attempt of each pattern *)

Lemma match_at_page_re prev s :
  option_map m_rest (match_at page_re false prev s) = page_marker s.
Proof. unfold match_at. by apply page_re_scans. Qed.

Lemma match_at_isolated_number_re prev s :
  option_map m_rest (match_at isolated_number_re false prev s) =
  isolated_number prev s.
Proof. unfold match_at. by apply isolated_number_re_scans. Qed.

Lemma match_at_repeat lo cls prev s :
  option_map m_rest (match_at (Repeat true lo cls) false prev s) =
  at_least lo cls s.
Proof.
  unfold match_at. cbn [rmatch m_rest m_prev m_grp].
  rewrite rep_greedy_last by done. by destruct (at_least lo cls s).
Qed.

(** *** What an occurrence takes *)

Lemma at_least_length n cls s r :
  at_least n cls s = Some r -> n + length r <= length s.
Proof.
  revert n. induction s as [|c s IH]; intros n; simpl.
  - destruct n; [|done]. intros [= <-]. simpl. lia.
  - destruct (cls c).
    + intros H%IH. lia.
    + destruct n; [|done]. intros [= <-]. simpl. lia.
Qed.

Lemma strip_prefix_length w s r :
  strip_prefix w s = Some r -> length s = length w + length r.
Proof.
  revert s. induction w as [|a w IH]; intros [|c s]; simpl; try done.
  - by intros [= <-].
  - by intros [= <-].
  - destruct (a =? c)%N; [|done]. intros H%IH. lia.
Qed.

Lemma line_end_length s r : line_end s = Some r -> length r <= length s.
Proof.
  revert r. induction s as [|c s IH]; intros r; simpl.
  - by intros [= <-].
  - destruct (isspace c); [|done]. destruct (line_end s) as [r'|].
    + intros [= <-]. specialize (IH r' eq_refl). lia.
    + destruct (c =? newline)%N; [|done]. by intros [= <-].
Qed.

Lemma page_marker_length s r : page_marker s = Some r -> length r < length s.
Proof.
  unfold page_marker.
  intros (r1 & H1%strip_prefix_length & H)%bind_Some.
  apply bind_Some in H as (r2 & H2%at_least_length & H).
  apply bind_Some in H as (r3 & H3%at_least_length & H).
  apply bind_Some in H as (r4 & H4%at_least_length & H).
  apply bind_Some in H as (r5 & H5%strip_prefix_length & H).
  apply bind_Some in H as (r6 & H6%at_least_length & H%at_least_length).
  simpl in *. lia.
Qed.

Lemma isolated_number_length prev s r :
  isolated_number prev s = Some r -> length r < length s.
Proof.
  unfold isolated_number. destruct (at_bol prev); [|done].
  intros (r1 & H1%at_least_length & H)%bind_Some.
  apply bind_Some in H as (r2 & H2%at_least_length & H%line_end_length).
  lia.
Qed.

(** *** The substitution loop *)

Lemma sub_loop_scan r find repl :
  (forall prev s, option_map m_rest (match_at r false prev s) = find prev s) ->
  (forall prev s rest, find prev s = Some rest -> length rest < length s) ->
  forall fuel fuel' prev s,
    length s < fuel -> length s <= fuel' ->
    sub_loop fuel r repl false prev s = replace_all fuel' find repl prev s.
Proof.
  intros Hf Hlt. induction fuel as [|fuel IH]; intros fuel' prev s H1 H2;
    [lia|].
  cbn [sub_loop]. specialize (Hf prev s).
  destruct (match_at r false prev s) as [m|] eqn:Em; simpl in Hf.
  - pose proof (Hlt _ _ _ (eq_sym Hf)) as Hm.
    destruct fuel' as [|fuel']; [lia|]. cbn [replace_all]. rewrite <- Hf.
    apply match_at_extends in Em as [_ ->].
    replace (length (m_rest m) =? length s) with false
      by (symmetry; apply Nat.eqb_neq; lia).
    f_equal. apply IH; lia.
  - destruct s as [|c s].
    + destruct fuel'; [done|]. cbn [replace_all]. by rewrite <- Hf.
    + simpl in H1, H2. destruct fuel' as [|fuel']; [lia|].
      cbn [replace_all]. rewrite <- Hf. f_equal. apply IH; lia.
Qed.

Lemma re_sub_scan r find repl s :
  (forall prev s, option_map m_rest (match_at r false prev s) = find prev s) ->
  (forall prev s rest, find prev s = Some rest -> length rest < length s) ->
  re_sub r repl s = replace_each find repl s.
Proof.
  intros Hf Hlt. unfold re_sub, replace_each.
  apply sub_loop_scan; [done|done|lia|lia].
Qed.

(** The five substitutions of [clean_text], each as a scan. *)
Definition drop_page_markers : text -> text :=
  replace_each (fun _ => page_marker) [].

Definition collapse_blank_lines : text -> text :=
  replace_each (fun _ => at_least 2 (N.eqb newline)) [newline].

Definition drop_isolated_numbers : text -> text :=
  replace_each isolated_number [].

Definition replace_non_ascii : text -> text :=
  replace_each (fun _ => at_least 1 not_ascii) [blank].

Definition collapse_whitespace : text -> text :=
  replace_each (fun _ => at_least 1 isspace) [blank].

Lemma re_sub_page_re s : re_sub page_re [] s = drop_page_markers s.
Proof.
  apply re_sub_scan; [apply match_at_page_re|].
  intros _ ? ?. apply page_marker_length.
Qed.

Lemma re_sub_repeat lo cls repl s :
  0 < lo ->
  re_sub (Repeat true lo cls) repl s =
  replace_each (fun _ => at_least lo cls) repl s.
Proof.
  intros Hlo. apply re_sub_scan; [apply match_at_repeat|].
  intros _ ? ? H%at_least_length. lia.
Qed.

Lemma re_sub_isolated_number_re s :
  re_sub isolated_number_re [] s = drop_isolated_numbers s.
Proof.
  apply re_sub_scan; [apply match_at_isolated_number_re|].
  apply isolated_number_length.
Qed.

Lemma clean_text_scans t :
  clean_text t =
  strip (collapse_whitespace (replace_non_ascii (drop_isolated_numbers
    (collapse_blank_lines (drop_page_markers t))))).
Proof.
  unfold clean_text, blank_lines_re, non_ascii_re, whitespace_re, plus.
  rewrite re_sub_page_re, (re_sub_repeat 2), re_sub_isolated_number_re,
    !(re_sub_repeat 1) by lia.
  done.
Qed.

Definition scenario : text :=
  codes "Page 1 of 2" ++ [newline]
    ++ codes "Section 2 - Definitions: ..."
    ++ [newline; newline; newline] ++ codes "Page 2 of 2".

(** C8.  [clean_text] is the composition, in this order, of: removing
    every page marker ("Page", digits, "of", digits); replacing every run
    of two or more line breaks by one; removing every line that holds only
    digits; replacing every run of non-ASCII characters by one blank;
    replacing every run of white space by one blank; and trimming white
    space at both ends.  Each step works on the text the step before
    left.  On the scenario of the specification the result is the
    section line alone: it holds no "Page" and no line break. *)
Theorem clean_text_steps :
  (forall t,
     clean_text t =
     strip (collapse_whitespace (replace_non_ascii (drop_isolated_numbers
       (collapse_blank_lines (drop_page_markers t))))))
  /\ clean_text scenario = codes "Section 2 - Definitions: ..."
  /\ is_substring (codes "Page") (clean_text scenario) = false
  /\ re_search page_re (clean_text scenario) = None
  /\ newline ∉ clean_text scenario.
Proof.
  split; [apply clean_text_scans|].
  assert (clean_text scenario = codes "Section 2 - Definitions: ...") as ->
    by (by vm_compute).
  split; [done|]. split; [by vm_compute|]. split; [by vm_compute|].
  vm_compute. intros H. repeat (apply elem_of_cons in H as [H|H]; [done|]).
  by apply elem_of_nil in H.
Qed.

(** *** Collapsing is squeezing *)

Lemma squeeze_run cls b s r :
  at_least 0 cls s = Some r -> squeeze cls b true s = squeeze cls b false r.
Proof.
  induction s as [|c s IH]; simpl.
  - by intros [= <-].
  - destruct (cls c) eqn:E; [done|]. intros [= <-]. simpl. by rewrite E.
Qed.

Lemma replace_all_squeeze cls b : forall fuel prev s,
  length s <= fuel ->
  replace_all fuel (fun _ => at_least 1 cls) [b] prev s =
  squeeze cls b false s.
Proof.
  induction fuel as [|fuel IH]; intros prev [|c s] Hl; simpl in *;
    try done; try lia.
  destruct (cls c) eqn:Ec.
  - destruct (at_least_0 cls s) as [r Hr]. rewrite Hr. simpl.
    rewrite (squeeze_run _ _ _ _ Hr). f_equal. apply IH.
    apply at_least_length in Hr. lia.
  - f_equal. apply IH. lia.
Qed.

Lemma replace_all_squeeze_lines : forall fuel prev s,
  length s <= fuel ->
  replace_all fuel (fun _ => at_least 2 (N.eqb newline)) [newline] prev s =
  squeeze (N.eqb newline) newline false s.
Proof.
  induction fuel as [|fuel IH]; intros prev [|c s] Hl;
    cbn [length] in Hl; try done; try lia.
  cbn [replace_all at_least squeeze pred].
  destruct (N.eqb_spec newline c) as [<-|Hc].
  - destruct s as [|c' s]; cbn [at_least squeeze pred].
    + by destruct fuel.
    + destruct (N.eqb_spec newline c') as [<-|Hc'].
      * destruct (at_least_0 (N.eqb newline) s) as [r Hr]. rewrite Hr.
        rewrite (squeeze_run _ _ _ _ Hr). cbn [app]. f_equal. apply IH.
        apply at_least_length in Hr. cbn [length] in Hl. lia.
      * f_equal. rewrite IH by lia. cbn [squeeze].
        by destruct (N.eqb_spec newline c').
  - f_equal. apply IH. lia.
Qed.

Lemma collapse_blank_lines_squeeze s :
  collapse_blank_lines s = squeeze (N.eqb newline) newline false s.
Proof. by apply replace_all_squeeze_lines. Qed.

Lemma replace_non_ascii_squeeze s :
  replace_non_ascii s = squeeze not_ascii blank false s.
Proof. by apply replace_all_squeeze. Qed.

Lemma collapse_whitespace_squeeze s :
  collapse_whitespace s = squeeze isspace blank false s.
Proof. by apply replace_all_squeeze. Qed.

(** *** The form of the result *)

Lemma lstrip_snoc l c :
  lstrip (l ++ [c]) =
  match lstrip l with [] => lstrip [c] | r => r ++ [c] end.
Proof.
  induction l as [|a l IH]; [done|]. simpl. by destruct (isspace a).
Qed.

Lemma rev_lstrip_rev s : rev (lstrip (rev s)) = rstrip s.
Proof.
  induction s as [|c s IH]; [done|]. simpl rev. rewrite lstrip_snoc.
  simpl rstrip. rewrite <- IH. destruct (lstrip (rev s)) as [|a l].
  - simpl. by destruct (isspace c).
  - rewrite rev_app_distr. simpl. by destruct (rev l ++ [a]) eqn:E;
      [destruct (rev l)|].
Qed.

Lemma strip_rstrip s : strip s = rstrip (lstrip s).
Proof. unfold strip. apply rev_lstrip_rev. Qed.

Lemma squeeze_ascii in_run s :
  Forall (fun c => is_ascii c = true) (squeeze not_ascii blank in_run s).
Proof.
  revert in_run. induction s as [|c s IH]; intros in_run; simpl; [done|].
  unfold not_ascii at 1. destruct (is_ascii c) eqn:E; simpl.
  - by constructor.
  - destruct in_run; [done|]. by constructor.
Qed.

Lemma squeeze_spaced in_run s :
  Forall (fun c => is_ascii c = true) s ->
  spaced false in_run (squeeze isspace blank in_run s) = true.
Proof.
  intros H. revert in_run. induction H as [|c s Hc _ IH]; intros in_run;
    simpl; [done|].
  destruct (isspace c) eqn:E.
  - destruct in_run; [done|]. simpl. apply IH.
  - simpl. rewrite Hc, E. apply IH.
Qed.

Lemma lstrip_spaced ab s :
  spaced false ab s = true -> spaced false true (lstrip s) = true.
Proof.
  revert ab. induction s as [|c s IH]; intros ab; simpl; [done|].
  destruct (isspace c) eqn:E.
  - intros (_ & (_ & H)%andb_true_iff)%andb_true_iff. by apply IH in H.
  - simpl. by rewrite E.
Qed.

Lemma rstrip_cons c s :
  rstrip s <> [] -> rstrip (c :: s) = c :: rstrip s.
Proof. cbn [rstrip]. by destruct (rstrip s). Qed.

Lemma rstrip_spaced ab s :
  spaced false ab s = true -> rstrip s <> [] ->
  spaced true ab (rstrip s) = true.
Proof.
  revert ab. induction s as [|c s IH]; intros ab; [done|].
  cbn [spaced]. intros (Hc & H)%andb_true_iff Hne.
  destruct (decide (rstrip s = [])) as [Er|Er].
  - cbn [rstrip] in *. rewrite Er in *.
    destruct (isspace c) eqn:E; [done|]. cbn [spaced]. by rewrite Hc, E.
  - rewrite rstrip_cons by done. cbn [spaced]. rewrite Hc.
    destruct (isspace c).
    + apply andb_true_iff in H as [-> H]. by apply IH.
    + by apply IH.
Qed.

Lemma strip_tidy s : spaced false false s = true -> tidy (strip s) = true.
Proof.
  intros H%lstrip_spaced. rewrite strip_rstrip.
  pose proof (rstrip_spaced _ _ H) as Hr.
  destruct (rstrip (lstrip s)); [done|]. by apply Hr.
Qed.

Lemma clean_text_tidy t : tidy (clean_text t) = true.
Proof.
  rewrite clean_text_scans, collapse_whitespace_squeeze,
    replace_non_ascii_squeeze.
  apply strip_tidy, squeeze_spaced, squeeze_ascii.
Qed.

(** *** Texts the cleaning leaves alone *)

Lemma sub_loop_none r repl : forall s fuel prev,
  search_from r prev s = None -> sub_loop fuel r repl false prev s = s.
Proof.
  induction s as [|c s IH]; intros [|fuel] prev; simpl; try done.
  - by destruct (match_at r false prev []).
  - destruct (match_at r false prev (c :: s)); [done|].
    intros H. f_equal. by apply IH.
Qed.

Lemma re_sub_none r repl s : re_search r s = None -> re_sub r repl s = s.
Proof. apply sub_loop_none. Qed.

Lemma squeeze_none cls b in_run s :
  Forall (fun c => cls c = false) s -> squeeze cls b in_run s = s.
Proof.
  intros H. revert in_run. induction H as [|c s Hc _ IH]; intros in_run;
    simpl; [done|].
  rewrite Hc. f_equal. apply IH.
Qed.

Lemma spaced_chars cl ab s :
  spaced cl ab s = true ->
  Forall (fun c => is_ascii c = true /\ (isspace c = true -> c = blank)) s.
Proof.
  revert ab. induction s as [|c s IH]; intros ab; cbn [spaced squeeze rstrip]; [done|].
  intros (Hc & H)%andb_true_iff. destruct (isspace c) eqn:E.
  - apply andb_true_iff in H as [[Hb%N.eqb_eq _]%andb_true_iff H].
    constructor; [done|]. by apply IH in H.
  - constructor; [|by apply IH in H]. split; [done|congruence].
Qed.

Lemma spaced_squeeze cl ab s :
  spaced cl ab s = true -> squeeze isspace blank ab s = s.
Proof.
  revert ab. induction s as [|c s IH]; intros ab; cbn [spaced squeeze rstrip]; [done|].
  intros (Hc & H)%andb_true_iff. destruct (isspace c) eqn:E.
  - apply andb_true_iff in H as [[Hb%N.eqb_eq Hab%negb_true_iff]%andb_true_iff H].
    subst ab c. f_equal. by apply IH.
  - f_equal. by apply IH.
Qed.

Lemma spaced_rstrip ab s :
  spaced true ab s = true -> rstrip s = s.
Proof.
  revert ab. induction s as [|c s IH]; intros ab; cbn [spaced squeeze rstrip]; [done|].
  intros (Hc & H)%andb_true_iff. destruct (isspace c) eqn:E.
  - apply andb_true_iff in H as [_ H]. rewrite (IH _ H).
    destruct s; [done|done].
  - rewrite (IH _ H). by destruct s.
Qed.

Lemma tidy_strip s : tidy s = true -> strip s = s.
Proof.
  rewrite strip_rstrip. destruct s as [|c s]; [done|]. intros H.
  assert (lstrip (c :: s) = c :: s) as ->.
  { simpl in *. apply andb_true_iff in H as [_ H].
    destruct (isspace c); [|done]. by rewrite andb_false_r in H. }
  by apply spaced_rstrip in H.
Qed.

Lemma tidy_chars s :
  tidy s = true ->
  Forall (fun c => is_ascii c = true /\ (isspace c = true -> c = blank)) s.
Proof. destruct s; [done|]. apply spaced_chars. Qed.

Lemma tidy_squeeze s : tidy s = true -> squeeze isspace blank false s = s.
Proof.
  destruct s as [|c s]; [done|]. intros H.
  pose proof (spaced_squeeze _ _ _ H) as Hs. simpl in *.
  apply andb_true_iff in H as [_ H].
  destruct (isspace c); [by rewrite andb_false_r in H|done].
Qed.

Lemma tidy_no_newline s :
  tidy s = true -> Forall (fun c => (newline =? c)%N = false) s.
Proof.
  intros H%tidy_chars. eapply Forall_impl; [exact H|].
  intros c [_ Hc]. apply N.eqb_neq. intros <-.
  by specialize (Hc eq_refl).
Qed.

Lemma tidy_ascii s :
  tidy s = true -> Forall (fun c => not_ascii c = false) s.
Proof.
  intros H%tidy_chars. eapply Forall_impl; [exact H|].
  intros c [Hc _]. unfold not_ascii. by rewrite Hc.
Qed.

(** A tidy text without an occurrence of the two removal patterns is
    returned as it is. *)
Lemma clean_text_fixed u :
  tidy u = true ->
  re_search page_re u = None ->
  re_search isolated_number_re u = None ->
  clean_text u = u.
Proof.
  intros Ht Hp Hn. unfold clean_text.
  rewrite (re_sub_none page_re) by done.
  unfold blank_lines_re, non_ascii_re, whitespace_re, plus.
  rewrite (re_sub_repeat 2) by lia.
  fold collapse_blank_lines. rewrite collapse_blank_lines_squeeze.
  rewrite squeeze_none by by apply tidy_no_newline.
  rewrite (re_sub_none isolated_number_re) by done.
  rewrite !(re_sub_repeat 1) by lia.
  fold (replace_non_ascii u). rewrite replace_non_ascii_squeeze.
  rewrite squeeze_none by by apply tidy_ascii.
  fold (collapse_whitespace u). rewrite collapse_whitespace_squeeze.
  rewrite tidy_squeeze by done. by apply tidy_strip.
Qed.

(** *** Lengths *)

Lemma replace_all_length find repl :
  (forall prev s rest, find prev s = Some rest -> length rest < length s) ->
  length repl <= 1 ->
  forall fuel prev s, length (replace_all fuel find repl prev s) <= length s.
Proof.
  intros Hlt Hr. induction fuel as [|fuel IH]; intros prev s; [done|].
  cbn [replace_all]. destruct (find prev s) as [rest|] eqn:E.
  - apply Hlt in E. rewrite length_app. specialize (IH (last_prev prev
      (taken s rest)) rest). lia.
  - destruct s as [|c s]; [done|]. cbn [length]. specialize (IH (Some c) s).
    lia.
Qed.

Lemma replace_all_shrinks r find :
  (forall prev s, option_map m_rest (match_at r false prev s) = find prev s) ->
  (forall prev s rest, find prev s = Some rest -> length rest < length s) ->
  forall fuel prev s,
    length s <= fuel -> search_from r prev s <> None ->
    length (replace_all fuel find [] prev s) < length s.
Proof.
  intros Hf Hlt. induction fuel as [|fuel IH]; intros prev s Hl Hs.
  - destruct s as [|c s]; [|simpl in Hl; lia]. exfalso. apply Hs.
    simpl. specialize (Hf prev []).
    destruct (match_at r false prev []); [|done].
    symmetry in Hf. apply Hlt in Hf. simpl in Hf. lia.
  - cbn [replace_all]. specialize (Hf prev s).
    destruct (find prev s) as [rest|] eqn:E.
    + apply Hlt in E. cbn [app].
      pose proof (replace_all_length find [] Hlt (Nat.le_0_l _) fuel
        (last_prev prev (taken s rest)) rest). lia.
    + destruct (match_at r false prev s) eqn:Em; [done|].
      destruct s as [|c s]; simpl in Hs; rewrite Em in Hs; [done|].
      cbn [length] in *. apply IH in Hs; lia.
Qed.

Lemma lstrip_length s : length (lstrip s) <= length s.
Proof.
  induction s as [|c s IH]; simpl; [done|]. destruct (isspace c); simpl; lia.
Qed.

Lemma strip_length s : length (strip s) <= length s.
Proof.
  unfold strip. rewrite length_rev.
  etrans; [apply lstrip_length|]. rewrite length_rev. apply lstrip_length.
Qed.

Lemma drop_page_markers_length s :
  length (drop_page_markers s) <= length s.
Proof.
  apply replace_all_length; [|simpl; lia].
  intros _ ? ?. apply page_marker_length.
Qed.

Lemma drop_isolated_numbers_length s :
  length (drop_isolated_numbers s) <= length s.
Proof.
  apply replace_all_length; [|simpl; lia]. apply isolated_number_length.
Qed.

Lemma replace_runs_length lo cls b s :
  0 < lo ->
  length (replace_each (fun _ => at_least lo cls) [b] s) <= length s.
Proof.
  intros Hlo. apply replace_all_length; [|done].
  intros _ ? ? H%at_least_length. lia.
Qed.

Lemma clean_text_after_numbers t :
  length (clean_text t) <=
  length (drop_isolated_numbers (collapse_blank_lines (drop_page_markers t))).
Proof.
  rewrite clean_text_scans. etrans; [apply strip_length|].
  etrans; [apply (replace_runs_length 1); lia|].
  apply (replace_runs_length 1); lia.
Qed.

(** A tidy text with an occurrence of one of the two removal patterns
    comes back shorter. *)
Lemma clean_text_shrinks u :
  tidy u = true ->
  re_search page_re u <> None \/ re_search isolated_number_re u <> None ->
  length (clean_text u) < length u.
Proof.
  intros Ht Hm.
  pose proof (clean_text_after_numbers u) as H3.
  pose proof (drop_isolated_numbers_length
    (collapse_blank_lines (drop_page_markers u))) as H2.
  pose proof (replace_runs_length 2 (N.eqb newline) newline
    (drop_page_markers u) (Nat.lt_0_succ _)) as H1.
  fold (collapse_blank_lines (drop_page_markers u)) in H1.
  destruct (re_search page_re u) eqn:Hp.
  - assert (length (drop_page_markers u) < length u); [|lia].
    apply (replace_all_shrinks page_re); [apply match_at_page_re| |done|].
    + intros _ ? ?. apply page_marker_length.
    + unfold re_search in Hp. by rewrite Hp.
  - destruct Hm as [|Hn]; [done|].
    assert (drop_page_markers u = u) as Hu.
    { rewrite <- re_sub_page_re. by apply re_sub_none. }
    rewrite Hu in *. clear H1.
    assert (collapse_blank_lines u = u) as Hv.
    { rewrite collapse_blank_lines_squeeze. apply squeeze_none.
      by apply tidy_no_newline. }
    rewrite Hv in *.
    assert (length (drop_isolated_numbers u) < length u); [|lia].
    apply (replace_all_shrinks isolated_number_re);
      [apply match_at_isolated_number_re|apply isolated_number_length|
       done|done].
Qed.

(** *** Cleaning twice *)

(** C2, as stated, fails: removing a page marker can bring the two
    halves of another one together, which the first cleaning leaves in the
    text and the second one removes. *)
Lemma clean_text_not_idempotent :
  let t := codes "PaPage 1 of 2ge 3 of 4" in
  clean_text t = codes "Page 3 of 4"
  /\ clean_text (clean_text t) = []
  /\ clean_text (clean_text t) <> clean_text t.
Proof.
  assert (clean_text (codes "PaPage 1 of 2ge 3 of 4") = codes "Page 3 of 4")
    as E by (by vm_compute).
  cbv zeta. rewrite E. split; [done|]. by split; vm_compute.
Qed.

(** C2, amended.  Cleaning a cleaned text changes nothing exactly when the
    cleaned text holds no page marker (no occurrence of "Page", digits,
    "of", digits) and no line of digits only; for every other text the
    second cleaning returns a shorter text. *)
Theorem clean_text_twice t :
  (clean_text (clean_text t) = clean_text t <->
   re_search page_re (clean_text t) = None
   /\ re_search isolated_number_re (clean_text t) = None)
  /\ (clean_text (clean_text t) <> clean_text t ->
      length (clean_text (clean_text t)) < length (clean_text t)).
Proof.
  pose proof (clean_text_tidy t) as Ht.
  pose proof (clean_text_shrinks (clean_text t) Ht) as Hshort.
  pose proof (clean_text_fixed (clean_text t) Ht) as Hfix.
  destruct (re_search page_re (clean_text t)) as [m|] eqn:Hp.
  { assert (Some m <> None) as Hm by done.
    specialize (Hshort (or_introl Hm)). split; [|done].
    split; [|by intros [? _]]. intros E. rewrite E in Hshort. lia. }
  destruct (re_search isolated_number_re (clean_text t)) as [m|] eqn:Hn.
  { assert (Some m <> None) as Hm by done.
    specialize (Hshort (or_intror Hm)). split; [|done].
    split; [|by intros [_ ?]]. intros E. rewrite E in Hshort. lia. }
  split; [split; [done|intros _; by apply Hfix]|].
  intros Hne. destruct Hne. by apply Hfix.
Qed.

Lemma clean_text_twice_witness :
  clean_text (clean_text (codes "Section  2 "))
  = clean_text (codes "Section  2 ").
Proof.
  apply (proj2 (proj1 (clean_text_twice (codes "Section  2 ")))).
  split; vm_compute; reflexivity.
Defined.

End cleaning.


(* ===================================================================== *)
(** ** More on text cleaning and chunking *)
(* ===================================================================== *)

Section text_utils_more.


(** X2.  [clean_text] never returns a text longer than its input. *)
Theorem clean_text_never_longer (t : text) :
  length (clean_text t) <= length t.
Proof.
  etrans; [apply clean_text_after_numbers|].
  etrans; [apply drop_isolated_numbers_length|].
  etrans; [apply (replace_runs_length 2); lia|].
  apply drop_page_markers_length.
Qed.

(** X3.  The texts [clean_text] returns unchanged are exactly the texts
    in normal form that hold no page marker and no line of digits only;
    every other text in normal form comes back shorter. *)
Theorem clean_text_fixed_points (u : text) :
  (clean_text u = u <->
   tidy u = true
   /\ re_search page_re u = None
   /\ re_search isolated_number_re u = None)
  /\ (tidy u = true -> clean_text u <> u -> length (clean_text u) < length u).
Proof.
  assert (Hshrink : tidy u = true -> clean_text u <> u ->
                    length (clean_text u) < length u).
  { intros Ht Hne. apply clean_text_shrinks; [done|].
    destruct (re_search page_re u) eqn:Hp; [by left|].
    destruct (re_search isolated_number_re u) eqn:Hn; [by right|].
    exfalso. apply Hne. by apply clean_text_fixed. }
  split; [|done]. split.
  - intros E. assert (Ht : tidy u = true) by (rewrite <- E; apply clean_text_tidy).
    split; [done|].
    destruct (re_search page_re u) eqn:Hp.
    + assert (length (clean_text u) < length u); [|rewrite E in *; lia].
      apply clean_text_shrinks; [done|]. left. by rewrite Hp.
    + split; [done|]. destruct (re_search isolated_number_re u) eqn:Hn; [|done].
      assert (length (clean_text u) < length u); [|rewrite E in *; lia].
      apply clean_text_shrinks; [done|]. right. by rewrite Hn.
  - intros (Ht & Hp & Hn). by apply clean_text_fixed.
Qed.

(** X4.  A chunk size that is not positive does not split anything: size
    0 raises (the ValueError of [range]), and a negative size returns the
    empty list whatever the text, so the text is dropped silently. *)
Theorem chunk_text_bad_size (t : text) (size : Z) :
  (size <= 0)%Z ->
  chunk_text t size = if (size =? 0)%Z then None else Some [].
Proof.
  intros Hs. unfold chunk_text, py_range.
  destruct (Z.eqb_spec size 0) as [->|Hne]; [done|].
  destruct (Z.ltb_spec 0 size); [lia|].
  replace (Z.to_nat _) with 0; [done|].
  symmetry.
  assert ((0 - Z.of_nat (length t) - size - 1) / - size <= 0)%Z; [|lia].
  destruct (Z.of_nat (length t)) eqn:E; try lia.
  - rewrite Z.div_small by lia. lia.
  - apply Z.lt_succ_r. apply Z.div_lt_upper_bound; lia.
Qed.

Lemma chunk_text_bad_size_witness :
  chunk_text (codes "An Act") (-3) = Some [].
Proof. apply (chunk_text_bad_size (codes "An Act") (-3)). lia. Defined.

End text_utils_more.

(* ===================================================================== *)
(** ** More on the model calls *)
(* ===================================================================== *)

Section model_calls.
Import summarizer agent.

(** X5.  Whenever [apply_rule_checks] returns, it returns a list: the
    list the answer of the model parsed to, or the six default checks.  A
    parsed value of another type is never returned. *)
Theorem apply_rule_checks_list (e : env) (t : text) (w : world) (v : json) :
  result_of (rule_checker.apply_rule_checks e t) w = Ok v ->
  is_list v = true
  /\ (v = rule_checker._create_default_rule_checks
      \/ exists response,
           generate_content e (trace w) (rule_checker.rules_prompt t)
           = Some response
           /\ json_loads (interpreter e) (rule_response_text response)
              = Done v).
Proof.
  unfold result_of. rewrite run_apply_rule_checks. cbn [fst].
  destruct (generate_content e (trace w) _) as [response|]; [|done].
  unfold rule_checker.rule_checks_of_response.
  fold (rule_response_text response).
  destruct (json_loads _ _) as [result| |] eqn:Hl; [| |done].
  - destruct (is_list result) eqn:E; intros [= <-].
    + split; [done|]. right. by exists response.
    + split; [done|]. by left.
  - intros [= <-]. split; [done|]. by left.
Qed.

(** The theorem at a model that answers with a JSON object. *)
Lemma apply_rule_checks_list_witness :
  exists v,
    result_of
      (rule_checker.apply_rule_checks
         (Env (fun _ => None) (fun _ _ => Some (codes "{}")) default_limits)
         (codes "An Act"))
      (World ∅ []) = Ok v
    /\ is_list v = true.
Proof.
  eexists. split; [vm_compute; reflexivity|].
  eapply (apply_rule_checks_list
            (Env (fun _ => None) (fun _ _ => Some (codes "{}"))
               default_limits)
            (codes "An Act") (World ∅ [])).
  vm_compute. reflexivity.
Defined.

(** The model calls of [summarize_chunks], answered or not. *)
Definition chunk_calls (chunks : list text) (answers : list (option text))
    : list event :=
  zip_with (fun c a => EvLLM (summarize_prompt c) a) chunks answers.

(** X6.  [summarize_chunks] calls the model once per chunk, in order, and
    stops at the first call that fails: then it raises, the summaries
    obtained so far are lost, and no later chunk is sent.  It touches no
    file. *)
Theorem summarize_chunks_calls (e : env) (chunks : list text) (w : world) :
  fs (world_after (summarize_chunks e chunks) w) = fs w
  /\ exists answers,
       trace (world_after (summarize_chunks e chunks) w)
       = trace w ++ chunk_calls chunks answers
       /\ match result_of (summarize_chunks e chunks) w with
          | Ok summaries =>
              answers = map Some summaries
              /\ length summaries = length chunks
          | Raised =>
              exists got, answers = map Some got ++ [None]
                          /\ length got < length chunks
          end.
Proof.
  unfold world_after, result_of. revert w.
  induction chunks as [|c chunks IH]; intros w.
  - split; [done|]. exists []. split; [by rewrite app_nil_r|done].
  - cbn [summarize_chunks]. rewrite run_bind.
    unfold summarize_chunk. rewrite run_call_model.
    destruct (generate_content e (trace w) (summarize_prompt c)) as [s|].
    + rewrite run_bind.
      set (w1 := World (fs w) _).
      destruct (IH w1) as (Hfs & answers & Htr & Hres).
      destruct (summarize_chunks e chunks w1) as [[ss|] w2];
        cbn [fst snd ret mret M_ret] in *.
      * split; [done|]. exists (Some s :: answers). split.
        { rewrite Htr. subst w1. cbn [trace chunk_calls zip_with].
          by rewrite <- app_assoc. }
        destruct Hres as [-> Hlen]. cbn [map length]. by rewrite Hlen.
      * split; [done|]. exists (Some s :: answers). split.
        { rewrite Htr. subst w1. cbn [trace chunk_calls zip_with].
          by rewrite <- app_assoc. }
        destruct Hres as (got & -> & Hlen). exists (s :: got).
        split; [done|]. cbn [length]. lia.
    + cbn [fst snd fs trace]. split; [done|]. exists [None].
      split; [unfold chunk_calls; cbn [zip_with]; by destruct chunks|].
      exists []. split; [done|]. cbn [length]. lia.
Qed.

End model_calls.

(* ===================================================================== *)
(** ** The files a run leaves *)
(* ===================================================================== *)

Section files_of_a_run.
Import summarizer agent.

Lemma call_model_fs e prompt w : fs (call_model e prompt w).2 = fs w.
Proof. by rewrite run_call_model. Qed.

Lemma summarize_chunks_fs e chunks : forall w,
  fs (summarize_chunks e chunks w).2 = fs w.
Proof.
  induction chunks as [|c chunks IH]; intros w; [done|].
  cbn [summarize_chunks]. rewrite run_bind.
  unfold summarize_chunk. rewrite run_call_model.
  destruct (generate_content e (trace w) (summarize_prompt c)); [|done].
  rewrite run_bind. set (w1 := World (fs w) _). specialize (IH w1).
  by destruct (summarize_chunks e chunks w1) as [[ss|] w2].
Qed.

(** The steps after summarisation write the output file last, and only
    when every step before it went through. *)
Lemma after_summaries_files e cleaned output_path v w :
  match after_summaries e cleaned output_path v w with
  | (Ok res, w') =>
      r_chunk_summaries res = v
      /\ fs w' = <[output_path :=
                    File (result_document (r_summary res) (r_sections res)
                            (r_rule_checks res))]> (fs w)
  | (Raised, w') => fs w' = fs w
  end.
Proof.
  unfold after_summaries. rewrite run_bind.
  assert (H1 : fs (combine_summaries e v w).2 = fs w).
  { unfold combine_summaries. destruct (py_join _ v); [|done].
    apply call_model_fs. }
  destruct (combine_summaries e v w) as [[s|] w1]; cbn [snd] in H1; [|done].
  rewrite run_bind, run_extract_sections.
  destruct (match generate_content e (trace w1) _ with
            | Some r => _ | None => _ end) as [x|]; [|done].
  rewrite run_bind, run_apply_rule_checks. cbn [fs trace].
  destruct (match generate_content e _ _ with
            | Some r => _ | None => _ end) as [y|]; [|done].
  rewrite run_bind.
  unfold json_exporter.export_json. rewrite run_write_file. cbn [fs trace].
  destruct (fs w1 !! output_path) as [[c|]|];
    cbn [snd fs r_summary r_sections r_rule_checks r_chunk_summaries];
    rewrite ?H1; done.
Qed.

(** A run that cannot read the PDF stops there. *)
Lemma process_legislation_no_pdf e pdf_path output_path w :
  pdf_text e pdf_path = None ->
  process_legislation e pdf_path output_path w
  = (Raised, World (fs w) (trace w ++ [EvPdf pdf_path])).
Proof.
  intros Hpdf. unfold process_legislation. rewrite run_bind.
  unfold extract_text. rewrite run_bind. unfold log. by rewrite Hpdf.
Qed.



(** X8.  A cache file whose list holds a value that is not a string is
    accepted by the load and then makes the run fail at the combination
    of the summaries: the run raises right after the PDF is read, calls
    the model not once and writes nothing. *)
Theorem process_legislation_bad_cache (e : env)
    (pdf_path output_path : string) (w : world) (raw : text)
    (l : list json) :
  pdf_text e pdf_path = Some raw ->
  load_from (fs w) cache_path = Some (JList l) ->
  all_strings l = None ->
  process_legislation e pdf_path output_path w
  = (Raised, World (fs w) (trace w ++ [EvPdf pdf_path])).
Proof.
  intros Hpdf Hload Hl.
  destruct (chunk_text_default (clean_text raw)) as [chunks Hchunks].
  rewrite (process_legislation_run _ _ _ _ _ _ Hpdf Hchunks). cbv zeta.
  rewrite Hload. unfold after_summaries. rewrite run_bind.
  unfold combine_summaries, py_join. by rewrite Hl.
Qed.

(** A cache file that holds the list [1]. *)
Definition number_cache : text :=
  codes "{" ++ q "chunk_summaries" ++ codes ": [1]}".

Lemma process_legislation_bad_cache_witness :
  process_legislation short_act_env "act.pdf" "out.json"
    (World {[ cache_path := File number_cache ]} [])
  = (Raised,
     World {[ cache_path := File number_cache ]} [EvPdf "act.pdf"]).
Proof.
  pose proof (process_legislation_bad_cache short_act_env "act.pdf"
                "out.json" (World {[ cache_path := File number_cache ]} [])
                (codes "Short Act") [JInt 1]) as H.
  cbn [fs trace app] in H. apply H.
  - reflexivity.
  - vm_compute. reflexivity.
  - reflexivity.
Defined.

(** X9.  The chunk summaries are saved before the later model calls are
    made: once every chunk is summarised and the cache path can be
    written, the cache file holds the new summaries at the end of the run
    whether the later steps go through or raise. *)
Theorem process_legislation_saves_summaries (e : env)
    (pdf_path output_path : string) (w : world) (raw : text)
    (chunks summaries : list text) :
  pdf_text e pdf_path = Some raw ->
  chunk_text (clean_text raw) default_chunk_size = Some chunks ->
  load_from (fs w) cache_path = None ->
  result_of (summarize_chunks e chunks)
    (World (fs w) (trace w ++ [EvPdf pdf_path])) = Ok summaries ->
  fs w !! cache_path <> Some Unreadable ->
  output_path <> cache_path ->
  fs (world_after (process_legislation e pdf_path output_path) w)
    !! cache_path
  = Some (File (dumps (JDict [(cache_key, JList (map JStr summaries))]))).
Proof.
  intros Hpdf Hchunks Hload Hsum Hfile Hne. unfold world_after, result_of in *.
  rewrite (process_legislation_run _ _ _ _ _ _ Hpdf Hchunks). cbv zeta.
  rewrite Hload, run_bind.
  set (w1 := World (fs w) (trace w ++ [EvPdf pdf_path])) in *.
  pose proof (summarize_chunks_fs e chunks w1) as Hs.
  destruct (summarize_chunks e chunks w1) as [[ss|] w2]; [|done].
  cbn [fst snd] in *. injection Hsum as ->.
  rewrite run_bind. unfold json_exporter.export_chunk_summaries.
  rewrite run_write_file, Hs. subst w1. cbn [fs].
  destruct (fs w !! cache_path) as [[c|]|] eqn:Hc; [|done|].
  all: match goal with
       | |- context [after_summaries _ _ _ ?v ?w3] =>
           pose proof (after_summaries_files e (clean_text raw)
                         output_path v w3) as H;
           destruct (after_summaries e (clean_text raw) output_path v w3)
             as [[res|] w4]; cbn [fst snd fs] in *
       end.
  all: lazymatch type of H with
       | _ /\ _ => destruct H as [_ ->];
                   by rewrite lookup_insert_ne, lookup_insert_eq
       | _ => by rewrite H, lookup_insert_eq
       end.
Qed.

(** A model that answers the first call and fails from then on. *)
Definition one_answer_env : env :=
  Env (fun _ => Some (codes "Short Act"))
      (fun before _ =>
         match before with
         | [_] => Some (codes "s")
         | _ => None
         end)
      default_limits.

(** The theorem at a run that raises at the combination. *)
Lemma process_legislation_saves_summaries_witness :
  result_of (process_legislation one_answer_env "act.pdf" "out.json")
    (World ∅ []) = Raised
  /\ fs (world_after (process_legislation one_answer_env "act.pdf" "out.json")
           (World ∅ [])) !! cache_path
     = Some (File (dumps (JDict [(cache_key, JList [JStr (codes "s")])]))).
Proof.
  split; [vm_compute; reflexivity|].
  apply (process_legislation_saves_summaries one_answer_env "act.pdf"
           "out.json" (World ∅ []) (codes "Short Act") [codes "Short Act"]
           [codes "s"]).
  - reflexivity.
  - vm_compute. reflexivity.
  - reflexivity.
  - vm_compute. reflexivity.
  - cbn [fs]. by rewrite lookup_empty.
  - done.
Defined.

End files_of_a_run.


(* ===================================================================== *)
(** ** Code fences in the answers of the model *)
(* ===================================================================== *)

Section code_fence.

(** The three backticks that open and close a fenced block. *)
Definition fence : text := codes "```".








(** *** A fenced block *)

(** What a match leaves: the text after it and the captured group. *)
Definition outcome_of (m : option mstate) : option (text * option text) :=
  option_map (fun m => (m_rest m, m_grp m)) m.

(** [\s*```], the end of both patterns. *)
Definition closing : regex :=
  Cat (star isspace) (Cat (lits "```") Empty).

(** [op.*?cl], the body of a block. *)
Definition brackets (op cl : char) : regex :=
  seq_ [lit op; lazy_star any_char; lit cl].
Arguments brackets (op cl)%_N_scope.

(** Both patterns, up to the body. *)
Definition fenced (G : regex) : regex :=
  seq_ [lits "```"; Or (lits "json") Empty; star isspace; Group G;
        star isspace; lits "```"].

Lemma space_not_backtick c : isspace c = true -> (96 =? c)%N = false.
Proof. intros Hs%isspace_bounds. apply N.eqb_neq. lia. Qed.

Lemma strip_prefix_app w s : strip_prefix w (w ++ s) = Some s.
Proof.
  induction w as [|a w IH]; [by destruct s|]. cbn [app strip_prefix].
  by rewrite N.eqb_refl.
Qed.

Lemma at_least_0_run ws c s :
  Forall (fun x => isspace x = true) ws -> isspace c = false ->
  at_least 0 isspace (ws ++ c :: s) = Some (c :: s).
Proof.
  intros Hws Hc. induction Hws as [|a ws Ha _ IH]; cbn [app at_least pred].
  - by rewrite Hc.
  - by rewrite Ha.
Qed.

(** Inside the body the first character that is not white space is not a
    backtick. *)
Lemma at_least_0_inside x cl tail :
  96%N ∉ x -> isspace cl = false -> cl <> 96%N ->
  exists c r, at_least 0 isspace (x ++ cl :: tail) = Some (c :: r)
              /\ (96 =? c)%N = false.
Proof.
  intros Hx Hs Hcl. induction x as [|a x IH]; cbn [app at_least pred].
  - rewrite Hs. exists cl, tail. split; [done|]. by apply N.eqb_neq.
  - apply not_elem_of_cons in Hx as [Ha Hx]. destruct (isspace a).
    + by apply IH.
    + exists a, (x ++ cl :: tail). split; [done|]. by apply N.eqb_neq.
Qed.

Lemma rmatch_cat a b st k :
  rmatch (Cat a b) st k = rmatch a st (fun st' => rmatch b st' k).
Proof. done. Qed.

Lemma rmatch_or_first a b st k res :
  rmatch a st k = Some res -> rmatch (Or a b) st k = Some res.
Proof. intros H. cbn [rmatch]. by rewrite H. Qed.

Lemma rmatch_or_second a b st k :
  rmatch a st k = None -> rmatch (Or a b) st k = rmatch b st k.
Proof. intros H. cbn [rmatch]. by rewrite H. Qed.

Section matching.
Variable k0 : cont.
Hypothesis k0_total : forall st, k0 st = Some st.

Lemma closing_run p s g :
  rmatch closing (MState p s g) k0
  = match at_least 0 isspace s with
    | Some r =>
        match strip_prefix fence r with
        | Some r' =>
            k0 (MState (last_prev (run_prev isspace p s) fence) r' g)
        | None => None
        end
    | None => None
    end.
Proof.
  unfold closing, star, lits. cbn [rmatch m_rest m_prev m_grp].
  rewrite rep_greedy_run.
  - destruct (at_least 0 isspace s); [|done]. cbn [rmatch].
    by rewrite rmatch_lits.
  - intros p' c s' Hc. cbn [rmatch]. rewrite rmatch_lits.
    change (codes "```") with [96; 96; 96]%N.
    by rewrite strip_prefix_stop by by apply space_not_backtick.
Qed.

Lemma closing_matches p g ws post :
  Forall (fun x => isspace x = true) ws ->
  outcome_of (rmatch closing (MState p (ws ++ fence ++ post) g) k0)
  = Some (post, g).
Proof using k0_total.
  intros Hws. rewrite closing_run.
  change (fence ++ post) with (96 :: 96 :: 96 :: post)%N.
  rewrite at_least_0_run by done.
  change (96 :: 96 :: 96 :: post)%N with (fence ++ post).
  by rewrite strip_prefix_app, k0_total.
Qed.

Lemma closing_fails p g x cl tail :
  96%N ∉ x -> isspace cl = false -> cl <> 96%N ->
  rmatch closing (MState p (x ++ cl :: tail) g) k0 = None.
Proof.
  intros Hx Hs Hcl. rewrite closing_run.
  destruct (at_least_0_inside x cl tail Hx Hs Hcl) as (c & r & -> & Hc).
  change fence with [96; 96; 96]%N. by rewrite strip_prefix_stop.
Qed.

(** The lazy repetition goes on to the closing bracket of the body. *)
Lemma rep_lazy_to_closing (K : cont) cl tail g res :
  (forall p y, 96%N ∉ y -> K (MState p (y ++ cl :: tail) g) = None) ->
  K (MState (Some cl) tail g) = Some res ->
  forall x prev,
    96%N ∉ x ->
    rep_lazy any_char (fun st' => rmatch (Cat (lit cl) Empty) st' K) 0 g prev
      (x ++ cl :: tail)
    = Some res.
Proof.
  intros Hin Hend. induction x as [|a x IH]; intros prev Hx;
    cbn [app rep_lazy rmatch lit m_rest m_grp].
  - by rewrite N.eqb_refl, Hend.
  - apply not_elem_of_cons in Hx as [Ha Hx].
    replace (if (cl =? a)%N then K (MState (Some a) (x ++ cl :: tail) g)
             else None) with (@None mstate)
      by (destruct (cl =? a)%N; [by rewrite Hin|done]).
    cbn [any_char]. by apply IH.
Qed.

Lemma brackets_body op cl x tail p g (K : cont) res :
  (forall p y, 96%N ∉ y -> K (MState p (y ++ cl :: tail) g) = None) ->
  K (MState (Some cl) tail g) = Some res ->
  96%N ∉ x ->
  rmatch (brackets op cl) (MState p (op :: x ++ cl :: tail) g) K = Some res.
Proof.
  intros Hin Hend Hx. unfold brackets, seq_, lazy_star.
  cbn [fold_right rmatch lit m_rest m_grp m_prev]. rewrite N.eqb_refl.
  by apply rep_lazy_to_closing.
Qed.

Lemma brackets_other op cl c s p g (K : cont) :
  (op =? c)%N = false ->
  rmatch (brackets op cl) (MState p (c :: s) g) K = None.
Proof.
  intros Hc. unfold brackets, seq_.
  cbn [fold_right rmatch lit m_rest m_grp m_prev]. by rewrite Hc.
Qed.

(** A block: the opening fence, [tag], white space, a body from [op] to
    [cl], white space, the closing fence. *)
Section block.
Variables (G : regex) (op cl : char) (x : text).
Hypothesis G_body : forall tail p g (K : cont) res,
  (forall p y, 96%N ∉ y -> K (MState p (y ++ cl :: tail) g) = None) ->
  K (MState (Some cl) tail g) = Some res ->
  rmatch G (MState p (op :: x ++ cl :: tail) g) K = Some res.
Hypothesis G_space : forall c s p g (K : cont),
  isspace c = true -> rmatch G (MState p (c :: s) g) K = None.
Hypothesis op_visible : isspace op = false.
Hypothesis op_not_j : (106 =? op)%N = false.
Hypothesis cl_visible : isspace cl = false.
Hypothesis cl_not_backtick : cl <> 96%N.

Lemma group_then_closing p g ws2 post :
  Forall (fun c => isspace c = true) ws2 ->
  outcome_of
    (rmatch (Cat (Group G) closing)
       (MState p (op :: x ++ cl :: ws2 ++ fence ++ post) g) k0)
  = Some (post, Some (op :: x ++ [cl])).
Proof using k0_total G_body cl_visible cl_not_backtick.
  intros Hws. cbn [rmatch m_rest m_prev].
  pose proof (closing_matches (Some cl)
    (Some (taken (op :: x ++ cl :: ws2 ++ fence ++ post)
             (ws2 ++ fence ++ post))) ws2 post Hws) as Hc.
  destruct (rmatch closing _ k0) as [res|] eqn:Hres; [|done].
  erewrite G_body; [| |exact Hres].
  - rewrite Hc. do 3 f_equal.
    replace (op :: x ++ cl :: ws2 ++ fence ++ post)
      with ((op :: x ++ [cl]) ++ ws2 ++ fence ++ post)
      by (by rewrite <- app_comm_cons, <- app_assoc).
    apply taken_app.
  - intros p' y Hy. cbn [m_rest m_prev]. by apply closing_fails.
Qed.

Lemma block_matches prev tag ws1 ws2 post :
  tag = [] \/ tag = codes "json" ->
  Forall (fun c => isspace c = true) ws1 ->
  Forall (fun c => isspace c = true) ws2 ->
  outcome_of
    (rmatch (fenced G)
       (MState prev
          (fence ++ tag ++ ws1 ++ op :: x ++ cl :: ws2 ++ fence ++ post)
          None) k0)
  = Some (post, Some (op :: x ++ [cl])).
Proof using All.
  intros Htag Hws1 Hws2. unfold fenced, seq_ at 1.
  cbn [fold_right]. fold closing.
  set (rest := Cat (star isspace) (Cat (Group G) closing)).
  assert (Hrest : forall p,
    outcome_of
      (rmatch rest
         (MState p (ws1 ++ op :: x ++ cl :: ws2 ++ fence ++ post) None) k0)
    = Some (post, Some (op :: x ++ [cl]))).
  { intros p. subst rest. unfold star. cbn [rmatch m_rest m_prev m_grp].
    rewrite rep_greedy_run.
    - rewrite at_least_0_run by done. by apply group_then_closing.
    - intros p' c s' Hc. cbn [rmatch]. by apply G_space. }
  rewrite rmatch_cat. unfold lits at 1. rewrite rmatch_lits. fold fence.
  rewrite strip_prefix_app, rmatch_cat.
  set (p1 := last_prev prev fence). unfold lits.
  destruct Htag as [-> | ->].
  - cbn [app]. rewrite rmatch_or_second; [apply Hrest|].
    rewrite rmatch_lits.
    replace (strip_prefix (codes "json") _) with (@None text); [done|].
    symmetry. change (codes "json") with [106; 115; 111; 110]%N.
    destruct Hws1 as [|c ws1 Hc _]; cbn [app].
    + by apply strip_prefix_stop.
    + apply strip_prefix_stop. apply isspace_bounds in Hc.
      apply N.eqb_neq. lia.
  - specialize (Hrest (last_prev p1 (codes "json"))).
    destruct (rmatch rest _ k0) as [res|] eqn:E; [|done].
    erewrite rmatch_or_first; [exact Hrest|].
    by rewrite rmatch_lits, strip_prefix_app.
Qed.

End block.
End matching.

(** The search passes over a text without backticks. *)
Lemma search_from_skips T pre S : forall prev,
  96%N ∉ pre ->
  exists p',
    search_from (Cat (seq_ (map lit fence)) T) prev (pre ++ S)
    = search_from (Cat (seq_ (map lit fence)) T) p' S.
Proof.
  induction pre as [|a pre IH]; intros prev Hpre; [by exists prev|].
  apply not_elem_of_cons in Hpre as [Ha Hpre].
  destruct (IH (Some a) Hpre) as [p' Hp']. exists p'.
  cbn [app search_from]. unfold match_at at 1. rewrite rmatch_cat, rmatch_lits.
  change fence with [96; 96; 96]%N at 1.
  by rewrite strip_prefix_stop by by apply N.eqb_neq.
Qed.

(** The first fenced block of an answer is unwrapped to its body. *)
Lemma unwrap_fence_block G op cl x pre tag ws1 ws2 post :
  (forall tail p g (K : cont) res,
     (forall p y, 96%N ∉ y -> K (MState p (y ++ cl :: tail) g) = None) ->
     K (MState (Some cl) tail g) = Some res ->
     rmatch G (MState p (op :: x ++ cl :: tail) g) K = Some res) ->
  (forall c s p g (K : cont),
     isspace c = true -> rmatch G (MState p (c :: s) g) K = None) ->
  isspace op = false -> (106 =? op)%N = false ->
  isspace cl = false -> cl <> 96%N ->
  tag = [] \/ tag = codes "json" ->
  Forall (fun c => isspace c = true) ws1 ->
  Forall (fun c => isspace c = true) ws2 ->
  96%N ∉ pre ->
  section_extractor.unwrap_fence (fenced G)
    (pre ++ fence ++ tag ++ ws1 ++ op :: x ++ cl :: ws2 ++ fence ++ post)
  = op :: x ++ [cl].
Proof.
  intros HG1 HG2 Hop Hj Hcl Hb Htag Hws1 Hws2 Hpre.
  unfold section_extractor.unwrap_fence, re_search.
  destruct (search_from_skips
              (fold_right Cat Empty
                 [Or (lits "json") Empty; star isspace; Group G;
                  star isspace; lits "```"])
              pre (fence ++ tag ++ ws1 ++ op :: x ++ cl :: ws2 ++ fence ++ post)
              None Hpre) as [p' Hs].
  change (search_from (fenced G) None
            (pre ++ fence ++ tag ++ ws1 ++ op :: x ++ cl :: ws2 ++ fence ++ post)
          = search_from (fenced G) p'
              (fence ++ tag ++ ws1 ++ op :: x ++ cl :: ws2 ++ fence ++ post))
    in Hs.
  rewrite Hs.
  pose proof (block_matches
    (fun st' => if false && (length (m_rest st') =? length
       (fence ++ tag ++ ws1 ++ op :: x ++ cl :: ws2 ++ fence ++ post))
                then None else Some st')
    (fun st => eq_refl) G op cl x HG1 HG2 Hop Hj Hcl Hb p' tag ws1 ws2 post
    Htag Hws1 Hws2) as Hm.
  change (fence ++ tag ++ ws1 ++ op :: x ++ cl :: ws2 ++ fence ++ post)
    with (96 :: 96 :: 96 :: tag ++ ws1 ++ op :: x ++ cl :: ws2 ++ fence ++ post)%N
    in *.
  cbn [search_from]. unfold match_at.
  destruct (rmatch (fenced G) _ _) as [[p r g]|]; [|done].
  by injection Hm as -> ->.
Qed.



(** X11.  When the answer of the model holds a fenced block with a JSON
    object in it (three backticks, optionally "json", the object between
    braces, three backticks, with optional white space around the object,
    and no backtick before the block or inside the object),
    [extract_sections] hands the object alone to [json.loads]: the text
    before and after the block is ignored.  It returns the parsed
    object, the empty sections when [json.loads] raises
    [JSONDecodeError] on it, and raises when [json.loads] raises another
    error. *)
Theorem extract_sections_fenced (e : env) (t : text) (w : world)
    (pre tag ws1 inner ws2 post : text) :
  tag = [] \/ tag = codes "json" ->
  Forall (fun c => isspace c = true) ws1 ->
  Forall (fun c => isspace c = true) ws2 ->
  96%N ∉ pre -> 96%N ∉ inner ->
  generate_content e (trace w) (section_extractor.sections_prompt t)
  = Some (pre ++ fence ++ tag ++ ws1 ++ 123%N :: inner ++ 125%N :: ws2
              ++ fence ++ post) ->
  result_of (section_extractor.extract_sections e t) w
  = match json_loads (interpreter e) (123%N :: inner ++ [125%N]) with
    | Done v => Ok v
    | JSONDecodeError => Ok section_extractor.empty_sections
    | LimitError => Raised
    end.
Proof.
  intros Htag Hws1 Hws2 Hpre Hin Hg.
  rewrite (extract_sections_run _ _ _ _ Hg).
  unfold section_extractor.sections_of_response.
  change section_extractor.fence_re with (fenced (brackets 123 125)).
  rewrite (unwrap_fence_block (brackets 123 125) 123%N 125%N); try done.
  - intros tail p g K res Hk Hend. by apply brackets_body.
  - intros c s p g K Hc%isspace_bounds. apply brackets_other.
    apply N.eqb_neq. lia.
Qed.

(** The theorem at the answer: fence, "json", line break, "{}", line
    break, fence. *)
Lemma extract_sections_fenced_witness :
  result_of
    (section_extractor.extract_sections
       (Env (fun _ => None)
          (fun _ _ => Some (fence ++ codes "json" ++ [newline]
                              ++ codes "{}" ++ [newline] ++ fence))
          default_limits)
       (codes "An Act"))
    (World ∅ []) = Ok (JDict []).
Proof.
  apply (extract_sections_fenced
           (Env (fun _ => None)
              (fun _ _ => Some (fence ++ codes "json" ++ [newline]
                                  ++ codes "{}" ++ [newline] ++ fence))
              default_limits)
           (codes "An Act") (World ∅ []) [] (codes "json") [newline] []
           [newline] []).
  - by right.
  - by constructor.
  - by constructor.
  - apply not_elem_of_nil.
  - apply not_elem_of_nil.
  - reflexivity.
Defined.



End code_fence.


(* ===================================================================== *)
(** ** What the cache may hold *)
(* ===================================================================== *)

Section cache_values.
Import agent.

(** X13.  The value under [chunk_summaries] is not checked to be a list
    of strings.  The load returns whatever is stored under the key when
    it has a length, that is a string, a list or an object, with elements
    of any type; null, a number or a boolean under the key counts as no
    cache, as does a file that does not parse to an object. *)
Theorem load_existing_chunk_summaries_any_sized (w : world) (path : string)
    (v : json) :
  result_of (load_existing_chunk_summaries path) w = Ok (Some v)
  <-> exists content d,
        fs w !! path = Some (File content)
        /\ loads content = Some (JDict d)
        /\ dict_get d cache_key = Some v
        /\ ((exists s, v = JStr s) \/ (exists l, v = JList l)
            \/ (exists d', v = JDict d')).
Proof.
  change (result_of (load_existing_chunk_summaries path) w)
    with (Ok (A := option json) (load_from (fs w) path)).
  split.
  - intros [= H]. destruct (load_from_Some _ _ _ H) as (content & d & Hf & Hl & Hg).
    exists content, d. repeat (split; [done|]).
    rewrite (load_from_dict _ _ _ _ _ Hf Hl Hg) in H.
    destruct v; try done; eauto.
  - intros (content & d & Hf & Hl & Hg & Hv).
    rewrite (load_from_dict _ _ _ _ _ Hf Hl Hg).
    by destruct Hv as [[s ->]|[[l ->]|[d' ->]]].
Qed.

End cache_values.

(* ===================================================================== *)
(** ** The exported documents are plain ASCII *)
(* ===================================================================== *)

Section ascii_output.

(** Every float of the value is written with ASCII characters. *)
Fixpoint ascii_floats (v : json) : bool :=
  match v with
  | JFloat lexeme => forallb is_ascii lexeme
  | JList l => forallb ascii_floats l
  | JDict d => forallb (fun kv => ascii_floats (snd kv)) d
  | _ => true
  end.

Definition ascii_text (s : text) : Prop := Forall (fun c => is_ascii c = true) s.

Lemma json_induction (P : json -> Prop) :
  P JNull -> (forall b, P (JBool b)) -> (forall z, P (JInt z)) ->
  (forall x, P (JFloat x)) -> (forall s, P (JStr s)) ->
  (forall l, Forall P l -> P (JList l)) ->
  (forall d, Forall (fun kv => P (snd kv)) d -> P (JDict d)) ->
  forall v, P v.
Proof.
  intros Hn Hb Hi Hf Hs Hl Hd. fix IH 1.
  intros [|b|z|x|s|l|d];
    [exact Hn|exact (Hb b)|exact (Hi z)|exact (Hf x)|exact (Hs s)| |].
  - apply Hl. induction l as [|x l IHl]; constructor; [apply IH|exact IHl].
  - apply Hd. induction d as [|[k x] d IHd]; constructor;
      [apply IH|exact IHd].
Qed.

Lemma ascii_text_app a b : ascii_text a -> ascii_text b -> ascii_text (a ++ b).
Proof. apply Forall_app_2. Qed.

Lemma ascii_text_codes_digits d : ascii_text (codes (NilEmpty.string_of_uint d)).
Proof.
  induction d; cbn [NilEmpty.string_of_uint codes list_ascii_of_string map];
    [constructor|constructor; [done|assumption]..].
Qed.

Lemma ascii_text_int_repr z : ascii_text (int_repr z).
Proof.
  unfold int_repr, NilZero.string_of_int.
  assert (H : forall d, ascii_text (codes (NilZero.string_of_uint d))).
  { intros d. unfold NilZero.string_of_uint.
    destruct d; try apply ascii_text_codes_digits. by repeat constructor. }
  destruct (Z.to_int z); [apply H|].
  cbn [codes list_ascii_of_string map]. constructor; [done|apply H].
Qed.

Lemma hex_digit_ascii n : (n < 16)%N -> is_ascii (hex_digit n) = true.
Proof.
  intros H. unfold hex_digit, is_ascii. apply N.leb_le.
  destruct (N.ltb_spec n 10); lia.
Qed.

Lemma ascii_text_u_escape n : ascii_text (u_escape n).
Proof.
  unfold u_escape.
  repeat (constructor; [first [done | apply hex_digit_ascii, N.mod_lt; lia]|]).
  constructor.
Qed.

Lemma ascii_text_escape_char c : ascii_text (escape_char c).
Proof.
  unfold escape_char.
  repeat (destruct (_ =? _)%N; [by repeat constructor|]).
  destruct ((32 <=? c) && (c <=? 126))%N eqn:E.
  - apply andb_true_iff in E as [_ E%N.leb_le]. constructor; [|constructor].
    apply N.leb_le. lia.
  - destruct (c <? 65536)%N; [apply ascii_text_u_escape|].
    apply ascii_text_app; apply ascii_text_u_escape.
Qed.

Lemma ascii_text_string s : ascii_text (encode_basestring_ascii s).
Proof.
  unfold encode_basestring_ascii. apply ascii_text_app; [by repeat constructor|].
  apply ascii_text_app; [|by repeat constructor].
  induction s as [|c s IH]; [constructor|]. cbn [flat_map].
  apply ascii_text_app; [apply ascii_text_escape_char|exact IH].
Qed.

Lemma ascii_text_newline_indent lvl : ascii_text (newline_indent lvl).
Proof.
  unfold newline_indent. constructor; [done|].
  induction (2 * lvl) as [|n IH]; by constructor.
Qed.

Lemma ascii_text_join sep parts :
  ascii_text sep -> Forall ascii_text parts -> ascii_text (join_with sep parts).
Proof.
  intros Hsep Hp. induction Hp as [|p ps Hp _ IH]; [constructor|].
  cbn [join_with]. destruct ps as [|q ps]; [done|].
  apply ascii_text_app; [done|]. by apply ascii_text_app.
Qed.

Lemma ascii_text_encode v : forall lvl,
  ascii_floats v = true -> ascii_text (encode lvl v).
Proof.
  induction v as [|b|z|x|s|l IH|d IH] using json_induction; intros lvl Hv.
  - by repeat constructor.
  - destruct b; by repeat constructor.
  - apply ascii_text_int_repr.
  - cbn [encode]. simpl in Hv. rewrite forallb_forall in Hv.
    apply Forall_forall. intros c Hc. apply Hv. by apply list_elem_of_In.
  - apply ascii_text_string.
  - destruct l as [|a l]; [by repeat constructor|].
    cbn [encode]. cbn [ascii_floats] in Hv.
    apply ascii_text_app; [by repeat constructor|].
    apply ascii_text_app; [apply ascii_text_newline_indent|].
    apply ascii_text_app.
    2:{ apply ascii_text_app; [apply ascii_text_newline_indent|].
        by repeat constructor. }
    apply ascii_text_join;
      [constructor; [done|apply ascii_text_newline_indent]|].
    apply Forall_map. rewrite forallb_forall in Hv.
    rewrite Forall_forall in IH |- *. intros y Hy. apply IH; [done|].
    apply Hv. by apply list_elem_of_In.
  - destruct d as [|a d]; [by repeat constructor|].
    cbn [encode]. cbn [ascii_floats] in Hv.
    apply ascii_text_app; [by repeat constructor|].
    apply ascii_text_app; [apply ascii_text_newline_indent|].
    apply ascii_text_app.
    2:{ apply ascii_text_app; [apply ascii_text_newline_indent|].
        by repeat constructor. }
    apply ascii_text_join;
      [constructor; [done|apply ascii_text_newline_indent]|].
    apply Forall_map. rewrite forallb_forall in Hv.
    rewrite Forall_forall in IH |- *. intros [k y] Hy.
    apply ascii_text_app; [apply ascii_text_string|].
    apply ascii_text_app; [by repeat constructor|].
    apply (IH _ Hy). apply (Hv (k, y)). by apply list_elem_of_In.
Qed.

(** *** Parsed values *)

Lemma is_digit_ascii c : is_digit c = true -> is_ascii c = true.
Proof.
  unfold is_digit, is_ascii. intros [_ H%N.leb_le]%andb_true_iff.
  apply N.leb_le. lia.
Qed.

Lemma span_digits_ascii s ds r :
  span_digits s = (ds, r) -> forallb is_ascii ds = true.
Proof.
  revert ds r. induction s as [|c s IH]; intros ds r; cbn [span_digits].
  - by intros [= <- <-].
  - destruct (is_digit c) eqn:E; [|by intros [= <- <-]].
    destruct (span_digits s) as [ds' r']. intros [= <- <-].
    cbn [forallb]. by rewrite (is_digit_ascii c E), (IH ds' r').
Qed.

Lemma match_integer_ascii s neg ds r :
  match_integer s = Some (neg, ds, r) -> forallb is_ascii ds = true.
Proof.
  unfold match_integer.
  assert (H : forall neg' s1,
    match s1 with
    | c :: s2 =>
        if (c =? 48)%N then Some (neg', [c], s2)
        else if is_digit c
             then let '(ds, r) := span_digits s2 in Some (neg', c :: ds, r)
             else None
    | [] => None
    end = Some (neg, ds, r) -> forallb is_ascii ds = true).
  { intros neg' [|c s2]; [done|]. destruct (N.eqb_spec c 48) as [->|_].
    - by intros [= <- <- <-].
    - destruct (is_digit c) eqn:E; [|done].
      destruct (span_digits s2) as [ds' r'] eqn:Es. intros [= <- <- <-].
      cbn [forallb].
      by rewrite (is_digit_ascii c E), (span_digits_ascii _ _ _ Es). }
  destruct s as [|c s]; [apply (H false [])|].
  pose proof (H false (c :: s)) as H1. pose proof (H true s) as H2. clear H.
  destruct c as [|p]; [exact H1|].
  repeat (destruct p as [p|p|]; try exact H1). exact H2.
Qed.

Lemma match_frac_ascii s : forallb is_ascii (match_frac s).1 = true.
Proof.
  unfold match_frac. destruct s as [|a [|c s]]; try done.
  - destruct a as [|p]; [done|]. by repeat (destruct p as [p|p|]; try done).
  - assert (H : forallb is_ascii
      (if is_digit c
       then let '(ds, r) := span_digits s in (46%N :: c :: ds, r)
       else ([], a :: c :: s)).1 = true).
    { destruct (is_digit c) eqn:E; [|done].
      destruct (span_digits s) as [ds r] eqn:Es. cbn [fst forallb].
      by rewrite (is_digit_ascii c E), (span_digits_ascii _ _ _ Es). }
    destruct a as [|p]; [done|].
    repeat (destruct p as [p|p|]; try done).
Qed.

Lemma match_exp_ascii s : forallb is_ascii (match_exp s).1 = true.
Proof.
  unfold match_exp. destruct s as [|e s1]; [done|].
  destruct ((e =? 101) || (e =? 69))%N eqn:Ee; [|done].
  assert (He : is_ascii e = true).
  { unfold is_ascii. apply N.leb_le.
    apply orb_true_iff in Ee as [->%N.eqb_eq | ->%N.eqb_eq]; lia. }
  destruct (match s1 with
            | c :: s' =>
                if ((c =? 45) || (c =? 43))%N then ([c], s') else ([], s1)
            | [] => ([], s1)
            end) as [sign s2] eqn:Es.
  assert (Hs : forallb is_ascii sign = true).
  { destruct s1 as [|c s']; [by injection Es as <- <-|].
    destruct ((c =? 45) || (c =? 43))%N eqn:Ec; injection Es as <- <-;
      [|done].
    cbn [forallb]. rewrite andb_true_r. unfold is_ascii. apply N.leb_le.
    apply orb_true_iff in Ec as [->%N.eqb_eq | ->%N.eqb_eq]; lia. }
  destruct (span_digits s2) as [ds r] eqn:Ed.
  pose proof (span_digits_ascii _ _ _ Ed) as Hd.
  destruct ds as [|d ds]; [done|]. cbn [fst].
  cbn [forallb]. rewrite He. cbn [andb]. by rewrite forallb_app, Hs, Hd.
Qed.

Lemma match_number_ascii s v r :
  match_number s = Some (v, r) -> ascii_floats v = true.
Proof.
  unfold match_number.
  destruct (match_integer s) as [[[neg ds] r0]|] eqn:Ei; [|done].
  pose proof (match_integer_ascii _ _ _ _ Ei) as Hds.
  pose proof (match_frac_ascii r0) as Hf.
  destruct (match_frac r0) as [frac r1].
  pose proof (match_exp_ascii r1) as Hx.
  destruct (match_exp r1) as [ex r2]. cbn [fst] in *.
  assert (Hfl : ascii_floats
                  (JFloat ((if neg then [45%N] else []) ++ ds ++ frac ++ ex))
                = true).
  { cbn [ascii_floats]. rewrite !forallb_app, Hds, Hf, Hx.
    by destruct neg. }
  destruct frac, ex; intros [= <- <-]; done.
Qed.

Lemma dict_set_ascii acc k v :
  forallb (fun kv => ascii_floats kv.2) acc = true ->
  ascii_floats v = true ->
  forallb (fun kv => ascii_floats kv.2) (dict_set acc k v) = true.
Proof.
  intros Hacc Hv. induction acc as [|[k' v'] acc IH]; cbn [dict_set forallb snd].
  - by rewrite Hv.
  - cbn [forallb snd] in Hacc. apply andb_true_iff in Hacc as [H1 H2].
    destruct (text_eqb k' k); cbn [forallb snd].
    + by rewrite Hv, H2.
    + by rewrite H1, IH.
Qed.

Lemma parser_ascii fuel :
  (forall s v r, scan_once fuel s = Some (v, r) -> ascii_floats v = true)
  /\ (forall s l r, parse_items fuel s = Some (l, r) ->
        forallb ascii_floats l = true)
  /\ (forall acc s d r, parse_members fuel acc s = Some (d, r) ->
        forallb (fun kv => ascii_floats kv.2) acc = true ->
        forallb (fun kv => ascii_floats kv.2) d = true).
Proof.
  induction fuel as [|fuel (IHs & IHi & IHm)]; [done|].
  split; [|split].
  - intros s v r. cbn [scan_once]. destruct s as [|c s']; [done|].
    destruct (c =? 34)%N.
    { destruct (scanstring _ s') as [[str r']|]; [|done]. by intros [= <- <-]. }
    destruct (c =? 123)%N.
    { destruct (skip_ws s') as [|c1 r1] eqn:Ew.
      - destruct (parse_members fuel [] []) as [[d r']|] eqn:Em; [|done].
        intros [= <- <-]. by apply (IHm _ _ _ _ Em).
      - assert (Hm : forall res,
          match parse_members fuel [] (c1 :: r1) with
          | Some (d, r) => Some (JDict d, r)
          | None => None
          end = Some res -> ascii_floats res.1 = true).
        { intros res. destruct (parse_members fuel [] (c1 :: r1))
            as [[d r']|] eqn:Em; [|done].
          intros [= <-]. by apply (IHm _ _ _ _ Em). }
        destruct c1 as [|p]; [intros H; apply (Hm _ H)|].
        repeat (destruct p as [p|p|]; try (intros H; apply (Hm _ H))).
        by intros [= <- <-]. }
    destruct (c =? 91)%N.
    { destruct (skip_ws s') as [|c1 r1] eqn:Ew.
      - destruct (parse_items fuel []) as [[l r']|] eqn:Em; [|done].
        intros [= <- <-]. by apply (IHi _ _ _ Em).
      - assert (Hm : forall res,
          match parse_items fuel (c1 :: r1) with
          | Some (l, r) => Some (JList l, r)
          | None => None
          end = Some res -> ascii_floats res.1 = true).
        { intros res. destruct (parse_items fuel (c1 :: r1))
            as [[l r']|] eqn:Em; [|done].
          intros [= <-]. by apply (IHi _ _ _ Em). }
        destruct c1 as [|p]; [intros H; apply (Hm _ H)|].
        repeat (destruct p as [p|p|]; try (intros H; apply (Hm _ H))).
        by intros [= <- <-]. }
    destruct (strip_prefix (codes "null") _); [by intros [= <- <-]|].
    destruct (strip_prefix (codes "true") _); [by intros [= <- <-]|].
    destruct (strip_prefix (codes "false") _); [by intros [= <- <-]|].
    destruct (strip_prefix (codes "-Infinity") _); [by intros [= <- <-]|].
    destruct (match_number (c :: s')) as [[v' r']|] eqn:En.
    { intros [= <- <-]. by apply (match_number_ascii _ _ _ En). }
    destruct (strip_prefix (codes "NaN") _); [by intros [= <- <-]|].
    destruct (strip_prefix (codes "Infinity") _); [by intros [= <- <-]|done].
  - intros s l r. cbn [parse_items].
    destruct (scan_once fuel s) as [[v r0]|] eqn:Es; [|done].
    pose proof (IHs _ _ _ Es) as Hv.
    assert (Hm : forall r' res,
      match parse_items fuel (skip_ws r') with
      | Some (l, r'') => Some (v :: l, r'')
      | None => None
      end = Some res -> forallb ascii_floats res.1 = true).
    { intros r' res.
      destruct (parse_items fuel (skip_ws r')) as [[l' r'']|] eqn:Em; [|done].
      intros [= <-]. cbn [fst forallb]. by rewrite Hv, (IHi _ _ _ Em). }
    destruct (skip_ws r0) as [|c1 r1]; [done|].
    destruct c1 as [|p]; [done|].
    repeat (destruct p as [p|p|]; try done);
      first [intros H; apply (Hm _ _ H)
            |intros [= <- <-]; cbn [forallb]; by rewrite Hv].
  - intros acc s d r. cbn [parse_members].
    destruct s as [|c s1]; [done|].
    assert (Hm : forall res,
      match scanstring (length s1) s1 with
      | None => None
      | Some (k, r) =>
          match skip_ws r with
          | 58%N :: r1 =>
              match scan_once fuel (skip_ws r1) with
              | None => None
              | Some (v, r2) =>
                  let acc' := dict_set acc k v in
                  match skip_ws r2 with
                  | 125%N :: r3 => Some (acc', r3)
                  | 44%N :: r3 => parse_members fuel acc' (skip_ws r3)
                  | _ => None
                  end
              end
          | _ => None
          end
      end = Some res ->
      forallb (fun kv => ascii_floats kv.2) acc = true ->
      forallb (fun kv => ascii_floats kv.2) res.1 = true).
    { intros res. destruct (scanstring _ s1) as [[k r0]|]; [|done].
      assert (Hv : forall r1 res,
        match scan_once fuel (skip_ws r1) with
        | None => None
        | Some (v, r2) =>
            let acc' := dict_set acc k v in
            match skip_ws r2 with
            | 125%N :: r3 => Some (acc', r3)
            | 44%N :: r3 => parse_members fuel acc' (skip_ws r3)
            | _ => None
            end
        end = Some res ->
        forallb (fun kv => ascii_floats kv.2) acc = true ->
        forallb (fun kv => ascii_floats kv.2) res.1 = true).
      { clear res. intros r1 res.
        destruct (scan_once fuel (skip_ws r1)) as [[v r2]|] eqn:Es; [|done].
        pose proof (IHs _ _ _ Es) as Hv. cbv zeta.
        destruct (skip_ws r2) as [|c2 r3]; [done|].
        destruct c2 as [|p]; [done|].
        repeat (destruct p as [p|p|]; try done).
        - intros [= <-] Hacc. by apply dict_set_ascii.
        - destruct res as [d' r']. intros Hp Hacc.
          apply (IHm _ _ _ _ Hp). by apply dict_set_ascii. }
      destruct (skip_ws r0) as [|c1 r1]; [done|].
      destruct c1 as [|p]; [done|].
      repeat (destruct p as [p|p|]; try done). apply Hv. }
    destruct c as [|p]; [done|].
    repeat (destruct p as [p|p|]; try done).
    intros H. apply (Hm _ H).
Qed.

Lemma loads_ascii_floats s v : loads s = Some v -> ascii_floats v = true.
Proof.
  unfold loads.
  assert (H :
    match scan_once (S (length s)) (skip_ws s) with
    | None => None
    | Some (v, r) =>
        match skip_ws r with
        | [] => Some v
        | _ :: _ => None
        end
    end = Some v -> ascii_floats v = true).
  { destruct (scan_once _ _) as [[v' r]|] eqn:E; [|done].
    destruct (skip_ws r); [|done]. intros [= <-].
    by apply (proj1 (parser_ascii _) _ _ _ E). }
  destruct s as [|c s']; [exact H|]. destruct c as [|p]; [exact H|].
  repeat (destruct p as [p|p|]; try exact H); try done.
Qed.

(** *** The documents of a run *)

Import summarizer agent.

Lemma json_loads_ascii_floats lim s v :
  json_loads lim s = Done v -> ascii_floats v = true.
Proof.
  intros (fuel & r & E)%json_loads_done.
  by apply (proj1 (parser_ascii _) _ _ _ E).
Qed.

Lemma sections_of_response_ascii lim response v :
  section_extractor.sections_of_response lim response = Ok v ->
  ascii_floats v = true.
Proof.
  unfold section_extractor.sections_of_response.
  destruct (json_loads _ _) as [x| |] eqn:E; [| |done]; intros [= <-];
    [|done].
  by apply json_loads_ascii_floats in E.
Qed.

Lemma rule_checks_of_response_ascii lim response v :
  rule_checker.rule_checks_of_response lim response = Ok v ->
  ascii_floats v = true.
Proof.
  unfold rule_checker.rule_checks_of_response.
  destruct (json_loads _ _) as [x| |] eqn:E; [| |done]; intros [= <-];
    [|done].
  destruct (is_list x); [|done]. by apply json_loads_ascii_floats in E.
Qed.

Lemma after_summaries_ascii e cleaned output_path v w res w' :
  after_summaries e cleaned output_path v w = (Ok res, w') ->
  ascii_floats (r_sections res) = true
  /\ ascii_floats (r_rule_checks res) = true.
Proof.
  unfold after_summaries. rewrite run_bind.
  destruct (combine_summaries e v w) as [[s|] w1]; [|done].
  rewrite run_bind, run_extract_sections.
  destruct (generate_content e (trace w1) _) as [r2|]; [|done].
  destruct (section_extractor.sections_of_response _ r2) as [x|] eqn:Hx;
    [|done].
  rewrite run_bind, run_apply_rule_checks. cbn [fs trace].
  destruct (generate_content e _ (rule_checker.rules_prompt _)) as [r3|];
    [|done].
  destruct (rule_checker.rule_checks_of_response _ r3) as [y|] eqn:Hy;
    [|done].
  rewrite run_bind.
  destruct (json_exporter.export_json _ _ _ _ _) as [[[]|] w4]; [|done].
  intros [= <- <-]. cbn [r_sections r_rule_checks].
  split; [by eapply sections_of_response_ascii
         |by eapply rule_checks_of_response_ascii].
Qed.

(** X14.  The two documents a run writes are plain ASCII, whatever the
    PDF and the answers of the model hold: the result document of a run
    that returns, and the cache document of any list of summaries.  Every
    character of a string outside the printable ASCII range is written as
    an escape. *)
Theorem process_legislation_writes_ascii (e : env)
    (pdf_path output_path : string) (w : world) (res : results) :
  result_of (process_legislation e pdf_path output_path) w = Ok res ->
  ascii_text (result_document (r_summary res) (r_sections res)
                (r_rule_checks res))
  /\ forall summaries,
       ascii_text (dumps (JDict [(cache_key, JList (map JStr summaries))])).
Proof.
  intros Hres. split.
  - assert (Hv : ascii_floats (r_sections res) = true
                 /\ ascii_floats (r_rule_checks res) = true).
    { unfold result_of in Hres.
      destruct (pdf_text e pdf_path) as [raw|] eqn:Hpdf;
        [|by rewrite process_legislation_no_pdf in Hres].
      destruct (chunk_text_default (clean_text raw)) as [chunks Hchunks].
      rewrite (process_legislation_run _ _ _ _ _ _ Hpdf Hchunks) in Hres.
      cbv zeta in Hres.
      destruct (load_from (fs w) cache_path) as [v|].
      - destruct (after_summaries e _ output_path v _) as [[res'|] w']
          eqn:Ha; [|done].
        injection Hres as ->. by eapply after_summaries_ascii.
      - rewrite run_bind in Hres.
        destruct (summarize_chunks e chunks _) as [[ss|] w2]; [|done].
        rewrite run_bind in Hres.
        destruct (json_exporter.export_chunk_summaries _ _ w2)
          as [[[]|] w3]; [|done].
        destruct (after_summaries e _ output_path _ w3) as [[res'|] w']
          eqn:Ha; [|done].
        injection Hres as ->. by eapply after_summaries_ascii. }
    destruct Hv as [Hs Hr]. unfold result_document, dumps.
    apply ascii_text_encode. cbn [ascii_floats forallb snd].
    by rewrite Hs, Hr.
  - intros summaries. unfold dumps. apply ascii_text_encode.
    cbn [ascii_floats forallb snd]. rewrite andb_true_r.
    induction summaries as [|x l IH]; [done|]. exact IH.
Qed.

(** The theorem at a run that returns. *)
Lemma process_legislation_writes_ascii_witness :
  exists res,
    result_of (process_legislation short_act_env "act.pdf" "out.json")
      (World ∅ []) = Ok res
    /\ ascii_text (result_document (r_summary res) (r_sections res)
                     (r_rule_checks res)).
Proof.
  eexists. split; [vm_compute; reflexivity|].
  eapply (process_legislation_writes_ascii short_act_env "act.pdf"
            "out.json" (World ∅ [])).
  vm_compute. reflexivity.
Defined.

End ascii_output.


From Stdlib Require Import DecimalFacts DecimalPos DecimalN DecimalZ.

(* ===================================================================== *)
(** ** Reading an exported document back *)
(* ===================================================================== *)

Section read_back.

(** *** Integers *)

(** The digits of a decimal numeral, as characters. *)
Definition digits_of (d : Decimal.uint) : text :=
  codes (NilEmpty.string_of_uint d).

(** What may follow a value in a document: nothing, a comma or a line
    break. *)
Definition stops (rest : text) : bool :=
  match rest with
  | [] => true
  | c :: _ => ((c =? 44) || (c =? 10))%N
  end.

Lemma stops_not_digit rest :
  stops rest = true -> span_digits rest = ([], rest).
Proof.
  destruct rest as [|c rest]; [done|]. cbn [stops span_digits].
  intros [->%N.eqb_eq | ->%N.eqb_eq]%orb_true_iff; done.
Qed.

Lemma digits_of_digits d : Forall (fun c => is_digit c = true) (digits_of d).
Proof.
  unfold digits_of, codes.
  induction d; cbn [NilEmpty.string_of_uint list_ascii_of_string map];
    [constructor|constructor; [done|assumption]..].
Qed.

Lemma span_digits_run ds rest :
  Forall (fun c => is_digit c = true) ds -> stops rest = true ->
  span_digits (ds ++ rest) = (ds, rest).
Proof.
  intros Hds Hr. induction Hds as [|c ds Hc _ IH]; cbn [app span_digits].
  - by apply stops_not_digit.
  - by rewrite Hc, IH.
Qed.

Definition add_digit (acc : Z) (c : char) : Z :=
  (acc * 10 + Z.of_N (c - 48))%Z.

Lemma digits_of_value_acc d : forall acc,
  fold_left add_digit (digits_of d) (Z.pos acc)
  = Z.pos (Pos.of_uint_acc d acc).
Proof.
  unfold digits_of, codes.
  induction d; intros acc;
    cbn [NilEmpty.string_of_uint list_ascii_of_string map fold_left
         Pos.of_uint_acc];
    [done|rewrite <- IHd; f_equal; unfold add_digit; vm_compute (N_of_ascii _);
          lia..].
Qed.

Lemma digits_of_value d :
  fold_left add_digit (digits_of d) 0%Z = Z.of_N (Pos.of_uint d).
Proof.
  unfold digits_of, codes.
  induction d;
    cbn [NilEmpty.string_of_uint list_ascii_of_string map fold_left
         Pos.of_uint];
    [done|exact IHd|apply (digits_of_value_acc d)..].
Qed.

(** A positive number is written without a leading zero. *)
Lemma to_uint_head p :
  exists c ds,
    digits_of (Pos.to_uint p) = c :: ds
    /\ is_digit c = true /\ (c =? 48)%N = false
    /\ Forall (fun x => is_digit x = true) ds.
Proof.
  pose proof (DecimalPos.Unsigned.to_of (Pos.to_uint p)) as H.
  rewrite DecimalPos.Unsigned.of_to in H. cbn [N.to_uint] in H.
  pose proof (Unsigned.to_uint_nonzero p) as Hnz.
  pose proof (digits_of_digits (Pos.to_uint p)) as Hd.
  rewrite H in Hnz, Hd |- *. unfold Decimal.unorm in *.
  pose proof (nzhead_nonzero (Pos.to_uint p)) as Hh.
  destruct (Decimal.nzhead (Pos.to_uint p)) as [|u|u|u|u|u|u|u|u|u|u];
    [done|by destruct (Hh u)|..];
    inversion Hd as [|c ds Hc Hds]; subst;
    eexists _, _; (split; [reflexivity|]); repeat split; done.
Qed.

Lemma match_integer_eq s :
  match_integer s
  = let '(neg, s1) :=
      match s with
      | c :: s' => if (c =? 45)%N then (true, s') else (false, s)
      | [] => (false, s)
      end in
    match s1 with
    | c :: s2 =>
        if (c =? 48)%N then Some (neg, [c], s2)
        else if is_digit c then
          let '(ds, r) := span_digits s2 in Some (neg, c :: ds, r)
        else None
    | [] => None
    end.
Proof.
  destruct s as [|c s']; [done|].
  destruct (N.eqb_spec c 45) as [->|H]; [done|]. unfold match_integer.
  destruct c as [|p]; [done|].
  do 7 (destruct p as [p|p|]; try done).
Qed.

Lemma match_frac_stops rest : stops rest = true -> match_frac rest = ([], rest).
Proof.
  destruct rest as [|c rest]; [done|]. cbn [stops].
  by intros [->%N.eqb_eq | ->%N.eqb_eq]%orb_true_iff.
Qed.

Lemma match_exp_stops rest : stops rest = true -> match_exp rest = ([], rest).
Proof.
  destruct rest as [|c rest]; [done|]. cbn [stops].
  by intros [->%N.eqb_eq | ->%N.eqb_eq]%orb_true_iff.
Qed.

(** One digit sequence without a leading zero, read as a number. *)
Lemma match_number_digits (neg : bool) c ds rest :
  is_digit c = true -> (c =? 48)%N = false ->
  Forall (fun x => is_digit x = true) ds -> stops rest = true ->
  match_number ((if neg then [45%N] else []) ++ c :: ds ++ rest)
  = Some (JInt (if neg then (- digits_value (c :: ds))%Z
                else digits_value (c :: ds)), rest).
Proof.
  intros Hc H0 Hds Hr. unfold match_number. rewrite match_integer_eq.
  assert (Hc45 : (c =? 45)%N = false).
  { apply N.eqb_neq. intros E. by rewrite E in Hc. }
  destruct neg; cbn [app]; rewrite ?N.eqb_refl, ?Hc45, H0, Hc,
    (span_digits_run ds rest Hds Hr), (match_frac_stops _ Hr),
    (match_exp_stops _ Hr); done.
Qed.

Lemma match_number_int z rest :
  stops rest = true ->
  match_number (int_repr z ++ rest) = Some (JInt z, rest).
Proof.
  intros Hr. unfold int_repr. destruct z as [|p|p]; cbn [Z.to_int].
  - change (codes _) with [48%N]. unfold match_number.
    rewrite match_integer_eq. cbn [app]. cbn [N.eqb Pos.eqb].
    by rewrite (match_frac_stops _ Hr), (match_exp_stops _ Hr).
  - destruct (to_uint_head p) as (c & ds & Hd & Hc & H0 & Hds).
    assert (Hs : codes (NilZero.string_of_int (Decimal.Pos (Pos.to_uint p)))
                 = c :: ds).
    { rewrite <- Hd. cbn [NilZero.string_of_int]. unfold NilZero.string_of_uint.
      pose proof (Unsigned.to_uint_nonnil p). by destruct (Pos.to_uint p). }
    rewrite Hs. cbn [app].
    pose proof (match_number_digits false c ds rest Hc H0 Hds Hr) as Hm.
    cbn [app] in Hm. rewrite Hm.
    do 3 f_equal. rewrite <- Hd. unfold digits_value.
    change (fold_left _ (digits_of (Pos.to_uint p)) 0%Z)
      with (fold_left add_digit (digits_of (Pos.to_uint p)) 0%Z).
    by rewrite digits_of_value, DecimalPos.Unsigned.of_to.
  - destruct (to_uint_head p) as (c & ds & Hd & Hc & H0 & Hds).
    assert (Hs : codes (NilZero.string_of_int (Decimal.Neg (Pos.to_uint p)))
                 = 45%N :: c :: ds).
    { rewrite <- Hd. cbn [NilZero.string_of_int]. unfold NilZero.string_of_uint.
      pose proof (Unsigned.to_uint_nonnil p). by destruct (Pos.to_uint p). }
    rewrite Hs. cbn [app].
    pose proof (match_number_digits true c ds rest Hc H0 Hds Hr) as Hm.
    cbn [app] in Hm. etrans; [exact Hm|].
    do 3 f_equal. rewrite <- Hd. unfold digits_value.
    change (fold_left _ (digits_of (Pos.to_uint p)) 0%Z)
      with (fold_left add_digit (digits_of (Pos.to_uint p)) 0%Z).
    by rewrite digits_of_value, DecimalPos.Unsigned.of_to.
Qed.

(** *** Documents that are read back as they were *)

(** No float; strings and keys without a surrogate pair written as two
    characters; no key twice in an object. *)
Fixpoint plain (v : json) : bool :=
  match v with
  | JNull | JBool _ | JInt _ => true
  | JFloat _ => false
  | JStr s => well_formed s
  | JList l => forallb plain l
  | JDict d =>
      forallb (fun kv => well_formed (fst kv) && plain (snd kv)) d
      && bool_decide (NoDup (dict_keys d))
  end.

(** The calls [scan_once] needs for a value. *)
Fixpoint weight (v : json) : nat :=
  match v with
  | JList l => S (list_sum (map (fun x => S (weight x)) l))
  | JDict d => S (list_sum (map (fun kv => S (weight (snd kv))) d))
  | _ => 1
  end.

(** The characters a written value starts with. *)
Definition opens (c : char) : bool :=
  (is_digit c || (c =? 110) || (c =? 116) || (c =? 102) || (c =? 45)
   || (c =? 34) || (c =? 91) || (c =? 123))%N.

Lemma opens_bounds c :
  opens c = true ->
  (48 <= c <= 57 \/ c = 110 \/ c = 116 \/ c = 102 \/ c = 45 \/ c = 34
   \/ c = 91 \/ c = 123)%N.
Proof.
  unfold opens, is_digit.
  rewrite !orb_true_iff, andb_true_iff, !N.eqb_eq, !N.leb_le. tauto.
Qed.

Lemma opens_not_ws c : opens c = true -> is_ws c = false.
Proof.
  intros H%opens_bounds. unfold is_ws.
  rewrite !orb_false_iff, !N.eqb_neq. lia.
Qed.

Lemma int_repr_head z :
  exists c t, int_repr z = c :: t
    /\ (is_digit c = true
        \/ c = 45%N /\ exists d t', t = d :: t' /\ is_digit d = true).
Proof.
  unfold int_repr. destruct z as [|p|p]; cbn [Z.to_int].
  - exists 48%N, []. split; [done|by left].
  - destruct (to_uint_head p) as (c & ds & Hd & Hc & H0 & Hds).
    exists c, ds. split; [|by left].
    rewrite <- Hd. cbn [NilZero.string_of_int]. unfold NilZero.string_of_uint.
    pose proof (Unsigned.to_uint_nonnil p). by destruct (Pos.to_uint p).
  - destruct (to_uint_head p) as (c & ds & Hd & Hc & H0 & Hds).
    exists 45%N, (c :: ds). split; [|right; eauto].
    rewrite <- Hd. cbn [NilZero.string_of_int]. unfold NilZero.string_of_uint.
    pose proof (Unsigned.to_uint_nonnil p). by destruct (Pos.to_uint p).
Qed.

Lemma encode_head lvl v :
  plain v = true -> exists c t, encode lvl v = c :: t /\ opens c = true.
Proof.
  destruct v as [|[|]|z|x|s|[|a l]|[|m d]]; try done; intros _;
    try (by eexists _, _).
  destruct (int_repr_head z) as (c & t & Hz & [Hc|[-> _]]);
    exists c, t || exists 45%N, t; (split; [done|]); [|done].
  unfold opens. by rewrite Hc.
Qed.

Lemma strip_prefix_same a w s :
  strip_prefix (a :: w) (a :: s) = strip_prefix w s.
Proof. cbn [strip_prefix]. by rewrite N.eqb_refl. Qed.

(** A number at the start of a text is read by [match_number]. *)
Lemma scan_once_number fuel c s v r :
  (is_digit c = true
   \/ c = 45%N /\ exists d s', s = d :: s' /\ is_digit d = true) ->
  match_number (c :: s) = Some (v, r) ->
  scan_once (S fuel) (c :: s) = Some (v, r).
Proof.
  intros Hc Hm. cbn [scan_once].
  assert (Hb : (48 <= c <= 57 \/ c = 45)%N).
  { destruct Hc as [Hc|[-> _]]; [|by right]. left. unfold is_digit in Hc.
    apply andb_true_iff in Hc as [H1%N.leb_le H2%N.leb_le]. lia. }
  rewrite (proj2 (N.eqb_neq c 34)), (proj2 (N.eqb_neq c 123)),
    (proj2 (N.eqb_neq c 91)) by lia.
  change (codes "null") with [110; 117; 108; 108]%N.
  change (codes "true") with [116; 114; 117; 101]%N.
  change (codes "false") with [102; 97; 108; 115; 101]%N.
  rewrite !strip_prefix_stop by (apply N.eqb_neq; lia).
  assert (Hi : strip_prefix (codes "-Infinity") (c :: s) = None).
  { change (codes "-Infinity")
      with [45; 73; 110; 102; 105; 110; 105; 116; 121]%N.
    destruct Hc as [Hc|(-> & d & s' & -> & Hd)].
    - apply strip_prefix_stop, N.eqb_neq. intros <-. done.
    - rewrite strip_prefix_same. apply strip_prefix_stop, N.eqb_neq.
      intros <-. done. }
  by rewrite Hi, Hm.
Qed.

Lemma scan_once_int fuel z rest :
  stops rest = true ->
  scan_once (S fuel) (int_repr z ++ rest) = Some (JInt z, rest).
Proof.
  intros Hr. pose proof (match_number_int z rest Hr) as Hm.
  destruct (int_repr_head z) as (c & t & Hz & Hc). rewrite Hz in *.
  cbn [app] in *. apply scan_once_number; [|done].
  destruct Hc as [Hc|(-> & d & t' & -> & Hd)]; [by left|right].
  split; [done|]. by exists d, (t' ++ rest).
Qed.

(** *** Arrays and objects *)

(** The separator of items at one depth, and a member of an object. *)
Definition sep (lvl : nat) : text := 44%N :: newline_indent lvl.

Definition member (lvl : nat) (kv : text * json) : text :=
  let '(k, x) := kv in
  encode_basestring_ascii k ++ codes ": " ++ encode lvl x.

Definition reads_back (v : json) : Prop :=
  forall lvl fuel rest,
    stops rest = true -> weight v <= fuel ->
    scan_once fuel (encode lvl v ++ rest) = Some (v, rest).

Lemma stops_indent lvl rest : stops (newline_indent lvl ++ rest) = true.
Proof. done. Qed.

Lemma stops_sep lvl rest : stops (sep lvl ++ rest) = true.
Proof. done. Qed.

Lemma join_with_cons sep0 p q ps :
  join_with sep0 (p :: q :: ps) = p ++ sep0 ++ join_with sep0 (q :: ps).
Proof. done. Qed.

Lemma join_with_head sep0 c t ps :
  exists t', join_with sep0 ((c :: t) :: ps) = c :: t'.
Proof. destruct ps; by eexists. Qed.

Lemma parse_items_encoded L lvl rest : forall l a fuel,
  Forall (fun x => plain x = true -> reads_back x) (a :: l) ->
  forallb plain (a :: l) = true ->
  list_sum (map (fun x => S (weight x)) (a :: l)) <= fuel ->
  parse_items fuel
    (join_with (sep L) (map (encode L) (a :: l))
       ++ newline_indent lvl ++ 93%N :: rest)
  = Some (a :: l, rest).
Proof.
  induction l as [|a' l IH]; intros a fuel Hrb Hpl Hf;
    apply Forall_cons in Hrb as [Ha Hrb]; cbn [forallb] in Hpl;
    apply andb_true_iff in Hpl as [Hpa Hpl]; cbn [map list_sum fold_right] in Hf;
    (destruct fuel as [|fuel]; [lia|]); rewrite parse_items_step.
  - cbn [map join_with].
    rewrite (Ha Hpa L fuel _ (stops_indent lvl _)) by lia.
    by rewrite skip_ws_indent.
  - cbn [map]. rewrite join_with_cons, <- !app_assoc.
    rewrite (Ha Hpa L fuel _ (stops_sep L _)) by lia.
    unfold sep at 1. cbn [app]. rewrite skip_ws_stop by done.
    cbn [N.eqb Pos.eqb].
    pose proof (IH a' fuel Hrb Hpl ltac:(cbn [map list_sum fold_right]; lia)) as IH'.
    cbn [forallb] in Hpl. apply andb_true_iff in Hpl as [Hpa' _].
    destruct (encode_head L a' Hpa') as (c & t & Hc & Ho).
    cbn [map] in IH' |- *. rewrite Hc in IH' |- *.
    destruct (join_with_head (sep L) c t (map (encode L) l)) as [t' Ht].
    unfold text, char in *.
    rewrite Ht in IH' |- *. cbn [app] in IH' |- *.
    rewrite skip_ws_indent by by apply opens_not_ws.
    unfold text, char in *. by rewrite IH'.
Qed.

Lemma dict_set_fresh acc k v :
  k ∉ dict_keys acc -> dict_set acc k v = acc ++ [(k, v)].
Proof.
  induction acc as [|[k' v'] acc IH]; [done|]. cbn [dict_keys map fst].
  intros [Hne Hk]%not_elem_of_cons. cbn [dict_set app].
  rewrite (proj2 (text_eqb_neq k' k)) by done. by rewrite IH.
Qed.

Lemma parse_members_encoded L lvl rest : forall d m acc fuel,
  Forall (fun kv => plain (snd kv) = true -> reads_back (snd kv)) (m :: d) ->
  forallb (fun kv => well_formed (fst kv) && plain (snd kv)) (m :: d) = true ->
  NoDup (dict_keys acc ++ dict_keys (m :: d)) ->
  list_sum (map (fun kv => S (weight (snd kv))) (m :: d)) <= fuel ->
  parse_members fuel acc
    (join_with (sep L) (map (member L) (m :: d))
       ++ newline_indent lvl ++ 125%N :: rest)
  = Some (acc ++ m :: d, rest).
Proof.
  induction d as [|m' d IH]; intros [k x] acc fuel Hrb Hpl Hnd Hf;
    apply Forall_cons in Hrb as [Hx Hrb]; cbn [forallb fst snd] in Hpl;
    apply andb_true_iff in Hpl as [Hkx Hpl];
    apply andb_true_iff in Hkx as [Hk Hpx];
    cbn [map list_sum fold_right snd] in Hf; cbn [snd] in Hx;
    (destruct fuel as [|fuel]; [lia|]);
    assert (Hfresh : k ∉ dict_keys acc)
      by (apply NoDup_app in Hnd as (_ & Hd & _); intros Hin;
          apply (Hd _ Hin); cbn [dict_keys map fst]; apply list_elem_of_here);
    destruct (encode_head L x Hpx) as (c & t & Hc & Ho);
    pose proof (opens_not_ws c Ho) as Hws.
  - cbn [map join_with member]. unfold encode_basestring_ascii.
    rewrite <- !app_assoc. cbn [app]. rewrite parse_members_step.
    rewrite scanstring_escaped by (done || (rewrite length_app; cbn [length]; lia)).
    change (codes ": ") with [58; 32]%N. cbn [app].
    rewrite skip_ws_stop by done. cbn [N.eqb Pos.eqb].
    rewrite skip_ws_ws by done. rewrite Hc. cbn [app].
    rewrite skip_ws_stop by done.
    change (c :: t ++ newline_indent lvl ++ 125%N :: rest)
      with ((c :: t) ++ newline_indent lvl ++ 125%N :: rest).
    rewrite <- Hc, (Hx Hpx L fuel _ (stops_indent lvl _)) by lia.
    rewrite skip_ws_indent by done. cbn [N.eqb Pos.eqb].
    by rewrite dict_set_fresh.
  - cbn [map]. rewrite join_with_cons. cbn [member].
    unfold encode_basestring_ascii.
    rewrite <- !app_assoc. cbn [app]. rewrite parse_members_step.
    rewrite scanstring_escaped by (done || (rewrite length_app; cbn [length]; lia)).
    change (codes ": ") with [58; 32]%N. cbn [app].
    rewrite skip_ws_stop by done. cbn [N.eqb Pos.eqb].
    rewrite skip_ws_ws by done. rewrite Hc. cbn [app].
    rewrite skip_ws_stop by done.
    change (c :: t ++ sep L ++ ?X) with ((c :: t) ++ sep L ++ X).
    rewrite <- Hc, (Hx Hpx L fuel _ (stops_sep L _)) by lia.
    unfold sep at 1. cbn [app]. rewrite skip_ws_stop by done.
    cbn [N.eqb Pos.eqb]. rewrite dict_set_fresh by done.
    assert (Hnd' : NoDup (dict_keys (acc ++ [(k, x)]) ++ dict_keys (m' :: d))).
    { unfold dict_keys in *. rewrite map_app, <- app_assoc. exact Hnd. }
    pose proof (IH m' (acc ++ [(k, x)]) fuel Hrb Hpl Hnd'
                  ltac:(cbn [map list_sum fold_right]; lia)) as IH'.
    destruct m' as [k' x']. cbn [map member] in IH' |- *.
    unfold encode_basestring_ascii in IH' |- *.
    destruct (join_with_head (sep L) 34%N
                (flat_map escape_char k' ++ [34%N] ++ codes ": "
                   ++ encode L x')
                (map (member L) d)) as [t' Ht].
    cbn [app] in Ht. rewrite <- !app_assoc in IH' |- *.
    cbn [app] in IH' |- *. unfold text, char in *.
    rewrite Ht in IH' |- *. cbn [app] in IH' |- *.
    rewrite skip_ws_indent by done. unfold text, char in *. rewrite IH'.
    by rewrite <- app_assoc.
Qed.

(** *** Every plain value *)

Lemma encode_list lvl a l :
  encode lvl (JList (a :: l))
  = 91%N :: newline_indent (S lvl)
      ++ join_with (sep (S lvl)) (map (encode (S lvl)) (a :: l))
      ++ newline_indent lvl ++ [93%N].
Proof. done. Qed.

Lemma encode_dict lvl m d :
  encode lvl (JDict (m :: d))
  = 123%N :: newline_indent (S lvl)
      ++ join_with (sep (S lvl)) (map (member (S lvl)) (m :: d))
      ++ newline_indent lvl ++ [125%N].
Proof. done. Qed.

Lemma opens_not_bracket c : opens c = true -> (c =? 93)%N = false.
Proof. intros H%opens_bounds. apply N.eqb_neq. lia. Qed.

(** Brings a concatenation into the form [x :: ... ++ ...]. *)
Ltac flatten_app :=
  repeat first [rewrite <- app_assoc | progress (cbn [app])].

Lemma plain_reads_back v : plain v = true -> reads_back v.
Proof.
  induction v as [|b|z|x|s|l IH|d IH] using json_induction;
    intros Hp lvl fuel rest Hr Hf;
    (destruct fuel as [|fuel]; [cbn [weight] in Hf; lia|]).
  - change (encode lvl JNull ++ rest) with (110 :: 117 :: 108 :: 108 :: rest)%N.
    cbn [scan_once N.eqb Pos.eqb].
    change (110 :: 117 :: 108 :: 108 :: rest)%N with (codes "null" ++ rest).
    by rewrite strip_prefix_app.
  - destruct b.
    + change (encode lvl (JBool true) ++ rest)
        with (116 :: 114 :: 117 :: 101 :: rest)%N.
      cbn [scan_once N.eqb Pos.eqb].
      change (codes "null") with [110; 117; 108; 108]%N.
      rewrite strip_prefix_stop by done.
      change (116 :: 114 :: 117 :: 101 :: rest)%N with (codes "true" ++ rest).
      by rewrite strip_prefix_app.
    + change (encode lvl (JBool false) ++ rest)
        with (102 :: 97 :: 108 :: 115 :: 101 :: rest)%N.
      cbn [scan_once N.eqb Pos.eqb].
      change (codes "null") with [110; 117; 108; 108]%N.
      change (codes "true") with [116; 114; 117; 101]%N.
      rewrite !strip_prefix_stop by done.
      change (102 :: 97 :: 108 :: 115 :: 101 :: rest)%N
        with (codes "false" ++ rest).
      by rewrite strip_prefix_app.
  - by apply scan_once_int.
  - done.
  - by apply scan_once_string.
  - destruct l as [|a l].
    + change (encode lvl (JList []) ++ rest) with (91 :: 93 :: rest)%N.
      rewrite scan_once_bracket. by rewrite skip_ws_stop by done.
    + rewrite encode_list. cbn [weight] in Hf. cbn [plain] in Hp.
      assert (Hpa : plain a = true)
        by (cbn [forallb] in Hp; by apply andb_true_iff in Hp as [? _]).
      pose proof (parse_items_encoded (S lvl) lvl rest l a fuel IH Hp
                    ltac:(lia)) as Hi.
      destruct (encode_head (S lvl) a Hpa) as (c & t & Hc & Ho).
      cbn [map] in Hi |- *. rewrite Hc in Hi |- *.
      destruct (join_with_head (sep (S lvl)) c t (map (encode (S lvl)) l))
        as [t' Ht].
      unfold text, char in *. rewrite Ht in Hi |- *.
      flatten_app. cbn [app] in Hi.
      rewrite scan_once_bracket, skip_ws_indent by by apply opens_not_ws.
      rewrite (opens_not_bracket c Ho). unfold text, char in *.
      by rewrite Hi.
  - destruct d as [|[k x] d].
    + change (encode lvl (JDict []) ++ rest) with (123 :: 125 :: rest)%N.
      rewrite scan_once_brace. by rewrite skip_ws_stop by done.
    + rewrite encode_dict. cbn [weight] in Hf. cbn [plain] in Hp.
      apply andb_true_iff in Hp as [Hp Hnd].
      apply bool_decide_eq_true in Hnd.
      pose proof (parse_members_encoded (S lvl) lvl rest d (k, x) [] fuel
                    IH Hp Hnd ltac:(lia)) as Hm.
      cbn [map member] in Hm |- *. unfold encode_basestring_ascii in Hm |- *.
      destruct (join_with_head (sep (S lvl)) 34%N
                  (flat_map escape_char k ++ [34%N] ++ codes ": "
                     ++ encode (S lvl) x)
                  (map (member (S lvl)) d)) as [t' Ht].
      cbn [app] in Ht. unfold text, char in *.
      rewrite <- ?app_assoc in Hm. cbn [app] in Hm. rewrite Ht in Hm.
      cbn [app] in Hm.
      flatten_app. rewrite Ht. flatten_app.
      rewrite scan_once_brace, skip_ws_indent by done.
      cbn [N.eqb Pos.eqb]. unfold text, char in *. by rewrite Hm.
Qed.

(** *** The fuel of [loads] is enough *)

Lemma list_sum_le {A} (f g : A -> nat) l :
  Forall (fun x => f x <= g x) l ->
  list_sum (map f l) <= list_sum (map g l).
Proof.
  induction 1 as [|x l Hx _ IH]; [done|].
  change (f x + list_sum (map f l) <= g x + list_sum (map g l)). lia.
Qed.

Lemma join_with_length sep0 parts :
  1 <= length sep0 ->
  list_sum (map (fun p => S (length p)) parts)
  <= S (length (join_with sep0 parts)).
Proof.
  intros Hs. induction parts as [|p ps IH]; [cbn; lia|].
  destruct ps as [|q ps].
  - cbn [map join_with].
    change (list_sum [S (length p)]) with (S (length p) + 0). lia.
  - rewrite join_with_cons, !length_app.
    change (list_sum (map (fun p => S (length p)) (p :: q :: ps)))
      with (S (length p)
            + list_sum (map (fun p => S (length p)) (q :: ps))).
    unfold text, char in *. lia.
Qed.

Lemma weight_encode v : forall lvl,
  plain v = true -> weight v <= length (encode lvl v).
Proof.
  induction v as [|b|z|x|s|l IH|d IH] using json_induction; intros lvl Hp.
  - cbn. lia.
  - destruct b; cbn; lia.
  - destruct (int_repr_head z) as (c & t & Hz & _). cbn [encode weight].
    rewrite Hz. cbn [length]. lia.
  - done.
  - unfold encode, encode_basestring_ascii. rewrite !length_app.
    cbn [weight length]. lia.
  - destruct l as [|a l]; [cbn; lia|].
    rewrite encode_list. cbn [weight length]. rewrite !length_app.
    pose proof (join_with_length (sep (S lvl))
                  (map (encode (S lvl)) (a :: l)) ltac:(cbn; lia)) as Hj.
    rewrite map_map in Hj.
    pose proof (list_sum_le (fun x => S (weight x))
                  (fun x => S (length (encode (S lvl) x))) (a :: l)) as Hl.
    cbn [length]. unfold newline_indent. cbn [length].
    assert (list_sum (map (fun x => S (weight x)) (a :: l))
            <= list_sum (map (fun x => S (length (encode (S lvl) x))) (a :: l))).
    { apply Hl. cbn [plain] in Hp. rewrite forallb_forall in Hp.
      rewrite Forall_forall in IH |- *. intros y Hy.
      specialize (IH y Hy (S lvl) (Hp y (proj1 (list_elem_of_In _ _) Hy))).
      lia. }
    lia.
  - destruct d as [|m d]; [cbn; lia|].
    rewrite encode_dict. cbn [weight length]. rewrite !length_app.
    pose proof (join_with_length (sep (S lvl))
                  (map (member (S lvl)) (m :: d)) ltac:(cbn; lia)) as Hj.
    rewrite map_map in Hj.
    pose proof (list_sum_le (fun kv => S (weight (snd kv)))
                  (fun kv => S (length (member (S lvl) kv))) (m :: d)) as Hl.
    cbn [length]. unfold newline_indent. cbn [length].
    assert (list_sum (map (fun kv => S (weight (snd kv))) (m :: d))
            <= list_sum (map (fun kv => S (length (member (S lvl) kv)))
                           (m :: d))).
    { apply Hl. cbn [plain] in Hp. apply andb_true_iff in Hp as [Hp _].
      rewrite forallb_forall in Hp.
      rewrite Forall_forall in IH |- *. intros [k y] Hy.
      pose proof (Hp (k, y) (proj1 (list_elem_of_In _ _) Hy)) as Hky.
      cbn [fst snd] in Hky. apply andb_true_iff in Hky as [_ Hpy].
      specialize (IH (k, y) Hy (S lvl) Hpy).
      cbn [snd member] in *. rewrite !length_app. lia. }
    lia.
Qed.

(** *** Reading a written document back *)

Lemma loads_no_bom c s :
  c <> 65279%N ->
  loads (c :: s)
  = match scan_once (S (length (c :: s))) (skip_ws (c :: s)) with
    | None => None
    | Some (v, r) => match skip_ws r with [] => Some v | _ :: _ => None end
    end.
Proof.
  intros H. unfold loads. destruct c as [|p]; [done|].
  repeat (destruct p as [p|p|]; try done).
Qed.

Lemma loads_dumps v : plain v = true -> loads (dumps v) = Some v.
Proof.
  intros Hp. unfold dumps.
  pose proof (plain_reads_back v Hp 0 (S (length (encode 0 v))) [] eq_refl)
    as Hr.
  rewrite List.app_nil_r in Hr.
  pose proof (weight_encode v 0 Hp) as Hw.
  specialize (Hr ltac:(lia)).
  destruct (encode_head 0 v Hp) as (c & t & He & Hc).
  rewrite He in *.
  rewrite loads_no_bom by (apply opens_bounds in Hc; lia).
  rewrite skip_ws_stop by by apply opens_not_ws.
  unfold text, char in *. by rewrite Hr.
Qed.

End read_back.

Section exported.
Import json_exporter agent.

(** X15.  A document written by [export_json] reads back as it was
    written.  When the summary is a well-formed string and the sections
    and the rule checks are values without floats, with well-formed
    strings and without a repeated key in an object, and the path can be
    written, [export_json] returns, and [json.loads] of the file gives
    the object with the keys [summary], [sections] and [rule_checks], in
    this order, holding the three values. *)
Theorem export_json_reads_back summary sections rule_checks path w :
  well_formed summary = true ->
  plain sections = true ->
  plain rule_checks = true ->
  fs w !! path <> Some Unreadable ->
  exists content,
    export_json summary sections rule_checks path w
    = (Ok tt, World (<[path := File content]> (fs w))
                    (trace w ++ [EvWrite path content]))
    /\ loads content
       = Some (JDict [(codes "summary", JStr summary);
                      (codes "sections", sections);
                      (codes "rule_checks", rule_checks)]).
Proof.
  intros Hs Hsec Hrc Hw. eexists. split.
  - unfold export_json. rewrite run_write_file.
    by destruct (fs w !! path) as [[]|].
  - apply loads_dumps. cbn [plain forallb fst snd].
    rewrite Hs, Hsec, Hrc. cbn [andb]. rewrite andb_true_r.
    by vm_compute.
Qed.

(** The theorem at a result with a nested object, a list, an integer and
    a string outside ASCII. *)
Lemma export_json_reads_back_witness :
  exists content,
    export_json (codes "An Act")
      (JDict [(codes "penalties", JStr [163; 49; 48; 48]%N);
              (codes "definitions", JNull)])
      (JList [JDict [(codes "rule", JInt (-3)); (codes "ok", JBool true)]])
      "out.json" (World ∅ [])
    = (Ok tt, World (<["out.json" := File content]> ∅)
                    ([] ++ [EvWrite "out.json" content]))
    /\ loads content
       = Some (JDict [(codes "summary", JStr (codes "An Act"));
                      (codes "sections",
                       JDict [(codes "penalties", JStr [163; 49; 48; 48]%N);
                              (codes "definitions", JNull)]);
                      (codes "rule_checks",
                       JList [JDict [(codes "rule", JInt (-3));
                                     (codes "ok", JBool true)]])]).
Proof.
  apply (export_json_reads_back (codes "An Act")
           (JDict [(codes "penalties", JStr [163; 49; 48; 48]%N);
                   (codes "definitions", JNull)])
           (JList [JDict [(codes "rule", JInt (-3)); (codes "ok", JBool true)]])
           "out.json" (World ∅ [])).
  - by vm_compute.
  - by vm_compute.
  - by vm_compute.
  - cbn [fs]. by rewrite lookup_empty.
Defined.

End exported.
